(** * Hopper: structural extraction, outline, captions and the description cache

    A shallow embedding of the parts of the Hopper code viewer that turn a
    parse tree into a [FileStructure] (file-structure.ts), number it
    (book-structure.ts), caption it (prose-provider.ts), list concept
    instances (concept-panel.ts) and cache generated descriptions
    (ai-prose.ts), followed by the vocabulary of the properties, the
    examples, and the properties proved about them.

    JavaScript strings are sequences of UTF-16 code units; they are modelled
    as [list N], one number per code unit, so that [length], [slice], the
    character classes of regular expressions and [trim] mean what they mean in
    the source.  Offsets, counters and lengths are natural numbers. *)

From Stdlib Require Import NArith String Ascii List Lia Bool DecimalString.
From stdpp Require Import gmap list.

Set Warnings "-abstract-large-number,-register-all".
Set Default Proof Using "Type".
Local Open Scope N_scope.
Local Open Scope nat_scope.
Local Open Scope list_scope.

(* ================================================================== *)
(** ** JavaScript strings *)
(* ================================================================== *)

Module Js.

Abbreviation jsstring := (list N).

(** A source literal: each character of the Rocq string is one code unit. *)
Definition lit (s : string) : jsstring :=
  map (fun a => N_of_ascii a) (list_ascii_of_string s).

(** An array of literals. *)
Definition lits (l : list string) : list jsstring := map lit l.

(** [String(n)] for a non-negative integer. *)
Definition ofNat (n : nat) : jsstring :=
  lit (NilEmpty.string_of_uint (Nat.to_uint n)).

Definition eqb (a b : jsstring) : bool := bool_decide (a = b).

(** Truthiness of a string: the empty string is falsy. *)
Definition truthy (s : jsstring) : bool :=
  match s with [] => false | _ :: _ => true end.

(** Truthiness of an optional string ([undefined] is falsy). *)
Definition otruthy (o : option jsstring) : bool :=
  match o with Some s => truthy s | None => false end.

(** ECMAScript WhiteSpace and LineTerminator code units: what [\s] matches
    and what [trim] strips. *)
Definition is_ws (c : N) : bool :=
  ((9 <=? c) && (c <=? 13) || (c =? 32) || (c =? 160) || (c =? 5760)
   || (8192 <=? c) && (c <=? 8202) || (c =? 8232) || (c =? 8233)
   || (c =? 8239) || (c =? 8287) || (c =? 12288) || (c =? 65279))%N.

(** [[a-z]], [[A-Z]], [[0-9]] and [\w]. *)
Definition is_lower (c : N) : bool := ((97 <=? c) && (c <=? 122))%N.
Definition is_upper (c : N) : bool := ((65 <=? c) && (c <=? 90))%N.
Definition is_digit (c : N) : bool := ((48 <=? c) && (c <=? 57))%N.
Definition is_word (c : N) : bool :=
  is_lower c || is_upper c || is_digit c || (c =? 95)%N.

Fixpoint dropWhile (p : N -> bool) (s : jsstring) : jsstring :=
  match s with
  | c :: s' => if p c then dropWhile p s' else s
  | [] => []
  end.

Definition trimStart (s : jsstring) : jsstring := dropWhile is_ws s.
Definition trimEnd (s : jsstring) : jsstring := rev (dropWhile is_ws (rev s)).
Definition trim (s : jsstring) : jsstring := trimEnd (trimStart s).

(** [s.slice(a, b)] for non-negative integer bounds: the code units at
    positions [a <= i < b], clamped to the string. *)
Definition slice (s : jsstring) (a b : nat) : jsstring :=
  take (b - a) (drop a s).

Fixpoint startsWith (s p : jsstring) : bool :=
  match p, s with
  | [], _ => true
  | x :: p', y :: s' => (x =? y)%N && startsWith s' p'
  | _ :: _, [] => false
  end.

(** [s.split(sep)] for a one-character separator: never empty. *)
Fixpoint split (sep : N) (s : jsstring) : list jsstring :=
  match s with
  | [] => [[]]
  | c :: s' =>
      if (c =? sep)%N then [] :: split sep s'
      else match split sep s' with
           | piece :: rest => (c :: piece) :: rest
           | [] => [[c]]
           end
  end.

(** [parts.join(sep)]. *)
Fixpoint join (sep : jsstring) (parts : list jsstring) : jsstring :=
  match parts with
  | [] => []
  | [p] => p
  | p :: rest => p ++ sep ++ join sep rest
  end.

(** [s.replace(/c/g, " ")] style replacement of one code unit by another. *)
Definition replaceAll (c d : N) (s : jsstring) : jsstring :=
  map (fun x => if (x =? c)%N then d else x) s.

(** [arr.includes(x)] on an array of strings. *)
Definition includes (arr : list jsstring) (x : jsstring) : bool :=
  existsb (eqb x) arr.

(** [a || b] on values that are either an object or [null]/[undefined]. *)
Definition orElse {A} (a b : option A) : option A :=
  match a with Some _ => a | None => b end.

(** [s.length > n ? s.slice(0, n - 3) + "..." : s]. *)
Definition ellipsis (n : nat) (s : jsstring) : jsstring :=
  if n <? length s then slice s 0 (n - 3) ++ lit "..." else s.

(** [s.replace(/^:\s*/, "")]. *)
Definition stripColon (s : jsstring) : jsstring :=
  match s with
  | c :: r => if (c =? 58)%N then dropWhile is_ws r else s
  | [] => s
  end.

(** [s.replace(/^\s*->\s*/, "")]. *)
Definition stripArrow (s : jsstring) : jsstring :=
  match dropWhile is_ws s with
  | a :: b :: r => if (a =? 45)%N && (b =? 62)%N then dropWhile is_ws r else s
  | _ => s
  end.

End Js.
Import Js.

Infix "<|>" := orElse (at level 50, left associativity).

(* ================================================================== *)
(** ** The parse tree and the document (external, read-only) *)
(* ================================================================== *)

Module Tree.

(** A Lezer [SyntaxNode]: its grammar tag, its span [[from, to)] and its
    ordered children.  Punctuation and keywords are nodes of their own,
    named by their text. *)
Inductive SyntaxNode :=
  Node (name : jsstring) (from to : nat) (children : list SyntaxNode).

Definition name (n : SyntaxNode) : jsstring := let 'Node x _ _ _ := n in x.
Definition from (n : SyntaxNode) : nat := let 'Node _ x _ _ := n in x.
Definition to (n : SyntaxNode) : nat := let 'Node _ _ x _ := n in x.
Definition children (n : SyntaxNode) : list SyntaxNode :=
  let 'Node _ _ _ x := n in x.

Definition firstChild (n : SyntaxNode) : option SyntaxNode := head (children n).

(** [node.getChild(type)]: the first direct child with that tag. *)
Definition getChild (type : jsstring) (n : SyntaxNode) : option SyntaxNode :=
  find (fun c => eqb (name c) type) (children n).

(** Where a node sits: the tag of its parent and of its previous sibling,
    which is all the extractor reads of [node.parent] and
    [node.prevSibling]. *)
Record Place := { parent : option jsstring; prevSibling : option jsstring }.

(** The document: [{ sliceString(from, to): string }], and [lineAt] for the
    concept panel. *)
Record Text := {
  sliceString : nat -> nat -> jsstring;
  lineNumberAt : nat -> nat }.

(** A document holding the text [s]; lines are numbered from 1 and broken
    at line feeds. *)
Definition document (s : jsstring) : Text :=
  {| sliceString a b := slice s a b;
     lineNumberAt pos :=
       S (length (filter (fun c => (c =? 10)%N) (take pos s))) |}.

End Tree.
Import Tree(SyntaxNode(..), Text, Place).

(* ================================================================== *)
(** ** prose-types.ts *)
(* ================================================================== *)

Module Types.

Inductive FileNodeKind :=
| Kfunction | Kclass | Kvariable | Kimport | Kexport | Kcontrol | Ktype.

Definition kindName (k : FileNodeKind) : jsstring :=
  lit match k with
      | Kfunction => "function" | Kclass => "class" | Kvariable => "variable"
      | Kimport => "import" | Kexport => "export" | Kcontrol => "control"
      | Ktype => "type"
      end.

Global Instance FileNodeKind_eq_dec : EqDecision FileNodeKind.
Proof. solve_decision. Defined.

Record Param := { pname : jsstring; ptype : option jsstring }.

Record ChildSummary := {
  callCount : nat;
  conditionCount : nat;
  loopCount : nat;
  returnCount : nat;
  calledFunctions : list jsstring }.

Inductive FileNode := mkFileNode {
  kind : FileNodeKind;
  name : jsstring;
  params : list Param;
  returnType : option jsstring;
  isAsync : bool;
  isExported : bool;
  keyword : jsstring;
  from : nat;
  to : nat;
  children : list FileNode;
  childSummary : ChildSummary }.

Record FileStructure := {
  imports : list FileNode;
  exports : list FileNode;
  declarations : list FileNode;
  language : jsstring }.

(** [{ ...node, kind: k }] and [node.isExported = b]. *)
Definition withKind (k : FileNodeKind) (n : FileNode) : FileNode :=
  mkFileNode k (name n) (params n) (returnType n) (isAsync n) (isExported n)
             (keyword n) (from n) (to n) (children n) (childSummary n).

Definition withExported (b : bool) (n : FileNode) : FileNode :=
  mkFileNode (kind n) (name n) (params n) (returnType n) (isAsync n) b
             (keyword n) (from n) (to n) (children n) (childSummary n).

(** [structure.imports.push(n)] and its two siblings. *)
Definition pushImport (n : FileNode) (s : FileStructure) : FileStructure :=
  {| imports := imports s ++ [n]; exports := exports s;
     declarations := declarations s; language := language s |}.
Definition pushExport (n : FileNode) (s : FileStructure) : FileStructure :=
  {| imports := imports s; exports := exports s ++ [n];
     declarations := declarations s; language := language s |}.
Definition pushDeclaration (n : FileNode) (s : FileStructure) : FileStructure :=
  {| imports := imports s; exports := exports s;
     declarations := declarations s ++ [n]; language := language s |}.

End Types.
Import Types(FileNodeKind(..), FileNode, mkFileNode, FileStructure,
             ChildSummary, Param).

(* ================================================================== *)
(** ** file-structure.ts: the structural extractor *)
(* ================================================================== *)

Module Extractor.

(** A [Record<string, string[]>] keyed by language. *)
Definition Table := list (jsstring * list jsstring).

Definition lookup (t : Table) (lang : jsstring) : option (list jsstring) :=
  snd <$> find (fun row => eqb (fst row) lang) t.

(** [table[lang] || table.js] (an empty array is truthy). *)
Definition rowOf (t : Table) (lang : jsstring) : list jsstring :=
  default [] (lookup t lang <|> lookup t (lit "js")).

Definition table (js py rs : list string) : Table :=
  [(lit "js", lits js); (lit "py", lits py); (lit "rs", lits rs)].

Definition nameNodes : Table :=
  table ["VariableDefinition"; "PropertyDefinition"]%string
        ["VariableName"]%string
        ["BoundIdentifier"; "TypeIdentifier"]%string.

Definition funcNodes : Table :=
  table ["FunctionDeclaration"; "FunctionExpression"; "ArrowFunction";
         "MethodDeclaration"]%string
        ["FunctionDefinition"]%string
        ["FunctionItem"]%string.

Definition classNodes : Table :=
  table ["ClassDeclaration"; "ClassExpression"]%string
        ["ClassDefinition"]%string
        ["StructItem"; "EnumItem"; "TraitItem"; "ImplItem"]%string.

Definition importNodes : Table :=
  table ["ImportDeclaration"]%string
        ["ImportStatement"]%string
        ["UseDeclaration"; "ExternCrateDeclaration"]%string.

Definition exportNodes : Table :=
  table ["ExportDeclaration"]%string [] [].

Definition typeNodes : Table :=
  table ["TypeAliasDeclaration"; "InterfaceDeclaration"; "EnumDeclaration"]%string
        []
        ["TypeItem"]%string.

Definition varNodes : Table :=
  table ["VariableDeclaration"]%string
        ["AssignStatement"]%string
        ["LetDeclaration"; "ConstItem"; "StaticItem"]%string.

Definition controlNodes : list jsstring :=
  lits ["IfStatement"; "ForStatement"; "WhileStatement"; "DoStatement";
           "SwitchStatement"; "TryStatement";
           "IfExpression"; "MatchExpression"; "WhileExpression";
           "ForExpression"; "LoopExpression"]%string.

Definition loopNodes : list jsstring :=
  lits ["ForStatement"; "WhileStatement"; "DoStatement";
           "WhileExpression"; "ForExpression"; "LoopExpression"]%string.

Definition conditionNodes : list jsstring :=
  lits ["IfStatement"; "SwitchStatement"; "TryStatement";
           "IfExpression"; "MatchExpression"]%string.

(** The text of a node. *)
Definition textOf (doc : Text) (n : SyntaxNode) : jsstring :=
  Tree.sliceString doc (Tree.from n) (Tree.to n).

(** [doc.sliceString(node.from, Math.min(node.to, node.from + k))]. *)
Definition headText (doc : Text) (k : nat) (n : SyntaxNode) : jsstring :=
  Tree.sliceString doc (Tree.from n) (Nat.min (Tree.to n) (Tree.from n + k)).

(** [node.getChild(a) || node.getChild(b) || ...]. *)
Definition getChildOf (types : list string) (n : SyntaxNode)
  : option SyntaxNode :=
  fold_left (fun found ty => found <|> Tree.getChild (lit ty) n) types None.

(** The first entry of an association list under a key; with
    [map (fun c => (Tree.name c, f c)) (Tree.children n)] this is [f] at
    [n.getChild(key)]. *)
Definition firstNamed {A} (key : jsstring) (l : list (jsstring * A))
  : option A :=
  snd <$> find (fun row => eqb (fst row) key) l.

Fixpoint extractName (doc : Text) (lang : jsstring) (node : SyntaxNode)
  {struct node} : jsstring :=
  match node with
  | Node _ _ _ kids =>
      (* Try language-specific name nodes first *)
      match fold_left (fun found childName =>
                         found <|> Tree.getChild childName node)
                      (rowOf nameNodes lang) None with
      | Some child => textOf doc child
      | None =>
      (* For functions, look for the function name child *)
      match getChildOf ["VariableDefinition"; "VariableName";
                        "BoundIdentifier"]%string node with
      | Some fnName => textOf doc fnName
      | None =>
      (* For variable declarations, dig into the declarator *)
      match fold_left (fun found declName =>
               found <|>
               match Tree.getChild (lit declName) node with
               | Some decl =>
                   getChildOf ["VariableDefinition"; "VariableName"]%string decl
               | None => None
               end) ["VariableDeclarator"; "VariableDefinition"]%string None with
      | Some inner => textOf doc inner
      | None =>
      (* For export declarations, look inside the exported declaration *)
      let named := map (fun c => (Tree.name c, extractName doc lang c)) kids in
      match firstNamed (lit "FunctionDeclaration") named
            <|> firstNamed (lit "ClassDeclaration") named
            <|> firstNamed (lit "VariableDeclaration") named with
      | Some inner => inner
      | None =>
      (* For class/struct, try type name patterns *)
      match getChildOf ["TypeIdentifier"; "TypeName"]%string node with
      | Some typeId => textOf doc typeId
      | None =>
      (* Fallback: first line, trimmed *)
      let text := headText doc 60 node in
      let first := trim (default [] (head (split 10 text))) in
      ellipsis 40 first
      end end end end end
  end.

(** [text.split(/[,:=]/)[0]]. *)
Fixpoint beforeSeparator (s : jsstring) : jsstring :=
  match s with
  | c :: r => if (c =? 44)%N || (c =? 58)%N || (c =? 61)%N then []
              else c :: beforeSeparator r
  | [] => []
  end.

Definition extractParams (doc : Text) (node : SyntaxNode) : list Param :=
  match getChildOf ["ParamList"; "Parameters"; "TypeParamList"]%string node with
  | None => []
  | Some paramList =>
      fold_left (fun params child =>
        (* Skip parens and commas *)
        if includes (lits ["("; ")"; ","; "..."]%string) (Tree.name child)
        then params
        else
          let name :=
            match getChildOf ["VariableDefinition"; "VariableName";
                              "BoundIdentifier"]%string child with
            | Some nameChild => textOf doc nameChild
            | None => trim (beforeSeparator (textOf doc child))
            end in
          if truthy name && negb (eqb name (lit "("))
             && negb (eqb name (lit ")"))
          then
            let type :=
              match Tree.getChild (lit "TypeAnnotation") child with
              | Some typeAnn => Some (stripColon (textOf doc typeAnn))
              | None => None
              end in
            params ++ [{| Types.pname := name; Types.ptype := type |}]
          else params)
        (Tree.children paramList) []
  end.

Definition extractReturnType (doc : Text) (node : SyntaxNode)
  : option jsstring :=
  match Tree.getChild (lit "TypeAnnotation") node with
  | Some typeAnn => Some (stripArrow (stripColon (textOf doc typeAnn)))
  | None =>
      (* Rust return type; a child found by getChild has node as parent *)
      match getChildOf ["ReturnType"; "TypeIdentifier"]%string node with
      | Some retType => Some (stripArrow (textOf doc retType))
      | None => None
      end
  end.

Definition emptySummary : ChildSummary :=
  {| Types.callCount := 0; Types.conditionCount := 0; Types.loopCount := 0;
     Types.returnCount := 0; Types.calledFunctions := [] |}.

(** The tags at which the summary walk stops. *)
Definition skip : list jsstring :=
  lits ["FunctionDeclaration"; "FunctionExpression"; "ArrowFunction";
           "FunctionDefinition"; "FunctionItem"; "MethodDeclaration"]%string.

Definition isCall (tag : jsstring) : bool :=
  includes (lits ["CallExpression"; "NewExpression"; "MacroInvocation"]%string) tag.

Definition isReturn (tag : jsstring) : bool :=
  includes (lits ["ReturnStatement"; "ReturnExpression"]%string) tag.

(** [text.split(".").pop()?.split("(")[0]?.trim()]. *)
Definition calleeName (text : jsstring) : jsstring :=
  trim (default [] (head (split 40 (default [] (last (split 46 text)))))).

(** What one node adds to the summary, before its children are walked. *)
Definition countNode (doc : Text) (node : SyntaxNode) (summary : ChildSummary)
  : ChildSummary :=
  let called :=
    if isCall (Tree.name node) then
      match Tree.firstChild node with
      | Some callee =>
          let name := calleeName (textOf doc callee) in
          if truthy name && (length name <? 40) then [name] else []
      | None => []
      end
    else [] in
  {| Types.callCount :=
       Types.callCount summary + (if isCall (Tree.name node) then 1 else 0);
     Types.conditionCount :=
       Types.conditionCount summary
       + (if includes conditionNodes (Tree.name node) then 1 else 0);
     Types.loopCount :=
       Types.loopCount summary
       + (if includes loopNodes (Tree.name node) then 1 else 0);
     Types.returnCount :=
       Types.returnCount summary
       + (if isReturn (Tree.name node) then 1 else 0);
     Types.calledFunctions := Types.calledFunctions summary ++ called |}.

Fixpoint walkForSummary (doc : Text) (node : SyntaxNode)
  (summary : ChildSummary) {struct node} : ChildSummary :=
  match node with
  | Node name _ _ kids =>
      let summary := countNode doc node summary in
      (* Recurse into children but don't enter nested function bodies *)
      if includes skip name then summary
      else fold_left (fun s child => walkForSummary doc child s) kids summary
  end.

(** [[...new Set(names)]]: the first occurrence of each name, in order. *)
Fixpoint uniqueFrom (seen names : list jsstring) : list jsstring :=
  match names with
  | [] => []
  | x :: rest =>
      if includes seen x then uniqueFrom seen rest
      else x :: uniqueFrom (x :: seen) rest
  end.

Definition buildChildSummary (doc : Text) (node : SyntaxNode) : ChildSummary :=
  let summary :=
    fold_left (fun s child => walkForSummary doc child s)
              (Tree.children node) emptySummary in
  (* Deduplicate called functions *)
  {| Types.callCount := Types.callCount summary;
     Types.conditionCount := Types.conditionCount summary;
     Types.loopCount := Types.loopCount summary;
     Types.returnCount := Types.returnCount summary;
     Types.calledFunctions := uniqueFrom [] (Types.calledFunctions summary) |}.

Definition classifyNode (node : SyntaxNode) (lang : jsstring)
  : option FileNodeKind :=
  let name := Tree.name node in
  if includes (rowOf funcNodes lang) name then Some Kfunction
  else if includes (rowOf classNodes lang) name then Some Kclass
  else if includes (rowOf importNodes lang) name then Some Kimport
  else if includes (rowOf exportNodes lang) name then Some Kexport
  else if includes (rowOf typeNodes lang) name then Some Ktype
  else if includes (rowOf varNodes lang) name then Some Kvariable
  else if includes controlNodes name then Some Kcontrol
  else None.

Definition isExported (at_ : Place) : bool :=
  (* JS: export declaration wraps the child *)
  match Tree.parent at_ with
  | Some p => eqb p (lit "ExportDeclaration")
  | None => false
  end
  ||
  (* Check for export keyword in the node text *)
  match Tree.prevSibling at_ with
  | Some p => eqb p (lit "export")
  | None => false
  end.

Definition isAsync (doc : Text) (node : SyntaxNode) : bool :=
  startsWith (trimStart (headText doc 20 node)) (lit "async").

Definition keywords : list jsstring :=
  lits ["const"; "let"; "var"; "function"; "class"; "interface"; "type";
           "enum"; "struct"; "trait"; "impl"; "fn"; "use"; "import"; "from";
           "pub"; "mod"]%string.

(** [(const|let|...|mod)\b] at the start of [s]. *)
Definition keywordAt (s : jsstring) : option jsstring :=
  find (fun k => startsWith s k
                 && match drop (length k) s with
                    | c :: _ => negb (is_word c)
                    | [] => true
                    end) keywords.

(** [word\s+] at the start of [s]: what follows it. *)
Definition afterWord (word : string) (s : jsstring) : option jsstring :=
  if startsWith s (lit word) then
    match drop (length (lit word)) s with
    | c :: r => if is_ws c then Some (dropWhile is_ws r) else None
    | [] => None
    end
  else None.

(** [(word\s+)?rest]: with the optional group first, without it next. *)
Definition optionally {A} (word : string) (rest : jsstring -> option A)
  (s : jsstring) : option A :=
  match afterWord word s with
  | Some r => rest r <|> rest s
  | None => rest s
  end.

(** Group 3 of
    [/^(export\s+)?(async\s+)?(const|let|var|...|pub|mod)\b/]. *)
Definition keywordMatch (s : jsstring) : option jsstring :=
  optionally "export" (optionally "async" keywordAt) s.

Definition extractKeyword (doc : Text) (node : SyntaxNode) : jsstring :=
  default (Tree.name node) (keywordMatch (headText doc 30 node)).

Definition isBodied (kind : FileNodeKind) : bool :=
  match kind with Kfunction | Kclass => true | _ => false end.

Fixpoint buildFileNode (doc : Text) (lang : jsstring) (at_ : Place)
  (node : SyntaxNode) {struct node} : option FileNode :=
  match node with
  | Node _ _ _ kids =>
      match classifyNode node lang with
      | None => None
      | Some kind =>
          let name := extractName doc lang node in
          let params :=
            if decide (kind = Kfunction) then extractParams doc node else [] in
          let returnType :=
            if decide (kind = Kfunction) then extractReturnType doc node
            else None in
          let childSummary :=
            if isBodied kind then buildChildSummary doc node
            else emptySummary in
          (* Recursively extract children for function/class bodies: for
             each child, what its own children build to; the body is then
             picked by tag. *)
          let built :=
            map (fun body =>
                   (Tree.name body,
                    (fix each (prev : option jsstring)
                         (cs : list SyntaxNode) {struct cs} : list FileNode :=
                       match cs with
                       | [] => []
                       | child :: rest =>
                           let here :=
                             {| Tree.parent := Some (Tree.name body);
                                Tree.prevSibling := prev |} in
                           match buildFileNode doc lang here child with
                           | Some childNode =>
                               childNode :: each (Some (Tree.name child)) rest
                           | None => each (Some (Tree.name child)) rest
                           end
                       end) None (Tree.children body))) kids in
          let children :=
            if isBodied kind then
              default [] (firstNamed (lit "Block") built
                          <|> firstNamed (lit "Body") built
                          <|> firstNamed (lit "ClassBody") built
                          <|> firstNamed (lit "DeclarationList") built)
            else [] in
          Some (mkFileNode kind name params returnType (isAsync doc node)
                           (isExported at_) (extractKeyword doc node)
                           (Tree.from node) (Tree.to node) children
                           childSummary)
      end
  end.

Definition route (fileNode : FileNode) (structure : FileStructure)
  : FileStructure :=
  match Types.kind fileNode with
  | Kimport => Types.pushImport fileNode structure
  | Kexport => Types.pushExport fileNode structure
  | _ => Types.pushDeclaration fileNode structure
  end.

(** What the loop over the children of an [ExportDeclaration] does with a
    child that was built. *)
Definition addExported (fileNode : FileNode) (structure : FileStructure)
  : FileStructure :=
  let fileNode := Types.withExported true fileNode in
  let structure :=
    if decide (Types.kind fileNode = Kimport)
    then Types.pushImport fileNode structure
    else Types.pushDeclaration fileNode structure in
  Types.pushExport (Types.withKind Kexport fileNode) structure.

(** The loop over the children of an [ExportDeclaration]. *)
Fixpoint walkExported (doc : Text) (lang : jsstring) (wrapper : jsstring)
  (prev : option jsstring) (inners : list SyntaxNode)
  (structure : FileStructure) : FileStructure :=
  match inners with
  | [] => structure
  | inner :: rest =>
      let here := {| Tree.parent := Some wrapper; Tree.prevSibling := prev |} in
      let structure :=
        match buildFileNode doc lang here inner with
        | Some fileNode => addExported fileNode structure
        | None => structure
        end in
      walkExported doc lang wrapper (Some (Tree.name inner)) rest structure
  end.

(** One turn of the loop of [walkJsNodes]. *)
Definition walkJsNode (doc : Text) (lang : jsstring) (at_ : Place)
  (node : SyntaxNode) (structure : FileStructure) : FileStructure :=
  if eqb (Tree.name node) (lit "ExportDeclaration") then
    let structure :=
      walkExported doc lang (Tree.name node) None (Tree.children node)
                   structure in
    if match Tree.firstChild node with
       | None => true
       | Some first => bool_decide (classifyNode first lang = None)
       end
    then
      match buildFileNode doc lang at_ node with
      | Some exportNode => Types.pushExport exportNode structure
      | None => structure
      end
    else structure
  else
    match buildFileNode doc lang at_ node with
    | Some fileNode => route fileNode structure
    | None => structure
    end.

(** Walk JS nodes and add them to the structure: [node] and its following
    siblings, under the parent tag [parent]. *)
Fixpoint walkJsNodes (doc : Text) (lang : jsstring)
  (parent prev : option jsstring) (nodes : list SyntaxNode)
  (structure : FileStructure) : FileStructure :=
  match nodes with
  | [] => structure
  | node :: rest =>
      let here := {| Tree.parent := parent; Tree.prevSibling := prev |} in
      walkJsNodes doc lang parent (Some (Tree.name node)) rest
                  (walkJsNode doc lang here node structure)
  end.

(** [extractFileStructure] for the languages other than Svelte. *)
Definition extractFileStructure (doc : Text) (lang : jsstring)
  (topNode : SyntaxNode) : FileStructure :=
  walkJsNodes doc lang (Some (Tree.name topNode)) None
              (Tree.children topNode)
              {| Types.imports := []; Types.exports := [];
                 Types.declarations := []; Types.language := lang |}.

End Extractor.

(* ================================================================== *)
(** ** book-structure.ts: the outline and the id index *)
(* ================================================================== *)

Module Outline.

Record NodeEntry := { fileNode : FileNode; code : jsstring; depth : nat }.

(** What [buildOutline] updates while it walks: the counter behind
    [getId], the outline lines and the id index. *)
Record Walk := {
  nextId : nat;
  lines : list jsstring;
  nodeMap : gmap nat NodeEntry }.

(** 1 plus the number of line feeds before [offset]. *)
Definition lineNum (doc : jsstring) (offset : nat) : nat :=
  fold_left (fun line c => if (c =? 10)%N then S line else line)
            (take offset doc) 1.

(** [code.split("\n").slice(0, 2).join("\n")]. *)
Definition previewOf (code : jsstring) : jsstring :=
  join [10%N] (take 2 (split 10 code)).

(** ["  ".repeat(depth)]. *)
Definition indentOf (depth : nat) : jsstring :=
  concat (replicate depth (lit "  ")).

Definition linesRange (source : jsstring) (a b : nat) : jsstring :=
  lit " (lines " ++ ofNat (lineNum source a) ++ lit "-"
  ++ ofNat (lineNum source b) ++ lit ")".

Definition labelOf (node : FileNode) : jsstring :=
  if decide (Types.kind node = Kfunction)
  then Types.keyword node ++ lit " " ++ Types.name node ++ lit "("
       ++ join (lit ", ") (map Types.pname (Types.params node)) ++ lit ")"
  else Types.keyword node ++ lit " " ++ Types.name node.

Fixpoint walkNode (source : jsstring) (node : FileNode) (depth : nat)
  (w : Walk) {struct node} : Walk :=
  let id := nextId w in
  let code := slice source (Types.from node) (Types.to node) in
  let preview := previewOf code in
  let indent := indentOf depth in
  let w :=
    {| nextId := S id;
       nodeMap :=
         <[id := {| fileNode := node; code := code; depth := depth |}]>
           (nodeMap w);
       lines :=
         lines w
         ++ [indent ++ labelOf node
                    ++ linesRange source (Types.from node) (Types.to node);
             indent ++ lit "  " ++ preview] |} in
  fold_left (fun w child => walkNode source child (depth + 1) w)
            (Types.children node) w.

(** [Math.min(...xs)] and [Math.max(...xs)] of a non-empty array. *)
Definition minOf (xs : list nat) : nat :=
  match xs with x :: rest => fold_left Nat.min rest x | [] => 0 end.
Definition maxOf (xs : list nat) : nat :=
  match xs with x :: rest => fold_left Nat.max rest x | [] => 0 end.

Definition syntheticNode (imports : list FileNode) : FileNode :=
  let names := join (lit ", ") (map Types.name imports) in
  mkFileNode Kimport (ellipsis 60 names) [] None false false (lit "import")
             (minOf (map Types.from imports)) (maxOf (map Types.to imports))
             [] Extractor.emptySummary.

(** Group imports into a single node if there are any. *)
Definition groupImports (imports : list FileNode) (doc : jsstring)
  (w : Walk) : Walk :=
  match imports with
  | [] => w
  | _ :: _ =>
      let firstFrom := minOf (map Types.from imports) in
      let lastTo := maxOf (map Types.to imports) in
      let code := slice doc firstFrom lastTo in
      let preview := previewOf code in
      let id := nextId w in
      {| nextId := S id;
         nodeMap :=
           <[id := {| fileNode := syntheticNode imports; code := code;
                      depth := 0 |}]> (nodeMap w);
         lines :=
           lines w ++ [lit "imports" ++ linesRange doc firstFrom lastTo;
                       lit "  " ++ preview] |}
  end.

Record Built := { outline : jsstring; index : gmap nat NodeEntry }.

Definition buildWalk (structure : FileStructure) (doc : jsstring) : Walk :=
  let w := {| nextId := 1; lines := []; nodeMap := ∅ |} in
  let w := groupImports (Types.imports structure) doc w in
  (* Walk declarations (top-level) *)
  fold_left (fun w decl => walkNode doc decl 0 w)
            (Types.declarations structure) w.

Definition buildOutline (structure : FileStructure) (doc : jsstring) : Built :=
  let w := buildWalk structure doc in
  {| outline := join [10%N] (lines w); index := nodeMap w |}.

End Outline.

(* ================================================================== *)
(** ** prose-provider.ts: captions without a network *)
(* ================================================================== *)

Module Prose.

(** [name.replace(/([a-z])([A-Z])/g, "$1 $2")]: the scan goes left to
    right; a match consumes both letters and the search resumes after
    them. *)
Fixpoint splitCamel (s : jsstring) : jsstring :=
  match s with
  | a :: ((b :: rest) as tl) =>
      if is_lower a && is_upper b then a :: 32%N :: b :: splitCamel rest
      else a :: splitCamel tl
  | _ => s
  end.

(** loginUser -> "login User", is_valid -> "is valid" *)
Definition humanizeName (name : jsstring) : jsstring :=
  (* Split camelCase *)
  let result := splitCamel name in
  (* Split snake_case *)
  let result := replaceAll 95 32 result in
  (* Split kebab-case *)
  let result := replaceAll 45 32 result in
  trim result.

Definition plural (n : nat) (word : jsstring) : jsstring :=
  if Nat.eqb n 1 then ofNat n ++ lit " " ++ word
  else ofNat n ++ lit " " ++ word ++ lit "s".

Definition kindLabel (kind : FileNodeKind) : jsstring :=
  lit match kind with
      | Kfunction => "function"
      | Kclass => "class"
      | Kvariable => "variable"
      | Kimport => "import"
      | Kexport => "export"
      | Kcontrol => "control structure"
      | Ktype => "type definition"
      end.

(** A [Map<string, FileNode[]>] in insertion order. *)
Definition Groups := list (FileNodeKind * list FileNode).

Fixpoint addToGroup (node : FileNode) (groups : Groups) : Groups :=
  match groups with
  | [] => [(Types.kind node, [node])]
  | (k, list) :: rest =>
      if decide (k = Types.kind node) then (k, list ++ [node]) :: rest
      else (k, list) :: addToGroup node rest
  end.

Definition groupByKind (nodes : list FileNode) : Groups :=
  fold_left (fun groups node => addToGroup node groups) nodes [].

Definition fileSummary (structure : FileStructure) : jsstring :=
  (* Count declarations by kind *)
  let kindGroups := groupByKind (Types.declarations structure) in
  let kindParts :=
    map (fun '(kind, nodes) =>
           let names :=
             filter (fun n => length n < 40)
                    (map (fun n => humanizeName (Types.name n)) nodes) in
           if length names <=? 4
           then plural (length nodes) (kindLabel kind) ++ lit " ("
                ++ join (lit ", ") names ++ lit ")"
           else plural (length nodes) (kindLabel kind))
        kindGroups in
  let parts :=
    (if 0 <? length kindParts
     then [lit "This file defines " ++ join (lit " and ") kindParts]
     else [])
    ++
    (if 0 <? length (Types.imports structure)
     then [lit "imports from "
           ++ plural (length (Types.imports structure)) (lit "module")]
     else []) in
  if Nat.eqb (length parts) 0
  then lit "This file is empty or contains no recognizable constructs."
  else join (lit " and ") parts ++ lit ".".

Record Explanation := { summary : jsstring; detail : jsstring }.

Definition describeParam (p : Param) : jsstring :=
  match Types.ptype p with
  | Some ty => if truthy ty then Types.pname p ++ lit " (" ++ ty ++ lit ")"
               else Types.pname p
  | None => Types.pname p
  end.

(** [kw.replace(/^\{#/, "").replace(/\}$/, "")]. *)
Definition blockTypeOf (kw : jsstring) : jsstring :=
  let s := if startsWith kw (lit "{#") then drop 2 kw else kw in
  match last s with
  | Some 125%N => take (length s - 1) s
  | _ => s
  end.

(** The canned descriptions of the Svelte blocks. *)
Definition descriptions (blockType : jsstring) : option jsstring :=
  if eqb blockType (lit "if")
  then Some (lit "Conditionally shows content based on a value.")
  else if eqb blockType (lit "each")
  then Some (lit "Repeats content for each item in a list.")
  else if eqb blockType (lit "await")
  then Some (lit "Shows different content while waiting for a result, then when it arrives.")
  else if eqb blockType (lit "key")
  then Some (lit "Re-creates content whenever a value changes.")
  else None.

Definition blockExplanation (node : FileNode) : Explanation :=
  let name := humanizeName (Types.name node) in
  let childSummary := Types.childSummary node in
  match Types.kind node with
  | Kfunction =>
      (* the "async " prefix added first is overwritten by this assignment *)
      let summary :=
        name ++ lit " is "
             ++ (if Types.isAsync node then lit "an async " else lit "a ")
             ++ lit "function" in
      let summary :=
        if 0 <? length (Types.params node)
        then summary ++ lit " that takes "
                     ++ join (lit ", ") (map describeParam (Types.params node))
        else summary in
      let summary :=
        match Types.returnType node with
        | Some ty => if truthy ty then summary ++ lit " and returns " ++ ty
                     else summary
        | None => summary
        end in
      let summary := summary ++ lit "." in
      (* Build detail from child summary *)
      let called := Types.calledFunctions childSummary in
      let detailParts :=
        (if 0 <? length called
         then [lit "calls " ++ join (lit ", ") (take 5 called)
               ++ (if 5 <? length called then lit " and more" else [])]
         else [])
        ++ (if 0 <? Types.conditionCount childSummary
            then [lit "checks "
                  ++ plural (Types.conditionCount childSummary) (lit "condition")]
            else [])
        ++ (if 0 <? Types.loopCount childSummary
            then [lit "uses " ++ plural (Types.loopCount childSummary) (lit "loop")]
            else [])
        ++ (if 0 <? Types.returnCount childSummary
            then [lit "returns "
                  ++ plural (Types.returnCount childSummary) (lit "value")]
            else []) in
      let detail :=
        if 0 <? length detailParts
        then lit "Inside, it " ++ join (lit ", ") detailParts ++ lit "."
        else [] in
      {| summary := summary; detail := detail |}
  | Kclass =>
      let summary :=
        name ++ lit " is a "
             ++ (if eqb (Types.keyword node) (lit "trait") then lit "trait"
                 else if eqb (Types.keyword node) (lit "struct") then lit "struct"
                 else lit "class") in
      let summary :=
        if 0 <? length (Types.children node) then
          let methods :=
            filter (fun c => Types.kind c = Kfunction) (Types.children node) in
          let props :=
            filter (fun c => Types.kind c = Kvariable) (Types.children node) in
          let parts :=
            (if 0 <? length methods
             then [plural (length methods) (lit "method") ++ lit " ("
                   ++ join (lit ", ")
                        (take 5 (map (fun m => humanizeName (Types.name m))
                                     methods))
                   ++ (if 5 <? length methods then lit ", ..." else [])
                   ++ lit ")"]
             else [])
            ++ (if 0 <? length props
                then [plural (length props) (lit "property")]
                else []) in
          if 0 <? length parts
          then summary ++ lit " with " ++ join (lit " and ") parts
          else summary
        else summary in
      {| summary := summary ++ lit "."; detail := [] |}
  | Kvariable =>
      if eqb (Types.keyword node) (lit "component")
      then {| summary := lit "Uses the " ++ name ++ lit " component.";
              detail := [] |}
      else
        let kw :=
          if eqb (Types.keyword node) (lit "const") then lit "constant"
          else if eqb (Types.keyword node) (lit "let") then lit "variable"
          else lit "value" in
        let summary := name ++ lit " is a " ++ kw in
        let summary :=
          if Types.isExported node then summary ++ lit " (exported)"
          else summary in
        {| summary := summary ++ lit "."; detail := [] |}
  | Ktype =>
      let typeKind :=
        if eqb (Types.keyword node) (lit "interface") then lit "interface"
        else if eqb (Types.keyword node) (lit "enum") then lit "enum"
        else lit "type alias" in
      {| summary :=
           name ++ lit " is "
                ++ (if eqb typeKind (lit "enum") then lit "an" else lit "a")
                ++ lit " " ++ typeKind ++ lit ".";
         detail := [] |}
  | Kcontrol =>
      (* Svelte template blocks get friendlier descriptions *)
      let kw := Types.keyword node in
      if startsWith kw (lit "{#") then
        let blockType := blockTypeOf kw in
        {| summary :=
             name ++ [32%N; 8212%N; 32%N]
                  ++ default (lit "A Svelte " ++ blockType ++ lit " block.")
                             (descriptions blockType);
           detail := [] |}
      else {| summary := lit "A control structure (" ++ kw ++ lit ").";
              detail := [] |}
  | _ =>
      {| summary := name ++ lit " (" ++ Types.kindName (Types.kind node)
                         ++ lit ").";
         detail := [] |}
  end.

End Prose.

(* ================================================================== *)
(** ** concepts.ts and concept-panel.ts: concept instances *)
(* ================================================================== *)

Module Concepts.

Definition categories : list (jsstring * list jsstring) :=
  [(lit "declaration",
    lits ["VariableDeclaration"; "FunctionDeclaration"; "ClassDeclaration";
          "TypeAliasDeclaration"; "InterfaceDeclaration"; "EnumDeclaration";
          "FunctionDefinition"; "ClassDefinition";
          "LetDeclaration"; "FunctionItem"; "StructItem"; "EnumItem";
          "TraitItem"; "ImplItem"; "TypeItem"; "ConstItem"; "StaticItem";
          "UnionItem"; "ModItem"]%string);
   (lit "import-export",
    lits ["ImportDeclaration"; "ExportDeclaration"; "ImportStatement";
          "UseDeclaration"; "ExternCrateDeclaration"]%string);
   (lit "control-flow",
    lits ["IfStatement"; "ForStatement"; "WhileStatement"; "DoStatement";
          "SwitchStatement"; "TryStatement";
          "IfExpression"; "MatchExpression"; "WhileExpression";
          "ForExpression"; "LoopExpression"]%string);
   (lit "control-jump",
    lits ["ReturnStatement"; "ThrowStatement"; "BreakStatement";
          "ContinueStatement"; "RaiseStatement";
          "ReturnExpression"; "BreakExpression"; "ContinueExpression"]%string);
   (lit "invocation",
    lits ["CallExpression"; "NewExpression"; "TaggedTemplateExpression";
          "MacroInvocation"]%string);
   (lit "data-literal",
    lits ["String"; "Number"; "BooleanLiteral"; "RegExp"; "TemplateString";
          "ArrayExpression"; "ObjectExpression";
          "RawString"; "Char"; "Integer"; "Float"; "Boolean";
          "TupleExpression"]%string);
   (lit "parameter",
    lits ["ParamList"; "ArrayPattern"; "ObjectPattern"]%string);
   (lit "async",
    lits ["AwaitExpression"; "YieldExpression"; "AsyncBlock"]%string);
   (lit "jsx",
    lits ["JSXElement"; "JSXSelfClosingTag"]%string)].

(** [conceptMap[name]]: the table is filled category by category, a later
    assignment to the same tag replacing an earlier one. *)
Definition conceptMap (name : jsstring) : option jsstring :=
  fold_left (fun found '(category, nodeNames) =>
               if includes nodeNames name then Some category else found)
            categories None.

Record ConceptInstance := {
  category : jsstring;
  nodeName : jsstring;
  from : nat;
  to : nat;
  text : jsstring;
  line : nat }.

(** [tree.iterate({ enter })] with the visitor of [extractConcepts]: a node
    with a category is recorded and its children are skipped ([return
    false]); any other node is entered. *)
Fixpoint iterate (doc : Text) (node : SyntaxNode) {struct node}
  : list ConceptInstance :=
  match node with
  | Node name from to kids =>
      match conceptMap name with
      | Some category =>
          if truthy category then
            [{| category := category; nodeName := name;
                from := from; to := to;
                text := Tree.sliceString doc from to;
                line := Tree.lineNumberAt doc from |}]
          else flat_map (iterate doc) kids
      | None => flat_map (iterate doc) kids
      end
  end.

(** Extract all concept instances from the full syntax tree. *)
Definition extractConcepts (doc : Text) (topNode : SyntaxNode)
  : list ConceptInstance :=
  iterate doc topNode.

End Concepts.

(* ================================================================== *)
(** ** ai-prose.ts: the cached description request *)
(* ================================================================== *)

Module AiProse.

(** The argument and the answer of [window.ai.describe]. *)
Record DescribeOpts := {
  filename : jsstring;
  fileContent : jsstring;
  projectFiles : list jsstring;
  outline : jsstring }.

Record Answer := { answerText : option jsstring; answerError : option jsstring }.

(** What [describeFile] resolves to. *)
Record Described := {
  text : option jsstring;
  error : option jsstring;
  truncated : option bool }.

Definition CACHE_VERSION : jsstring := lit "v5-prose".

Definition MAX_CONTENT_SIZE : nat := 30000.

(** [b.toString(16).padStart(2, "0")] for a byte. *)
Definition hexDigit (d : N) : N := (if d <? 10 then 48 + d else 87 + d)%N.
Definition hexByte (b : N) : jsstring :=
  [hexDigit (b / 16); hexDigit (b mod 16)]%N.

Section Environment.

(** The SHA-256 digest of the UTF-8 encoding of a string, as bytes
    ([TextEncoder] and [crypto.subtle]). *)
Variable digest : jsstring -> list N.

(** The external description service: its state, and how it answers a
    request. *)
Variable Service : Type.
Variable describe : DescribeOpts -> Service -> Answer * Service.

(** The module-level [cache], the service, and the requests the service
    has received so far. *)
Record World := {
  cache : gmap jsstring jsstring;
  service : Service;
  received : list DescribeOpts }.

(** Computations that read and update the world, one after the other. *)
Definition M (A : Type) : Type := World -> A * World.

Definition ret {A} (a : A) : M A := fun w => (a, w).

Definition bind {A B} (m : M A) (k : A -> M B) : M B :=
  fun w => let '(a, w') := m w in k a w'.

Notation "'let*' x := m 'in' k" := (bind m (fun x => k))
  (at level 10, x name, m at level 100, k at level 200).

Definition cacheGet (key : jsstring) : M (option jsstring) :=
  fun w => (cache w !! key, w).

Definition cacheSet (key value : jsstring) : M unit :=
  fun w => (tt, {| cache := <[key := value]> (cache w);
                   service := service w;
                   received := received w |}).

(** [await window.ai.describe(opts)]. *)
Definition aiDescribe (opts : DescribeOpts) : M Answer :=
  fun w => let '(answer, s) := describe opts (service w) in
           (answer, {| cache := cache w; service := s;
                       received := received w ++ [opts] |}).

Definition hashKey (filename content : jsstring) : jsstring :=
  let data := CACHE_VERSION ++ [0%N] ++ filename ++ [0%N] ++ content in
  concat (map hexByte (digest data)).

(** What a call of [describeFile] holds while it waits at
    [await window.ai.describe(...)]: its [key], its [truncated] flag, and
    the [result] that the service gives to its request. *)
Record Waiting := {
  waitingKey : jsstring;
  waitingTruncated : bool;
  waitingResult : Answer }.

(** [describeFile] up to [await window.ai.describe(...)].  The first await,
    of [hashKey], reads and writes nothing, and the key depends on the
    arguments only; from there the cache is looked up and, on a miss, the
    request is sent, with nothing else running in between. *)
Definition ask (filename content : jsstring)
  (projectFiles : list jsstring) (outline : jsstring)
  : M (Described + Waiting) :=
  let key := hashKey filename content in
  let* cached := cacheGet key in
  if otruthy cached
  then ret (inl {| text := cached; error := None; truncated := None |})
  else
    let truncate := MAX_CONTENT_SIZE <? length content in
    let fileContent :=
      if truncate then slice content 0 MAX_CONTENT_SIZE else content in
    let* result := aiDescribe {| filename := filename;
                                 fileContent := fileContent;
                                 projectFiles := projectFiles;
                                 outline := outline |} in
    ret (inr {| waitingKey := key; waitingTruncated := truncate;
                waitingResult := result |}).

(** [describeFile] from the moment the answer of the service is there. *)
Definition settle (waiting : Waiting) : M Described :=
  let result := waitingResult waiting in
  let* _ := match answerText result with
            | Some t => if truthy t then cacheSet (waitingKey waiting) t
                        else ret tt
            | None => ret tt
            end in
  ret {| text := answerText result; error := answerError result;
         truncated := Some (waitingTruncated waiting) |}.

(** A call of [describeFile] during which no other call runs: the two parts
    one after the other.  Calls that overlap are interleavings of [ask] and
    [settle]. *)
Definition describeFile (filename content : jsstring)
  (projectFiles : list jsstring) (outline : jsstring) : M Described :=
  let* step := ask filename content projectFiles outline in
  match step with
  | inl result => ret result
  | inr waiting => settle waiting
  end.

End Environment.

Arguments cache {Service} _.
Arguments service {Service} _.
Arguments received {Service} _.
Arguments Build_World {Service} _ _ _.

End AiProse.

(* ================================================================== *)
(** * Vocabulary of the properties, and examples *)
(* ================================================================== *)

(* ------------------------------------------------------------------ *)
(** ** Names *)
(* ------------------------------------------------------------------ *)

(** The string does not start with a character of the class [p]. *)
Definition startsClean (p : N -> bool) (s : jsstring) : Prop :=
  match s with c :: _ => p c = false | [] => True end.

(** No lower-case letter is directly followed by an upper-case one. *)
Fixpoint noCamel (s : jsstring) : bool :=
  match s with
  | a :: ((b :: _) as tl) => negb (is_lower a && is_upper b) && noCamel tl
  | _ => true
  end.

(** What a humanized name looks like. *)
Record Humanized (s : jsstring) : Prop := {
  humanized_camel : noCamel s = true;
  humanized_snake : Forall (fun x => x <> 95%N) s;
  humanized_kebab : Forall (fun x => x <> 45%N) s;
  humanized_trim : trim s = s }.

(* ------------------------------------------------------------------ *)
(** ** Captions and empty input *)
(* ------------------------------------------------------------------ *)

Definition emptyStructure (language : jsstring) : FileStructure :=
  {| Types.imports := []; Types.exports := []; Types.declarations := [];
     Types.language := language |}.

(* ------------------------------------------------------------------ *)
(** ** The description cache *)
(* ------------------------------------------------------------------ *)

(** What is sent to the service for [content]. *)
Definition sentContent (content : jsstring) : jsstring :=
  if AiProse.MAX_CONTENT_SIZE <? length content
  then slice content 0 AiProse.MAX_CONTENT_SIZE else content.

Definition request (filename content : jsstring)
  (projectFiles : list jsstring) (outline : jsstring) : AiProse.DescribeOpts :=
  {| AiProse.filename := filename; AiProse.fileContent := sentContent content;
     AiProse.projectFiles := projectFiles; AiProse.outline := outline |}.

(** The call is not answered from the cache. *)
Definition misses (digest : jsstring -> list N) {Service : Type}
  (filename content : jsstring) (w : AiProse.World Service) : Prop :=
  otruthy (AiProse.cache w !! AiProse.hashKey digest filename content) = false.

(** The cache after a request was answered with [answer]. *)
Definition remember (key : jsstring) (answer : AiProse.Answer)
  (c : gmap jsstring jsstring) : gmap jsstring jsstring :=
  match AiProse.answerText answer with
  | Some t => if truthy t then <[key := t]> c else c
  | None => c
  end.

(** A concrete environment: a stand-in digest, a service that always answers
    with the same text, one that always fails, one that answers with an
    empty text, and one that numbers its answers. *)
Module DescribeFileExample.

Import AiProse.

Definition checksum (data : jsstring) : list N :=
  [N.of_nat (length data) mod 256; fold_left N.add data 0 mod 256]%N.

Definition answering : DescribeOpts -> unit -> Answer * unit :=
  fun _ s => ({| answerText := Some (lit "A small module.");
                 answerError := None |}, s).

Definition failing : DescribeOpts -> unit -> Answer * unit :=
  fun _ s => ({| answerText := None;
                 answerError := Some (lit "network error") |}, s).

Definition silent : DescribeOpts -> unit -> Answer * unit :=
  fun _ s => ({| answerText := Some []; answerError := None |}, s).

Definition numbering : DescribeOpts -> nat -> Answer * nat :=
  fun _ n => ({| answerText := Some (lit "Answer " ++ ofNat n);
                 answerError := None |}, S n).

Definition fresh : World unit :=
  {| cache := ∅; service := tt; received := [] |}.

(** 30,001 characters. *)
Definition longContent : jsstring := replicate (S MAX_CONTENT_SIZE) 97%N.

Abbreviation call describe content :=
  (describeFile checksum unit describe (lit "big.ts") content [] []).

(** The two parts of such a call. *)
Abbreviation asks describe content :=
  (ask checksum unit describe (lit "big.ts") content [] []).

Abbreviation settles waiting := (settle unit waiting).

End DescribeFileExample.

Import DescribeFileExample.

(* ------------------------------------------------------------------ *)
(** ** The outline *)
(* ------------------------------------------------------------------ *)

(** A declaration, then its children from left to right, each followed by
    its own descendants. *)
Fixpoint preorder (node : FileNode) : list FileNode :=
  node :: flat_map preorder (Types.children node).

(** Every node [buildOutline] visits, in the order of the visits. *)
Definition visitOrder (structure : FileStructure) : list FileNode :=
  match Types.imports structure with
  | [] => []
  | _ :: _ => [Outline.syntheticNode (Types.imports structure)]
  end ++ flat_map preorder (Types.declarations structure).

(** The ids handed out so far are 1, 2, ... in the order of [seen], and the
    counter stands at the next one. *)
Record Numbered (w : Outline.Walk) (seen : list FileNode) : Prop := {
  numbered_next : Outline.nextId w = S (length seen);
  numbered_zero : Outline.nodeMap w !! 0 = None;
  numbered_ids : forall i,
    Outline.fileNode <$> Outline.nodeMap w !! S i = seen !! i }.

(* ------------------------------------------------------------------ *)
(** ** The child summary *)
(* ------------------------------------------------------------------ *)

(** The tree with the inside of every function-like node removed. *)
Fixpoint hideNested (node : SyntaxNode) : SyntaxNode :=
  match node with
  | Node name from to kids =>
      Node name from to
           (if includes Extractor.skip name then [] else map hideNested kids)
  end.

(** The example [function outer() { function inner() { bar(); } foo(); }]
    and its parse tree. *)
Module ScopeExample.

Definition source : jsstring :=
  lit "function outer() { function inner() { bar(); } foo(); }".

(** A statement [xyz();] at offset [from]. *)
Definition call (from : nat) : SyntaxNode :=
  Node (lit "ExpressionStatement") from (from + 6)
    [Node (lit "CallExpression") from (from + 5)
       [Node (lit "VariableName") from (from + 3) [];
        Node (lit "ArgList") (from + 3) (from + 5)
          [Node (lit "(") (from + 3) (from + 4) [];
           Node (lit ")") (from + 4) (from + 5) []]];
     Node (lit ";") (from + 5) (from + 6) []].

Definition inner : SyntaxNode :=
  Node (lit "FunctionDeclaration") 19 46
    [Node (lit "function") 19 27 [];
     Node (lit "VariableDefinition") 28 33 [];
     Node (lit "ParamList") 33 35
       [Node (lit "(") 33 34 []; Node (lit ")") 34 35 []];
     Node (lit "Block") 36 46
       [Node (lit "{") 36 37 [];
        call 38;
        Node (lit "}") 45 46 []]].

Definition outer : SyntaxNode :=
  Node (lit "FunctionDeclaration") 0 55
    [Node (lit "function") 0 8 [];
     Node (lit "VariableDefinition") 9 14 [];
     Node (lit "ParamList") 14 16
       [Node (lit "(") 14 15 []; Node (lit ")") 15 16 []];
     Node (lit "Block") 17 55
       [Node (lit "{") 17 18 [];
        inner;
        call 47;
        Node (lit "}") 54 55 []]].

Definition script : SyntaxNode := Node (lit "Script") 0 55 [outer].

Definition structure : FileStructure :=
  Extractor.extractFileStructure (Tree.document source) (lit "js") script.

Definition summaryOf (calls : nat) (names : list jsstring) : ChildSummary :=
  {| Types.callCount := calls; Types.conditionCount := 0;
     Types.loopCount := 0; Types.returnCount := 0;
     Types.calledFunctions := names |}.

End ScopeExample.

(* ------------------------------------------------------------------ *)
(** ** Concept instances *)
(* ------------------------------------------------------------------ *)

(** The children of a parse node lie inside it, in order, one after the
    other: [lo <= from_1 <= to_1 <= from_2 <= ... <= to_n <= hi]. *)
Fixpoint inOrder (lo hi : nat) (kids : list SyntaxNode) : bool :=
  match kids with
  | [] => lo <=? hi
  | kid :: rest =>
      (lo <=? Tree.from kid) && (Tree.from kid <=? Tree.to kid)
      && inOrder (Tree.to kid) hi rest
  end.

(** A well-formed parse tree: at every node the children are in order inside
    the node's span. *)
Fixpoint wellFormed (node : SyntaxNode) : bool :=
  match node with
  | Node _ from to kids => inOrder from to kids && forallb wellFormed kids
  end.

Definition span := Concepts.ConceptInstance.

Definition disjoint (a b : span) : Prop :=
  Concepts.to a <= Concepts.from b \/ Concepts.to b <= Concepts.from a.

(** [b] lies inside [a] and is not the same span. *)
Definition strictlyInside (a b : span) : Prop :=
  Concepts.from a <= Concepts.from b /\ Concepts.to b <= Concepts.to a
  /\ (Concepts.from a < Concepts.from b \/ Concepts.to b < Concepts.to a).

(** Each of the two spans has a part the other does not cover, and they
    share a part. *)
Definition partiallyOverlap (a b : span) : Prop :=
  (Concepts.from a < Concepts.from b /\ Concepts.from b < Concepts.to a
   /\ Concepts.to a < Concepts.to b)
  \/ (Concepts.from b < Concepts.from a /\ Concepts.from a < Concepts.to b
      /\ Concepts.to b < Concepts.to a).

(** The records lie between [lo] and [hi], one after the other. *)
Fixpoint lined (lo hi : nat) (l : list span) : Prop :=
  match l with
  | [] => lo <= hi
  | a :: rest =>
      lo <= Concepts.from a /\ Concepts.from a <= Concepts.to a
      /\ lined (Concepts.to a) hi rest
  end.

(** Two statements, [foo(); bar();], each holding a call. *)
Module ConceptExample.

Definition source : jsstring := lit "foo(); bar();".

Definition script : SyntaxNode :=
  Node (lit "Script") 0 13 [ScopeExample.call 0; ScopeExample.call 7].

End ConceptExample.

(* ------------------------------------------------------------------ *)
(** ** Export wrappers *)
(* ------------------------------------------------------------------ *)

(** The inner declaration built from a child of an export wrapper, marked as
    exported; [None] when the child is not classifiable. *)
Definition exported (doc : Text) (lang : jsstring) (inner : SyntaxNode)
  : option FileNode :=
  Types.withExported true
    <$> Extractor.buildFileNode doc lang
          {| Tree.parent := Some (lit "ExportDeclaration");
             Tree.prevSibling := None |} inner.

(** The inner declarations of a wrapper, in order. *)
Definition exportedInner (doc : Text) (lang : jsstring) (wrapper : SyntaxNode)
  : list FileNode :=
  omap (exported doc lang) (Tree.children wrapper).

Definition isImport (n : FileNode) : Prop := Types.kind n = Kimport.

Definition option_list {A} (o : option A) : list A :=
  match o with Some x => [x] | None => [] end.

(** The file [export function foo() {}] and its parse tree: the wrapper
    holds the [export] keyword and the function. *)
Module ExportExample.

Definition place : Place :=
  {| Tree.parent := Some (lit "Script"); Tree.prevSibling := None |}.

Definition functionSource : jsstring := lit "export function foo() {}".

Definition exportedFunction : SyntaxNode :=
  Node (lit "ExportDeclaration") 0 24
    [Node (lit "export") 0 6 [];
     Node (lit "FunctionDeclaration") 7 24
       [Node (lit "function") 7 15 [];
        Node (lit "VariableDefinition") 16 19 [];
        Node (lit "ParamList") 19 21
          [Node (lit "(") 19 20 []; Node (lit ")") 20 21 []];
        Node (lit "Block") 22 24
          [Node (lit "{") 22 23 []; Node (lit "}") 23 24 []]]].

(** The parse tree of the file. *)
Definition script : SyntaxNode := Node (lit "Script") 0 24 [exportedFunction].

(** Kind, name, [isExported] and start of each node of a list. *)
Definition brief (l : list FileNode)
  : list (FileNodeKind * jsstring * bool * nat) :=
  (fun n => (Types.kind n, Types.name n, Types.isExported n, Types.from n))
    <$> l.

End ExportExample.

(* ------------------------------------------------------------------ *)
(** ** The end-to-end example *)
(* ------------------------------------------------------------------ *)

(** A file with one import and one exported async function, and its parse
    tree in the shape the TypeScript parser gives it: the parameter list
    holds the parentheses, the name of the parameter and, next to it, its
    type annotation; the export wrapper starts with the [export] keyword. *)
Module EndToEnd.

Definition source : jsstring :=
  lit "import {a} from " ++ [34; 109; 34; 10]%N
  ++ lit "export async function foo(x: number): Promise<void> {" ++ [10%N]
  ++ lit "  for (const i of x) { bar(); baz(); }" ++ [10%N]
  ++ lit "}".

Definition importDeclaration : SyntaxNode :=
  Node (lit "ImportDeclaration") 0 19
    [Node (lit "import") 0 6 [];
     Node (lit "ImportGroup") 7 10
       [Node (lit "{") 7 8 [];
        Node (lit "VariableDefinition") 8 9 [];
        Node (lit "}") 9 10 []];
     Node (lit "from") 11 15 [];
     Node (lit "String") 16 19 []].

Definition loop : SyntaxNode :=
  Node (lit "ForStatement") 76 112
    [Node (lit "for") 76 79 [];
     Node (lit "ForOfSpec") 80 94
       [Node (lit "(") 80 81 [];
        Node (lit "const") 81 86 [];
        Node (lit "VariableDefinition") 87 88 [];
        Node (lit "of") 89 91 [];
        Node (lit "VariableName") 92 93 [];
        Node (lit ")") 93 94 []];
     Node (lit "Block") 95 112
       [Node (lit "{") 95 96 [];
        ScopeExample.call 97;
        ScopeExample.call 104;
        Node (lit "}") 111 112 []]].

Definition functionDeclaration : SyntaxNode :=
  Node (lit "FunctionDeclaration") 27 114
    [Node (lit "async") 27 32 [];
     Node (lit "function") 33 41 [];
     Node (lit "VariableDefinition") 42 45 [];
     Node (lit "ParamList") 45 56
       [Node (lit "(") 45 46 [];
        Node (lit "VariableDefinition") 46 47 [];
        Node (lit "TypeAnnotation") 47 55
          [Node (lit ":") 47 48 [];
           Node (lit "TypeName") 49 55 []];
        Node (lit ")") 55 56 []];
     Node (lit "TypeAnnotation") 56 71
       [Node (lit ":") 56 57 [];
        Node (lit "ParameterizedType") 58 71
          [Node (lit "TypeName") 58 65 [];
           Node (lit "TypeArgList") 65 71
             [Node (lit "<") 65 66 [];
              Node (lit "VoidType") 66 70 [Node (lit "void") 66 70 []];
              Node (lit ">") 70 71 []]]];
     Node (lit "Block") 72 114
       [Node (lit "{") 72 73 [];
        loop;
        Node (lit "}") 113 114 []]].

Definition exportDeclaration : SyntaxNode :=
  Node (lit "ExportDeclaration") 20 114
    [Node (lit "export") 20 26 []; functionDeclaration].

Definition script : SyntaxNode :=
  Node (lit "Script") 0 114 [importDeclaration; exportDeclaration].

(** What the extractor reports for the file; the language of a [.ts] file is
    [js]. *)
Definition structure : FileStructure :=
  Extractor.extractFileStructure (Tree.document source) (lit "js") script.

End EndToEnd.
(* ================================================================== *)
(** * Further parts of the program, and the vocabulary of their properties *)
(* ================================================================== *)

(* ------------------------------------------------------------------ *)
(** ** The extractor as the source writes it *)
(* ------------------------------------------------------------------ *)

(** The loop of [buildFileNode] over the children of a body: [child], then
    [child.nextSibling], ..., each built where it sits. *)
Fixpoint buildChildren (doc : Text) (lang : jsstring) (body : jsstring)
  (prev : option jsstring) (cs : list SyntaxNode) : list FileNode :=
  match cs with
  | [] => []
  | child :: rest =>
      let here := {| Tree.parent := Some body; Tree.prevSibling := prev |} in
      match Extractor.buildFileNode doc lang here child with
      | Some childNode =>
          childNode :: buildChildren doc lang body (Some (Tree.name child)) rest
      | None => buildChildren doc lang body (Some (Tree.name child)) rest
      end
  end.

(** [node.getChild("Block") || node.getChild("Body") ||
    node.getChild("ClassBody") || node.getChild("DeclarationList")]. *)
Definition bodyOf (node : SyntaxNode) : option SyntaxNode :=
  Extractor.getChildOf ["Block"; "Body"; "ClassBody"; "DeclarationList"]%string
                       node.

(** Every declaration of a built tree: the node, then its descendants. *)
Definition declarationsOf (node : FileNode) : list FileNode := preorder node.

(** The span of a declaration is well formed and holds the spans of its
    children, at every depth. *)
Fixpoint spansNested (node : FileNode) : bool :=
  (Types.from node <=? Types.to node)
  && forallb (fun child =>
                (Types.from node <=? Types.from child)
                && (Types.to child <=? Types.to node)
                && spansNested child)
             (Types.children node).

(** What only functions, or only functions and classes, carry. *)
Definition fieldsFitKind (node : FileNode) : Prop :=
  (Types.kind node <> Kfunction ->
   Types.params node = [] /\ Types.returnType node = None)
  /\ (Extractor.isBodied (Types.kind node) = false ->
      Types.children node = []
      /\ Types.childSummary node = Extractor.emptySummary).

(** The nodes the summary walk visits from [node]: the node, and what lies
    below it unless the node is function-like. *)
Fixpoint walked (node : SyntaxNode) : list SyntaxNode :=
  match node with
  | Node name _ _ kids =>
      node :: (if includes Extractor.skip name then []
               else flat_map walked kids)
  end.

(** The nodes visited for the summary of [node]. *)
Definition visitedFrom (node : SyntaxNode) : list SyntaxNode :=
  flat_map walked (Tree.children node).

(** How many nodes of a list carry a tag of the set [tags]. *)
Definition tagged (tags : list jsstring) (nodes : list SyntaxNode) : nat :=
  length (List.filter (fun n => includes tags (Tree.name n)) nodes).

(** The name a call node contributes to [calledFunctions], if any. *)
Definition calledBy (doc : Text) (node : SyntaxNode) : list jsstring :=
  Types.calledFunctions (Extractor.countNode doc node Extractor.emptySummary).

(** The tags counted as calls and as returns. *)
Definition callTags : list jsstring :=
  lits ["CallExpression"; "NewExpression"; "MacroInvocation"]%string.
Definition returnTags : list jsstring :=
  lits ["ReturnStatement"; "ReturnExpression"]%string.

(** [word] followed by at least one white-space character, or nothing. *)
Definition optionalWord (present : bool) (word : string) (space : jsstring)
  : jsstring :=
  if present then lit word ++ space else [].

(** A non-empty run of white space. *)
Definition blank (space : jsstring) : Prop :=
  space <> [] /\ Forall (fun c => is_ws c = true) space.

(** The three lists of a structure hold the kinds they are meant for. *)
Definition routed (structure : FileStructure) : Prop :=
  Forall (fun n => Types.kind n = Kimport) (Types.imports structure)
  /\ Forall (fun n => Types.kind n = Kexport) (Types.exports structure)
  /\ Forall (fun n => Types.kind n <> Kimport) (Types.declarations structure).

(** The grammar tags the tables list for a kind in a language. *)
Definition tagsOf (kind : FileNodeKind) (lang : jsstring) : list jsstring :=
  match kind with
  | Kfunction => Extractor.rowOf Extractor.funcNodes lang
  | Kclass => Extractor.rowOf Extractor.classNodes lang
  | Kimport => Extractor.rowOf Extractor.importNodes lang
  | Kexport => Extractor.rowOf Extractor.exportNodes lang
  | Ktype => Extractor.rowOf Extractor.typeNodes lang
  | Kvariable => Extractor.rowOf Extractor.varNodes lang
  | Kcontrol => Extractor.controlNodes
  end.

(** The languages that have a row of their own in the tables. *)
Definition tableLanguages : list jsstring := lits ["js"; "py"; "rs"]%string.

(** The children of the parameter list that are not punctuation. *)
Definition parameterNodes (node : SyntaxNode) : list SyntaxNode :=
  match Extractor.getChildOf ["ParamList"; "Parameters"; "TypeParamList"]%string
                             node with
  | Some paramList =>
      List.filter (fun child =>
                     negb (includes (lits ["("; ")"; ","; "..."]%string)
                                    (Tree.name child)))
                  (Tree.children paramList)
  | None => []
  end.

(** A property of every node of the three lists. *)
Definition every (P : FileNode -> Prop) (structure : FileStructure) : Prop :=
  Forall P (Types.imports structure)
  /\ Forall P (Types.exports structure)
  /\ Forall P (Types.declarations structure).

(** The span of a declaration lies inside the span of the tree. *)
Definition within (top : SyntaxNode) (decl : FileNode) : Prop :=
  Tree.from top <= Types.from decl /\ Types.to decl <= Tree.to top.

(** The number of line feeds of a text. *)
Definition lineFeeds (s : jsstring) : nat :=
  length (List.filter (fun c => (c =? 10)%N) s).

(** The index entries of a declaration at nesting depth [depth], in the
    order of the visits. *)
Fixpoint entriesAt (doc : jsstring) (depth : nat) (node : FileNode)
  : list Outline.NodeEntry :=
  {| Outline.fileNode := node;
     Outline.code := slice doc (Types.from node) (Types.to node);
     Outline.depth := depth |}
  :: flat_map (entriesAt doc (depth + 1)) (Types.children node).

(** The two outline lines of an entry. *)
Definition linesOf (doc : jsstring) (entry : Outline.NodeEntry)
  : list jsstring :=
  let node := Outline.fileNode entry in
  let indent := Outline.indentOf (Outline.depth entry) in
  [indent ++ Outline.labelOf node
          ++ Outline.linesRange doc (Types.from node) (Types.to node);
   indent ++ lit "  " ++ Outline.previewOf (Outline.code entry)].

(** How many index entries stand for the imports: one if there are any. *)
Definition importEntries (structure : FileStructure) : nat :=
  match Types.imports structure with [] => 0 | _ :: _ => 1 end.

(** The walk has recorded the entries [entries] under the ids 1, 2, ... and
    pushed the lines [lines]. *)
Record Recorded (w : Outline.Walk) (entries : list Outline.NodeEntry)
  (lines : list jsstring) : Prop := {
  recorded_next : Outline.nextId w = S (length entries);
  recorded_zero : Outline.nodeMap w !! 0 = None;
  recorded_ids : forall i, Outline.nodeMap w !! S i = entries !! i;
  recorded_lines : Outline.lines w = lines }.

(** The declarations of one kind, in the order of the file. *)
Definition ofKind (kind : FileNodeKind) (nodes : list FileNode)
  : list FileNode :=
  filter (fun n => Types.kind n = kind) nodes.

(** The groups hold the nodes [nodes], each under its kind. *)
Definition Grouped (groups : Prose.Groups) (nodes : list FileNode) : Prop :=
  NoDup (map fst groups)
  /\ Forall (fun group => snd group <> []
                          /\ snd group = ofKind (fst group) nodes) groups
  /\ Forall (fun n => Types.kind n ∈ map fst groups) nodes.

(* ------------------------------------------------------------------ *)
(** ** prose-provider.ts: the outline of the captions *)
(* ------------------------------------------------------------------ *)

Module TemplateProse.

(** [kindGroups.get(kind)]. *)
Definition get (kind : FileNodeKind) (groups : Prose.Groups)
  : option (list FileNode) :=
  snd <$> find (fun group => bool_decide (fst group = kind)) groups.

Definition kindOrder : list FileNodeKind :=
  [Kfunction; Kclass; Ktype; Kvariable; Kcontrol].

(** [label[0].toUpperCase() + label.slice(1)]; the labels are those of
    [kindLabel], which start with a letter of [a-z]. *)
Definition capitalise (label : jsstring) : jsstring :=
  match label with
  | c :: rest => (if is_lower c then c - 32 else c)%N :: rest
  | [] => []
  end.

(** The line of one declaration. *)
Definition itemLine (node : FileNode) : jsstring :=
  let name := Prose.humanizeName (Types.name node) in
  if bool_decide (Types.kind node = Kfunction)
     && (0 <? length (Types.params node))
  then
    let paramStr := join (lit ", ") (map Types.pname (Types.params node)) in
    lit "  " ++ name ++ lit "(" ++ paramStr ++ lit ")"
  else lit "  " ++ name.

Definition heading (kind : FileNodeKind) (nodes : list FileNode) : jsstring :=
  let label := Prose.kindLabel kind in
  capitalise label ++ lit "s (" ++ ofNat (length nodes) ++ lit ")".

Definition outline (structure : FileStructure) : list jsstring :=
  let lines :=
    if 0 <? length (Types.imports structure)
    then (lit "Imports (" ++ ofNat (length (Types.imports structure))
                          ++ lit ")")
         :: map (fun imp => lit "  " ++ Types.name imp)
                (Types.imports structure)
    else [] in
  let kindGroups := Prose.groupByKind (Types.declarations structure) in
  fold_left (fun lines kind =>
               match get kind kindGroups with
               | None => lines
               | Some nodes =>
                   lines ++ heading kind nodes :: map itemLine nodes
               end)
            kindOrder lines.

End TemplateProse.

(** The lines of the outline that the panel shows as items, and those it
    shows as headings: [line.startsWith("  ")]. *)
Definition isItem (line : jsstring) : bool := startsWith line (lit "  ").

(** The text ends with a full stop. *)
Definition endsWithStop (s : jsstring) : Prop :=
  exists body, s = body ++ lit ".".

Definition cannedSummary : jsstring :=
  lit "This file is empty or contains no recognizable constructs.".

(** The part of the outline for the declarations of one kind: nothing if
    there is none. *)
Definition sectionOf (kind : FileNodeKind) (nodes : list FileNode)
  : list jsstring :=
  match nodes with
  | [] => []
  | _ :: _ => TemplateProse.heading kind nodes
              :: map TemplateProse.itemLine nodes
  end.

Definition importLine (imp : FileNode) : jsstring :=
  lit "  " ++ Types.name imp.

(* ------------------------------------------------------------------ *)
(** ** concepts.ts: the hover tooltip *)
(* ------------------------------------------------------------------ *)

Module ConceptHover.

(** [title — rest], with the dash U+2014. *)
Definition dashed (title rest : string) : jsstring :=
  lit title ++ [32%N; 8212%N; 32%N] ++ lit rest.

Definition conceptDescriptions : list (jsstring * jsstring) :=
  [(lit "declaration",
    dashed "Declaration"
      "defines a name (variable, function, class, or type) for later use");
   (lit "import-export",
    dashed "Import/Export" "brings in or exposes modules and bindings");
   (lit "control-flow",
    dashed "Control Flow"
      "directs which code path executes (branching, looping, error handling)");
   (lit "control-jump",
    dashed "Control Jump"
      "exits or skips part of the current flow (return, throw, break)");
   (lit "invocation",
    dashed "Invocation" "calls a function or constructor to run its body");
   (lit "data-literal",
    dashed "Data Literal"
      "a value written directly in source code (string, number, array, object)");
   (lit "parameter",
    dashed "Parameter" "declares the inputs a function or pattern expects");
   (lit "async",
    dashed "Async" "pauses execution to wait for or yield a value");
   (lit "jsx",
    dashed "JSX" "embeds a UI element described with XML-like syntax")].

(** [conceptDescriptions[category]]. *)
Definition describe (category : jsstring) : option jsstring :=
  snd <$> find (fun row => eqb (fst row) category) conceptDescriptions.





End ConceptHover.

(** [path] leads from a child of [top] down the tree, each node a child of
    the one before. *)
Fixpoint descends (top : SyntaxNode) (path : list SyntaxNode) : Prop :=
  match path with
  | [] => True
  | node :: rest => In node (Tree.children top) /\ descends node rest
  end.

(** The names an object literal answers to without holding them: the
    properties every object inherits.  A lookup [table[name]] in the source
    is a lookup in the table for every other name; no grammar has a tag of
    this list. *)
Definition inherited : list jsstring :=
  lits ["constructor"; "toString"; "toLocaleString"; "valueOf";
        "hasOwnProperty"; "isPrototypeOf"; "propertyIsEnumerable";
        "__proto__"; "__defineGetter__"; "__defineSetter__";
        "__lookupGetter__"; "__lookupSetter__"]%string.

(** No tag of the tree is such a name. *)
Fixpoint ownTags (node : SyntaxNode) : bool :=
  match node with
  | Node name _ _ kids =>
      negb (includes inherited name) && forallb ownTags kids
  end.

(** The nodes without a category. *)
Definition plain (node : SyntaxNode) : Prop :=
  Concepts.conceptMap (Tree.name node) = None.


(** The record of a node of category [category]. *)
Definition instanceOf (doc : Text) (node : SyntaxNode) (category : jsstring)
  : Concepts.ConceptInstance :=
  {| Concepts.category := category; Concepts.nodeName := Tree.name node;
     Concepts.from := Tree.from node; Concepts.to := Tree.to node;
     Concepts.text := Tree.sliceString doc (Tree.from node) (Tree.to node);
     Concepts.line := Tree.lineNumberAt doc (Tree.from node) |}.

(* ------------------------------------------------------------------ *)
(** ** Sequences of description requests *)
(* ------------------------------------------------------------------ *)

(** The arguments of one call of [describeFile]. *)
Record Call := {
  callFilename : jsstring;
  callContent : jsstring;
  callProjectFiles : list jsstring;
  callOutline : jsstring }.

(** Calls made one after the other, each after the one before has
    resolved. *)
Fixpoint runAll (digest : jsstring -> list N) {Service : Type}
  (describe : AiProse.DescribeOpts -> Service -> AiProse.Answer * Service)
  (calls : list Call) (w : AiProse.World Service)
  : list AiProse.Described * AiProse.World Service :=
  match calls with
  | [] => ([], w)
  | call :: rest =>
      let '(result, w) :=
        AiProse.describeFile digest Service describe
          (callFilename call) (callContent call) (callProjectFiles call)
          (callOutline call) w in
      let '(results, w) := runAll digest describe rest w in
      (result :: results, w)
  end.

(** Calls that overlap.  One thing happens at a time: a call starts and
    runs up to its await of the service, where it joins the calls that are
    waiting; or the call waiting at position [i] gets its answer and runs to
    its end. *)
Inductive Turn :=
| Starts (call : Call)
| Finishes (i : nat).

Definition turn (digest : jsstring -> list N) {Service : Type}
  (describe : AiProse.DescribeOpts -> Service -> AiProse.Answer * Service)
  (state : AiProse.World Service * list AiProse.Waiting) (t : Turn)
  : AiProse.World Service * list AiProse.Waiting :=
  let '(w, waiting) := state in
  match t with
  | Starts call =>
      let '(step, w) :=
        AiProse.ask digest Service describe
          (callFilename call) (callContent call) (callProjectFiles call)
          (callOutline call) w in
      (w, match step with
          | inl _ => waiting
          | inr asked => waiting ++ [asked]
          end)
  | Finishes i =>
      match waiting !! i with
      | Some asked => (snd (AiProse.settle Service asked w), delete i waiting)
      | None => (w, waiting)
      end
  end.

Definition interleave (digest : jsstring -> list N) {Service : Type}
  (describe : AiProse.DescribeOpts -> Service -> AiProse.Answer * Service)
  (turns : list Turn) (state : AiProse.World Service * list AiProse.Waiting)
  : AiProse.World Service * list AiProse.Waiting :=
  fold_left (turn digest describe) turns state.

(** No cached text is empty. *)
Definition cacheClean (c : gmap jsstring jsstring) : Prop :=
  forall key value, c !! key = Some value -> value <> [].

(** The request the service receives for a call that is not answered from
    the cache. *)
Definition requestOf (call : Call) : AiProse.DescribeOpts :=
  request (callFilename call) (callContent call) (callProjectFiles call)
          (callOutline call).

(** [sub] is [l] with some elements left out. *)
Fixpoint subsequence {A} (sub l : list A) : Prop :=
  match sub, l with
  | [], _ => True
  | _ :: _, [] => False
  | x :: sub', y :: l' =>
      (x = y /\ subsequence sub' l') \/ subsequence sub l'
  end.

(** The digits of lower-case hexadecimal. *)
Definition isHexDigit (c : N) : bool :=
  ((48 <=? c) && (c <=? 57) || (97 <=? c) && (c <=? 102))%N.

(** [new TextEncoder().encode(s)]: the bytes of a string in UTF-8.  A
    surrogate pair is one code point; a surrogate without its partner is
    encoded as U+FFFD. *)
Definition isHighSurrogate (c : N) : bool :=
  ((0xD800 <=? c) && (c <=? 0xDBFF))%N.

Definition isLowSurrogate (c : N) : bool :=
  ((0xDC00 <=? c) && (c <=? 0xDFFF))%N.

Definition utf8 (codePoint : N) : list N :=
  (if codePoint <? 0x80 then [codePoint]
   else if codePoint <? 0x800
   then [0xC0 + codePoint / 0x40; 0x80 + codePoint mod 0x40]
   else if codePoint <? 0x10000
   then [0xE0 + codePoint / 0x1000; 0x80 + (codePoint / 0x40) mod 0x40;
         0x80 + codePoint mod 0x40]
   else [0xF0 + codePoint / 0x40000; 0x80 + (codePoint / 0x1000) mod 0x40;
         0x80 + (codePoint / 0x40) mod 0x40; 0x80 + codePoint mod 0x40])%N.

Definition codePointOf (high low : N) : N :=
  (0x10000 + (high - 0xD800) * 0x400 + (low - 0xDC00))%N.

Fixpoint encode (s : jsstring) : list N :=
  match s with
  | [] => []
  | c :: rest =>
      if isHighSurrogate c then
        match rest with
        | d :: rest' =>
            if isLowSurrogate d
            then utf8 (codePointOf c d) ++ encode rest'
            else utf8 0xFFFD ++ encode rest
        | [] => utf8 0xFFFD
        end
      else if isLowSurrogate c then utf8 0xFFFD ++ encode rest
      else utf8 c ++ encode rest
  end.

(** [s.isWellFormed()]: every surrogate of the string has its partner.  The
    elements are code units, of 16 bits. *)
Fixpoint isWellFormed (s : jsstring) : bool :=
  match s with
  | [] => true
  | c :: rest =>
      if isHighSurrogate c then
        match rest with
        | d :: rest' => isLowSurrogate d && isWellFormed rest'
        | [] => false
        end
      else negb (isLowSurrogate c) && (c <? 0x10000)%N && isWellFormed rest
  end.

(** What [hashKey] hashes. *)
Definition keyData (filename content : jsstring) : jsstring :=
  AiProse.CACHE_VERSION ++ [0%N] ++ filename ++ [0%N] ++ content.

(* ================================================================== *)
(** ** book-panel.ts: the panel of the description *)
(* ================================================================== *)

Module BookPanel.

(** [s.replace(/c/g, by)] for one code unit [c]. *)
Definition replaceEach (c : N) (by_ : jsstring) (s : jsstring) : jsstring :=
  flat_map (fun x => if (x =? c)%N then by_ else [x]) s.

Definition escapeHtml (s : jsstring) : jsstring :=
  replaceEach 62 (lit "&gt;")
    (replaceEach 60 (lit "&lt;") (replaceEach 38 (lit "&amp;") s)).

(** What the container shows. *)
Inductive View :=
| Empty
| Loading (filename : jsstring)
| Failed (message : jsstring)
| Prose (filename : jsstring) (text : jsstring) (truncated : option bool).

Record Panel := { requestId : nat; container : View }.

(** [new BookPanel(container)]. *)
Definition create : Panel := {| requestId := 0; container := Empty |}.

(** [update] up to its [await]: the request takes the next id and the
    panel shows that it is loading. *)
Definition begin (filename : jsstring) (panel : Panel) : nat * Panel :=
  let id := S (requestId panel) in
  (id, {| requestId := id; container := Loading filename |}).

Definition renderError (message : jsstring) (panel : Panel) : Panel :=
  {| requestId := requestId panel; container := Failed message |}.

(** [renderProse] splits the text before it touches the container: without
    a text, [text.split] throws a [TypeError] ([None]) and the panel is not
    reached. *)
Definition renderProse (filename : jsstring) (text : option jsstring)
  (truncated : option bool) (panel : Panel) : option Panel :=
  match text with
  | Some text =>
      Some {| requestId := requestId panel;
              container := Prose filename text truncated |}
  | None => None
  end.

(** [update] after its [await], with the result of [describeFile]: the
    panel it leaves, or [None] when it throws, which leaves the panel as it
    was. *)
Definition resume (id : nat) (filename : jsstring)
  (result : AiProse.Described) (panel : Panel) : option Panel :=
  (* Discard stale response *)
  if negb (id =? requestId panel) then Some panel
  else if otruthy (AiProse.error result)
  then Some (renderError (default [] (AiProse.error result)) panel)
  else renderProse filename (AiProse.text result) (AiProse.truncated result)
                   panel.

(** Recursively index a FileNode and its children by name. *)
Fixpoint indexNode (source : jsstring) (node : FileNode)
  (symbolCodeMap : gmap jsstring jsstring) {struct node}
  : gmap jsstring jsstring :=
  let symbolCodeMap :=
    if truthy (Types.name node)
       && negb (bool_decide (Types.kind node = Kimport))
    then <[Types.name node :=
             slice source (Types.from node) (Types.to node)]> symbolCodeMap
    else symbolCodeMap in
  fold_left (fun m child => indexNode source child m)
            (Types.children node) symbolCodeMap.

(** The entries of an id index in the order in which a [Map] yields them,
    the order of insertion: here the order of the ids 1, 2, .... *)
Definition entriesOf (nodeMap : gmap nat Outline.NodeEntry)
  : list Outline.NodeEntry :=
  omap (fun id => nodeMap !! id) (seq 1 (size nodeMap)).

(** The symbol map [update] builds before it asks for the description:
    cleared, then filled from every entry of the outline's index. *)
Definition symbolCodeMap (structure : FileStructure) (content : jsstring)
  : gmap jsstring jsstring :=
  let totalNodes :=
    length (Types.imports structure) + length (Types.declarations structure) in
  if 0 <? totalNodes then
    let result := Outline.buildOutline structure content in
    fold_left (fun m entry => indexNode content (Outline.fileNode entry) m)
              (entriesOf (Outline.index result)) ∅
  else ∅.

End BookPanel.

(** What happens to a panel: an update begins, or the description asked for
    by the update with id [id] arrives; an update that throws leaves the
    panel as it was. *)
Inductive Event :=
| Begins (filename : jsstring)
| Arrives (id : nat) (filename : jsstring) (result : AiProse.Described).

Definition step (panel : BookPanel.Panel) (event : Event) : BookPanel.Panel :=
  match event with
  | Begins filename => snd (BookPanel.begin filename panel)
  | Arrives id filename result =>
      default panel (BookPanel.resume id filename result panel)
  end.

Definition run (events : list Event) (panel : BookPanel.Panel)
  : BookPanel.Panel :=
  fold_left step events panel.

(** What a character becomes in escaped text. *)
Definition escaped (c : N) : jsstring :=
  if (c =? 38)%N then lit "&amp;"
  else if (c =? 60)%N then lit "&lt;"
  else if (c =? 62)%N then lit "&gt;"
  else [c].




(* ------------------------------------------------------------------ *)
(** ** file-structure.ts: the language of a file *)
(* ------------------------------------------------------------------ *)

Definition detectLanguage (filename : jsstring) : jsstring :=
  let ext := default [] (last (split 46 filename)) in
  if eqb ext (lit "svelte") then lit "svelte"
  else if includes (lits ["js"; "ts"; "jsx"; "tsx"; "mjs"]%string) ext
  then lit "js"
  else if eqb ext (lit "py") then lit "py"
  else if eqb ext (lit "rs") then lit "rs"
  else lit "js" (* default fallback *).

(* ------------------------------------------------------------------ *)
(** ** file-structure.ts: Svelte files *)
(* ------------------------------------------------------------------ *)

Module Svelte.

(** Svelte template block nodes. *)
Definition svelteBlockNodes : list jsstring :=
  lits ["IfBlock"; "EachBlock"; "AwaitBlock"; "KeyBlock"]%string.

(** [s.replace(pattern, "")] for a string pattern: the first occurrence is
    removed. *)
Fixpoint removeFirst (pattern s : jsstring) : jsstring :=
  match s with
  | [] => []
  | c :: rest =>
      if startsWith s pattern then drop (length pattern) s
      else c :: removeFirst pattern rest
  end.

(** [s.toLowerCase()] on the letters of [A-Z]; the block names hold no
    other letters. *)
Definition toLowerCase (s : jsstring) : jsstring :=
  map (fun c => if is_upper c then (c + 32)%N else c) s.

(** What [.] does not match. *)
Definition isLineEnd (c : N) : bool :=
  ((c =? 10) || (c =? 13) || (c =? 8232) || (c =? 8233))%N.

Fixpoint takeWhile (p : N -> bool) (s : jsstring) : jsstring :=
  match s with
  | c :: rest => if p c then c :: takeWhile p rest else []
  | [] => []
  end.

(** The part of [s] before its last [c], if [c] occurs. *)
Definition beforeLast (c : N) (s : jsstring) : option jsstring :=
  match dropWhile (fun x => negb (x =? c)%N) (rev s) with
  | _ :: before => Some (rev before)
  | [] => None
  end.

(** The pattern of an opening tag at the start of [s]: an opening brace, one
    of [#], [:] and [@], a word, white space, group 1 and a closing brace.
    The word and the white space take all they can, and giving some back
    never helps; group 1 stays on one line and ends before the last closing
    brace of it. *)
Definition openTagAt (s : jsstring) : option jsstring :=
  match s with
  | 123%N :: sigil :: rest =>
      if ((sigil =? 35) || (sigil =? 58) || (sigil =? 64))%N then
        match rest with
        | w :: _ =>
            if is_word w then
              match dropWhile is_word rest with
              | space :: _ as spaced =>
                  if is_ws space then
                    beforeLast 125
                      (takeWhile (fun c => negb (isLineEnd c))
                                 (dropWhile is_ws spaced))
                  else None
              | [] => None
              end
            else None
        | [] => None
        end
      else None
  | _ => None
  end.

(** [openText.match] with that pattern: the leftmost match. *)
Fixpoint openTag (s : jsstring) : option jsstring :=
  match openTagAt s with
  | Some group => Some group
  | None => match s with
            | _ :: rest => openTag rest
            | [] => None
            end
  end.

(** What the traversal updates: the starts already recorded and the
    structure. *)
Record Visit := { seen : gset nat; structure : FileStructure }.

Definition record (from : nat) (change : FileStructure -> FileStructure)
  (v : Visit) : Visit :=
  {| seen := {[from]} ∪ seen v; structure := change (structure v) |}.

(** The control node of a template block. *)
Definition blockNode (doc : Text) (node : SyntaxNode) : FileNode :=
  let blockName := removeFirst (lit "Block") (Tree.name node) in
  let exprText :=
    match Tree.firstChild node with
    | Some openChild =>
        match openTag (Extractor.textOf doc openChild) with
        | Some group => trim group
        | None => []
        end
    | None => []
    end in
  mkFileNode Kcontrol
    (if truthy exprText
     then blockName ++ lit ": " ++ ellipsis 40 exprText
     else blockName)
    [] None (eqb (Tree.name node) (lit "AwaitBlock")) false
    (lit "{#" ++ toLowerCase blockName ++ lit "}")
    (Tree.from node) (Tree.to node) [] Extractor.emptySummary.

(** The node of a component usage. *)
Definition componentNode (doc : Text) (node : SyntaxNode) : FileNode :=
  let name := Extractor.textOf doc node in
  mkFileNode Kvariable (lit "<" ++ name ++ lit ">") [] None false false
    (lit "component") (Tree.from node) (Tree.to node) []
    Extractor.emptySummary.

(** The [enter] callback: the visit after the node, and whether its
    children are visited. *)
Definition enter (doc : Text) (at_ : Place) (node : SyntaxNode) (v : Visit)
  : bool * Visit :=
  if bool_decide (Tree.from node ∈ seen v) then (false, v)
  (* Svelte template blocks -> control nodes *)
  else if includes svelteBlockNodes (Tree.name node) then
    (false,
     record (Tree.from node) (Types.pushDeclaration (blockNode doc node)) v)
  (* Component usages (Element with ComponentName) *)
  else if eqb (Tree.name node) (lit "ComponentName") then
    (false,
     record (Tree.from node) (Types.pushDeclaration (componentNode doc node))
            v)
  else
    (* JS declarations inside <script> (nested parser overlay) *)
    match Extractor.classifyNode node (lit "js") with
    | Some _ =>
        (false,
         record (Tree.from node)
           (fun structure =>
              match Extractor.buildFileNode doc (lit "js") at_ node with
              | Some fileNode =>
                  match Types.kind fileNode with
                  | Kimport => Types.pushImport fileNode structure
                  | Kexport =>
                      (* Check inside for the real declaration *)
                      let structure :=
                        match Tree.firstChild node with
                        | Some inner =>
                            match Extractor.buildFileNode doc (lit "js")
                                    {| Tree.parent := Some (Tree.name node);
                                       Tree.prevSibling := None |} inner with
                            | Some innerNode =>
                                Types.pushDeclaration
                                  (Types.withExported true innerNode)
                                  structure
                            | None => structure
                            end
                        | None => structure
                        end in
                      Types.pushExport fileNode structure
                  | _ => Types.pushDeclaration fileNode structure
                  end
              | None => structure
              end) v)
    | None => (true, v)
    end.

(** [tree.iterate({ enter })]: every node before its children, the children
    from left to right, skipped where [enter] says so. *)
Fixpoint iterate (doc : Text) (at_ : Place) (node : SyntaxNode) (v : Visit)
  {struct node} : Visit :=
  match node with
  | Node name _ _ kids =>
      let '(descend, v) := enter doc at_ node v in
      if descend then
        (fix each (prev : option jsstring) (cs : list SyntaxNode) (v : Visit)
           {struct cs} : Visit :=
           match cs with
           | [] => v
           | child :: rest =>
               each (Some (Tree.name child)) rest
                    (iterate doc {| Tree.parent := Some name;
                                    Tree.prevSibling := prev |} child v)
           end) None kids v
      else v
  end.

Definition extractSvelteNodes (doc : Text) (topNode : SyntaxNode)
  (structure : FileStructure) : FileStructure :=
  Svelte.structure
    (iterate doc {| Tree.parent := None; Tree.prevSibling := None |} topNode
             {| seen := ∅; structure := structure |}).

(** [extractFileStructure(view, filename)], for every language. *)
Definition extractFileStructure (doc : Text) (filename : jsstring)
  (topNode : SyntaxNode) : FileStructure :=
  let lang := detectLanguage filename in
  if eqb lang (lit "svelte") then
    extractSvelteNodes doc topNode
      {| Types.imports := []; Types.exports := [];
         Types.declarations := []; Types.language := lang |}
  else
    (* Standard JS/TS/Python/Rust: walk top-level nodes directly *)
    Extractor.extractFileStructure doc lang topNode.

End Svelte.

(** The keywords of the template blocks. *)
Definition blockKeywords : list jsstring :=
  lits ["{#if}"; "{#each}"; "{#await}"; "{#key}"]%string.

(** A keyword the extractor gives to a node of the program, not of the
    template. *)
Definition programKeyword (keyword : jsstring) : Prop :=
  startsWith keyword (lit "{#") = false /\ keyword <> lit "component".

(** What the captions say about a declaration of a Svelte file, by its
    keyword. *)
Definition captioned (node : FileNode) : Prop :=
  let explanation := Prose.blockExplanation node in
  let name := Prose.humanizeName (Types.name node) in
  (startsWith (Types.keyword node) (lit "{#") = true ->
   In (Types.keyword node) blockKeywords
   /\ Types.kind node = Kcontrol
   /\ exists description,
        Prose.descriptions (Prose.blockTypeOf (Types.keyword node))
        = Some description
        /\ Prose.summary explanation
           = name ++ [32%N; 8212%N; 32%N] ++ description)
  /\ (Types.keyword node = lit "component" ->
      Types.kind node = Kvariable
      /\ Prose.summary explanation
         = lit "Uses the " ++ name ++ lit " component.").

(* ------------------------------------------------------------------ *)
(** ** Further examples *)
(* ------------------------------------------------------------------ *)

Module KeywordExample.

Definition source : jsstring := lit "export async function f() {}".

Definition declaration : SyntaxNode :=
  Node (lit "FunctionDeclaration") 0 28 [].

End KeywordExample.

Module ImportsExample.

Definition import (name : string) (from to : nat) : FileNode :=
  mkFileNode Kimport (lit name) [] None false false (lit "import") from to []
             Extractor.emptySummary.

Definition imports : list FileNode :=
  [import "react" 0 26; import "./util" 27 58].

End ImportsExample.

Module HoverExample.

(** The way from the first statement of [foo(); bar();] down to the name of
    the function it calls. *)
Definition path : list SyntaxNode :=
  [ScopeExample.call 0;
   Node (lit "CallExpression") 0 5
     [Node (lit "VariableName") 0 3 [];
      Node (lit "ArgList") 3 5
        [Node (lit "(") 3 4 []; Node (lit ")") 4 5 []]];
   Node (lit "VariableName") 0 3 []].

End HoverExample.

Module CallsExample.

Definition twice : list Call :=
  [{| callFilename := lit "a.ts"; callContent := lit "let a = 1";
      callProjectFiles := []; callOutline := [] |};
   {| callFilename := lit "a.ts"; callContent := lit "let a = 1";
      callProjectFiles := [lit "a.ts"]; callOutline := [] |}].

End CallsExample.
(* ================================================================== *)
(** * Properties *)
(* ================================================================== *)

(* ------------------------------------------------------------------ *)
(** ** Strings: trimming *)
(* ------------------------------------------------------------------ *)

Section Trimming.

Variable p : N -> bool.

Lemma dropWhile_suffix s : exists pre, s = pre ++ dropWhile p s.
Proof.
  induction s as [|c s [pre IH]]; simpl.
  - by exists [].
  - destruct (p c); [exists (c :: pre); simpl; congruence | by exists []].
Qed.

Lemma dropWhile_clean s : startsClean p (dropWhile p s).
Proof.
  induction s as [|c s IH]; simpl; [done|].
  destruct (p c) eqn:E; [done | simpl; done].
Qed.

Lemma dropWhile_fixed s : startsClean p s -> dropWhile p s = s.
Proof. destruct s as [|c s]; simpl; [done | by intros ->]. Qed.

Lemma dropWhile_idem s : dropWhile p (dropWhile p s) = dropWhile p s.
Proof. apply dropWhile_fixed, dropWhile_clean. Qed.

Lemma startsClean_prefix a b : startsClean p (a ++ b) -> startsClean p a.
Proof. destruct a; simpl; done. Qed.

End Trimming.

Lemma trimEnd_prefix s : exists post, s = trimEnd s ++ post.
Proof.
  unfold trimEnd.
  destruct (dropWhile_suffix is_ws (rev s)) as [pre E].
  exists (rev pre).
  rewrite <- rev_app_distr, <- E. by rewrite rev_involutive.
Qed.

Lemma trimEnd_idem s : trimEnd (trimEnd s) = trimEnd s.
Proof. unfold trimEnd. by rewrite rev_involutive, dropWhile_idem. Qed.

Lemma trim_idem s : trim (trim s) = trim s.
Proof.
  unfold trim, trimStart.
  rewrite (dropWhile_fixed is_ws (trimEnd _)); [apply trimEnd_idem|].
  destruct (trimEnd_prefix (dropWhile is_ws s)) as [post E].
  apply startsClean_prefix with post. rewrite <- E. apply dropWhile_clean.
Qed.

(** A trimmed string is a contiguous piece of the original. *)
Lemma trim_infix s : exists pre post, s = pre ++ trim s ++ post.
Proof.
  unfold trim, trimStart.
  destruct (dropWhile_suffix is_ws s) as [pre E1].
  destruct (trimEnd_prefix (dropWhile is_ws s)) as [post E2].
  exists pre, post. by rewrite <- E2.
Qed.

(* ------------------------------------------------------------------ *)
(** ** humanizeName is idempotent *)
(* ------------------------------------------------------------------ *)

Lemma splitCamel_head s : head (Prose.splitCamel s) = head s.
Proof.
  destruct s as [|a [|b r]]; simpl; try done.
  by destruct (is_lower a && is_upper b).
Qed.

Lemma noCamel_cons a s :
  noCamel (a :: s) =
  match head s with
  | Some b => negb (is_lower a && is_upper b) && noCamel s
  | None => true
  end.
Proof. by destruct s. Qed.

Lemma noCamel_step a b r :
  noCamel (a :: b :: r) = negb (is_lower a && is_upper b) && noCamel (b :: r).
Proof. reflexivity. Qed.

Lemma lower_not_upper c : is_lower c = true -> is_upper c = false.
Proof.
  unfold is_lower, is_upper. intros H.
  apply andb_prop in H as [H _]. apply N.leb_le in H.
  apply andb_false_iff. right. apply N.leb_gt. lia.
Qed.

Lemma splitCamel_step a b r :
  Prose.splitCamel (a :: b :: r) =
  if is_lower a && is_upper b then a :: 32%N :: b :: Prose.splitCamel r
  else a :: Prose.splitCamel (b :: r).
Proof. reflexivity. Qed.

Lemma splitCamel_noCamel s : noCamel (Prose.splitCamel s) = true.
Proof.
  remember (length s) as n eqn:Hn.
  revert s Hn. induction (lt_wf n) as [n _ IH]. intros s ->.
  destruct s as [|a [|b r]]; try done.
  rewrite splitCamel_step.
  destruct (is_lower a && is_upper b) eqn:E.
  - apply andb_prop in E as [Ha Hb].
    rewrite noCamel_cons. cbn [head].
    replace (is_upper 32) with false by done. rewrite andb_false_r. cbn [negb andb].
    rewrite noCamel_cons. cbn [head].
    replace (is_lower 32) with false by done. cbn [negb andb].
    rewrite noCamel_cons, splitCamel_head.
    destruct (head r) as [c|]; [|done].
    assert (is_lower b = false) as ->.
    { destruct (is_lower b) eqn:L; [|done].
      apply lower_not_upper in L. congruence. }
    cbn [negb andb]. eapply (IH (length r)); [simpl; lia | done].
  - rewrite noCamel_cons, splitCamel_head. cbn [head].
    rewrite E. cbn [negb andb].
    eapply (IH (length (b :: r))); [simpl; lia | done].
Qed.

Lemma splitCamel_fixed s : noCamel s = true -> Prose.splitCamel s = s.
Proof.
  induction s as [|a s IH]; [done|].
  destruct s as [|b r]; [done|].
  intros H. rewrite noCamel_step in H. apply andb_prop in H as [H1 H2].
  rewrite splitCamel_step.
  apply negb_true_iff in H1. rewrite H1. f_equal. by apply IH.
Qed.

Lemma noCamel_app_r a b : noCamel (a ++ b) = true -> noCamel b = true.
Proof.
  induction a as [|x a IH]; [done|]. simpl app.
  rewrite noCamel_cons. destruct (head (a ++ b)) eqn:E.
  - intros H. apply andb_prop in H as [_ H]. by apply IH.
  - destruct a, b; done.
Qed.

Lemma noCamel_app_l a b : noCamel (a ++ b) = true -> noCamel a = true.
Proof.
  induction a as [|x a IH]; [done|]. simpl app.
  rewrite !noCamel_cons. destruct a as [|y a]; [done|].
  cbn [app head]. intros H. apply andb_prop in H as [H1 H2].
  rewrite H1. by apply IH.
Qed.

(** Replacing an underscore or a hyphen by a space keeps every character in
    its class. *)
Lemma noCamel_replaceAll c s :
  is_lower c = false -> is_upper c = false ->
  noCamel (replaceAll c 32 s) = noCamel s.
Proof.
  intros Hl Hu. unfold replaceAll.
  set (f := fun x : N => if (x =? c)%N then 32%N else x).
  assert (Hf : forall x, is_lower (f x) = is_lower x /\ is_upper (f x) = is_upper x).
  { intros x. unfold f. destruct (N.eqb_spec x c) as [->|]; [|done].
    by rewrite Hl, Hu. }
  induction s as [|a s IH]; [done|].
  destruct s as [|b r]; [done|].
  change (noCamel (f a :: f b :: map f r) = noCamel (a :: b :: r)).
  rewrite !noCamel_step.
  change (f b :: map f r) with (map f (b :: r)). rewrite IH.
  destruct (Hf a) as [-> _]. destruct (Hf b) as [_ ->]. done.
Qed.

Lemma replaceAll_absent c d s : Forall (fun x => x <> c) s -> replaceAll c d s = s.
Proof.
  unfold replaceAll. induction 1 as [|x s Hx _ IH]; [done|].
  simpl. rewrite IH. by destruct (N.eqb_spec x c).
Qed.

Lemma replaceAll_removes c d s : d <> c -> Forall (fun x => x <> c) (replaceAll c d s).
Proof.
  intros Hd. unfold replaceAll. induction s as [|x s IH]; simpl; constructor; [|done].
  by destruct (N.eqb_spec x c).
Qed.

Lemma replaceAll_keeps_absent c d e s :
  d <> e -> Forall (fun x => x <> e) s -> Forall (fun x => x <> e) (replaceAll c d s).
Proof.
  intros Hd. unfold replaceAll. induction 1 as [|x s Hx _ IH]; simpl; constructor; [|done].
  by destruct (x =? c)%N.
Qed.

Lemma trim_Forall (P : N -> Prop) s : Forall P s -> Forall P (trim s).
Proof.
  destruct (trim_infix s) as (pre & post & E). intros H. rewrite E in H.
  apply Forall_app in H as [_ H]. by apply Forall_app in H as [H _].
Qed.

Lemma trim_noCamel s : noCamel s = true -> noCamel (trim s) = true.
Proof.
  destruct (trim_infix s) as (pre & post & E). intros H. rewrite E in H.
  apply noCamel_app_r in H. by apply noCamel_app_l in H.
Qed.

Lemma humanizeName_Humanized s : Humanized (Prose.humanizeName s).
Proof.
  unfold Prose.humanizeName. split.
  - apply trim_noCamel. rewrite !noCamel_replaceAll by done.
    apply splitCamel_noCamel.
  - apply trim_Forall, replaceAll_keeps_absent; [done|].
    by apply replaceAll_removes.
  - apply trim_Forall. by apply replaceAll_removes.
  - apply trim_idem.
Qed.

Lemma humanizeName_fixed s : Humanized s -> Prose.humanizeName s = s.
Proof.
  intros [Hc Hs Hk Ht]. unfold Prose.humanizeName.
  rewrite (splitCamel_fixed s Hc).
  rewrite (replaceAll_absent 95 32 s Hs), (replaceAll_absent 45 32 s Hk).
  exact Ht.
Qed.

(** C10: [humanizeName] is idempotent: applying it to a name it has already
    produced changes nothing, for every string. *)
Theorem humanizeName_idempotent (s : jsstring) :
  Prose.humanizeName (Prose.humanizeName s) = Prose.humanizeName s.
Proof. apply humanizeName_fixed, humanizeName_Humanized. Qed.

(* ------------------------------------------------------------------ *)
(** ** The caption of the end-to-end example, and empty input *)
(* ------------------------------------------------------------------ *)

(** What the extractor reports for the end-to-end example: the import, and
    the function [foo] as the one declaration, exported and async, with the
    parameter [x], the return type [Promise<void>], one loop and the calls of
    [bar] and [baz]. *)
Lemma endToEnd_structure :
  length (Types.imports EndToEnd.structure) = 1
  /\ exists declaration parameter,
       Types.declarations EndToEnd.structure = [declaration]
       /\ Types.kind declaration = Kfunction
       /\ Types.name declaration = lit "foo"
       /\ Types.isAsync declaration = true
       /\ Types.isExported declaration = true
       /\ Types.params declaration = [parameter]
       /\ Types.pname parameter = lit "x"
       /\ Types.returnType declaration = Some (lit "Promise<void>")
       /\ Types.childSummary declaration
          = {| Types.callCount := 2; Types.conditionCount := 0;
               Types.loopCount := 1; Types.returnCount := 0;
               Types.calledFunctions := [lit "bar"; lit "baz"] |}.
Proof.
  split; [reflexivity|].
  eexists; eexists. split; [vm_compute; reflexivity|].
  repeat split; vm_compute; reflexivity.
Qed.

(** The caption of the end-to-end example is not the expected one: the
    summary of the declaration that the extractor reports for [foo] begins
    with the name as written, [f], and not with a capital. *)
Lemma endToEnd_summary_not_capitalised :
  exists declaration,
    Types.declarations EndToEnd.structure = [declaration]
    /\ Prose.summary (Prose.blockExplanation declaration)
       <> lit "Foo is an async function that takes x (number) and returns Promise<void>."
    /\ head (Prose.summary (Prose.blockExplanation declaration))
       = head (lit "foo").
Proof.
  eexists. split; [vm_compute; reflexivity|].
  split; [vm_compute; discriminate | reflexivity].
Qed.

(** C2 (amended): for the end-to-end example, the extractor reports one
    declaration, with the one parameter [x], and its summary is "foo is an
    async function that takes ", then the text of the parameter as it was
    extracted, then " and returns Promise<void>.": the name is the one
    written in the source, not capitalised.  The detail is "Inside, it calls
    bar, baz, uses 1 loop." *)
Theorem endToEnd_caption :
  exists declaration parameter,
    Types.declarations EndToEnd.structure = [declaration]
    /\ Types.params declaration = [parameter]
    /\ Types.pname parameter = lit "x"
    /\ Prose.summary (Prose.blockExplanation declaration)
       = lit "foo is an async function that takes "
         ++ Prose.describeParam parameter
         ++ lit " and returns Promise<void>."
    /\ Prose.detail (Prose.blockExplanation declaration)
       = lit "Inside, it calls bar, baz, uses 1 loop.".
Proof.
  eexists; eexists. split; [vm_compute; reflexivity|].
  repeat split; vm_compute; reflexivity.
Qed.

(** C8: on an empty [FileStructure] the outline builder and the file summary
    return (they are total functions, nothing is thrown): the outline text is
    empty, the id index is empty, and the summary is the canned sentence. *)
Theorem empty_structure_outline_and_summary (language doc : jsstring) :
  Outline.buildOutline (emptyStructure language) doc =
    {| Outline.outline := []; Outline.index := ∅ |}
  /\ Prose.fileSummary (emptyStructure language) =
     lit "This file is empty or contains no recognizable constructs.".
Proof. split; reflexivity. Qed.

(* ------------------------------------------------------------------ *)
(** ** describeFile: the cache and the truncation *)
(* ------------------------------------------------------------------ *)

Section DescribeFile.

Import AiProse.

Variable digest : jsstring -> list N.
Variable Service : Type.
Variable describe : DescribeOpts -> Service -> Answer * Service.

Abbreviation describeFile := (describeFile digest Service describe).
Abbreviation hashKey := (hashKey digest).
Abbreviation misses := (misses digest).

Lemma ask_miss filename content projectFiles outline w :
  misses filename content w ->
  ask digest Service describe filename content projectFiles outline w =
  let opts := request filename content projectFiles outline in
  let '(answer, s) := describe opts (service w) in
  (inr {| waitingKey := hashKey filename content;
          waitingTruncated := MAX_CONTENT_SIZE <? length content;
          waitingResult := answer |},
   {| cache := cache w; service := s; received := received w ++ [opts] |}).
Proof.
  unfold misses, ask, bind, cacheGet. cbn [cache].
  intros ->. unfold aiDescribe, request, sentContent.
  by destruct (describe _ (service w)) as [answer s].
Qed.

Lemma ask_hit filename content projectFiles outline w :
  ~ misses filename content w ->
  ask digest Service describe filename content projectFiles outline w =
  (inl {| text := cache w !! hashKey filename content; error := None;
          truncated := None |}, w).
Proof.
  unfold misses, ask, bind, cacheGet.
  destruct (otruthy _); [reflexivity | done].
Qed.

Lemma settle_remember waiting (w : World Service) :
  settle Service waiting w =
  ({| text := answerText (waitingResult waiting);
      error := answerError (waitingResult waiting);
      truncated := Some (waitingTruncated waiting) |},
   {| cache := remember (waitingKey waiting) (waitingResult waiting) (cache w);
      service := service w; received := received w |}).
Proof.
  unfold settle, bind, remember, cacheSet, ret.
  destruct (answerText (waitingResult waiting)) as [t|];
    [destruct (truthy t)|]; by destruct w.
Qed.

Lemma describeFile_miss filename content projectFiles outline w :
  misses filename content w ->
  describeFile filename content projectFiles outline w =
  let opts := request filename content projectFiles outline in
  let '(answer, s) := describe opts (service w) in
  ({| text := answerText answer; error := answerError answer;
      truncated := Some (MAX_CONTENT_SIZE <? length content) |},
   {| cache := remember (hashKey filename content) answer (cache w);
      service := s; received := received w ++ [opts] |}).
Proof.
  intros Hmiss. unfold AiProse.describeFile, bind.
  rewrite ask_miss by done. cbv zeta.
  destruct (describe _ (service w)) as [answer s].
  by rewrite settle_remember.
Qed.

Lemma describeFile_hit filename content projectFiles outline w :
  ~ misses filename content w ->
  describeFile filename content projectFiles outline w =
  ({| text := cache w !! hashKey filename content; error := None;
      truncated := None |}, w).
Proof.
  intros Hhit. unfold AiProse.describeFile, bind.
  by rewrite ask_hit.
Qed.

Lemma sentContent_long content :
  MAX_CONTENT_SIZE < length content ->
  sentContent content = take MAX_CONTENT_SIZE content
  /\ length (sentContent content) = MAX_CONTENT_SIZE.
Proof.
  intros H. unfold sentContent, slice.
  apply Nat.ltb_lt in H as E. rewrite E.
  rewrite Nat.sub_0_r, drop_0. split; [done|].
  rewrite length_take. lia.
Qed.

Lemma sentContent_short content :
  length content <= MAX_CONTENT_SIZE -> sentContent content = content.
Proof.
  intros H. unfold sentContent.
  apply Nat.ltb_ge in H. by rewrite H.
Qed.

(** C3 (amended): on every call that is not answered from the cache, content
    longer than the maximum reaches the service as exactly its first
    30,000 characters and the result has [truncated = true]; content at or
    under the limit is sent unmodified with [truncated = false]. *)
Theorem describeFile_truncates filename content projectFiles outline w
  (Hmiss : misses filename content w) :
  let '(result, w') := describeFile filename content projectFiles outline w in
  exists opts,
    received w' = received w ++ [opts]
    /\ (MAX_CONTENT_SIZE < length content ->
        fileContent opts = take MAX_CONTENT_SIZE content
        /\ length (fileContent opts) = MAX_CONTENT_SIZE
        /\ truncated result = Some true)
    /\ (length content <= MAX_CONTENT_SIZE ->
        fileContent opts = content /\ truncated result = Some false).
Proof.
  rewrite describeFile_miss by done. cbv zeta.
  destruct (describe _ (service w)) as [answer s].
  eexists. split; [reflexivity|]. cbn [fileContent request truncated]. split.
  - intros H. destruct (sentContent_long content H) as [-> E].
    rewrite length_take. apply Nat.ltb_lt in H as E'. rewrite E'.
    repeat split; try done. lia.
  - intros H. rewrite sentContent_short by done.
    apply Nat.ltb_ge in H as ->. done.
Qed.

(** A call answered from the cache sends nothing to the service and carries
    no [truncated] flag. *)
Lemma describeFile_cached filename content projectFiles outline w :
  ~ misses filename content w ->
  let '(result, w') := describeFile filename content projectFiles outline w in
  w' = w /\ truncated result = None
  /\ text result = cache w !! hashKey filename content.
Proof. intros H. rewrite describeFile_hit by done. done. Qed.

(** C6 (amended): of two calls with the same filename and content, the
    second made after the first has resolved, where the first is not
    answered from the cache and the service answers it with a text that is
    not empty: the service is invoked exactly once across the two calls, by
    the first, and the text of the second call's result is the text the
    first call returned and cached. *)
Theorem describeFile_second_call_cached
  filename content projectFiles1 outline1 projectFiles2 outline2 w t
  (Hmiss : misses filename content w)
  (Hanswer : answerText
               (describe (request filename content projectFiles1 outline1)
                         (service w)).1 = Some t)
  (Htext : t <> []) :
  let '(first, w1) := describeFile filename content projectFiles1 outline1 w in
  let '(second, w2) := describeFile filename content projectFiles2 outline2 w1 in
  received w1 = received w ++ [request filename content projectFiles1 outline1]
  /\ received w2 = received w1
  /\ text first = Some t
  /\ cache w1 !! hashKey filename content = Some t
  /\ text second = Some t.
Proof.
  rewrite describeFile_miss by done. cbv zeta.
  destruct (describe _ (service w)) as [answer s] eqn:E.
  cbn [fst] in Hanswer.
  assert (Hcache : remember (hashKey filename content) answer (cache w)
                   !! hashKey filename content = Some t).
  { unfold remember. rewrite Hanswer.
    destruct t; [done|]. cbn [truthy]. apply lookup_insert_eq. }
  rewrite describeFile_hit.
  - cbn [cache received text]. by rewrite Hcache.
  - unfold misses. cbn [cache]. rewrite Hcache. by destruct t.
Qed.

(** C9: when a call reaches the service and the answer has no text (an
    error; an empty text counts the same), nothing is cached: the cache is
    unchanged, and the next call with the same filename and content is sent
    to the service again.  Whatever the answer, an entry of the cache after
    the call was there before or is the non-empty text of this answer,
    stored under this call's key. *)
Theorem describeFile_error_not_cached
  filename content projectFiles1 outline1 projectFiles2 outline2 w
  (Hmiss : misses filename content w) :
  let answer :=
    (describe (request filename content projectFiles1 outline1) (service w)).1 in
  let '(first, w1) := describeFile filename content projectFiles1 outline1 w in
  let '(second, w2) := describeFile filename content projectFiles2 outline2 w1 in
  (otruthy (answerText answer) = false ->
     cache w1 = cache w
     /\ received w2
        = received w1 ++ [request filename content projectFiles2 outline2])
  /\ (forall key value,
        cache w1 !! key = Some value ->
        cache w !! key = Some value
        \/ (key = hashKey filename content
            /\ answerText answer = Some value /\ value <> [])).
Proof.
  rewrite describeFile_miss by done. cbv zeta.
  destruct (describe _ (service w)) as [answer s] eqn:E. cbn [fst].
  destruct (AiProse.describeFile _ _ _ _ _ _ _ _) as [second w2] eqn:E2.
  split.
  - intros Herr.
    assert (Hsame : remember (hashKey filename content) answer (cache w) = cache w).
    { unfold remember. destruct (answerText answer) as [t|]; [|done].
      cbn [otruthy] in Herr. by rewrite Herr. }
    split; [exact Hsame|].
    rewrite describeFile_miss in E2.
    + cbv zeta in E2. cbn [service] in E2.
      destruct (describe _ s) as [answer2 s2]. by inversion E2.
    + unfold misses. cbn [cache]. rewrite Hsame. exact Hmiss.
  - intros key value. cbn [cache]. unfold remember.
    destruct (answerText answer) as [t|]; [|by left].
    destruct t as [|c t]; [by left|]. cbn [truthy].
    destruct (decide (key = hashKey filename content)) as [->|Hne].
    + rewrite lookup_insert_eq. intros [= <-]. by right.
    + rewrite lookup_insert_ne by done. by left.
Qed.

End DescribeFile.

(* ------------------------------------------------------------------ *)
(** ** describeFile on concrete calls *)
(* ------------------------------------------------------------------ *)

(** A second call with the same long content is answered from the cache: the
    service receives nothing for it and the result has no [truncated] flag,
    although the content is longer than the maximum. *)
Lemma describeFile_cached_long_content_unflagged :
  let '(first, w1) := call answering longContent fresh in
  let '(second, w2) := call answering longContent w1 in
  (AiProse.MAX_CONTENT_SIZE <? length longContent) = true
  /\ length (AiProse.received w1) = 1
  /\ length (AiProse.received w2) = 1
  /\ AiProse.truncated first = Some true
  /\ AiProse.truncated second = None.
Proof. vm_compute. done. Qed.

Lemma describeFile_truncates_witness :
  misses checksum (lit "big.ts") longContent fresh
  /\ (let '(result, w') := call answering longContent fresh in
      AiProse.truncated result = Some true
      /\ exists opts,
           AiProse.received w' = [opts]
           /\ length (AiProse.fileContent opts) = AiProse.MAX_CONTENT_SIZE).
Proof.
  assert (Hmiss : misses checksum (lit "big.ts") longContent fresh)
    by (vm_compute; reflexivity).
  split; [exact Hmiss|].
  pose proof (describeFile_truncates checksum unit answering (lit "big.ts")
                longContent [] [] fresh Hmiss) as H.
  destruct (AiProse.describeFile _ _ _ _ _ _ _ _) as [result w'].
  destruct H as (opts & Hreceived & Hlong & _).
  assert (Hlen : AiProse.MAX_CONTENT_SIZE < length longContent).
  { unfold longContent. rewrite length_replicate. apply Nat.lt_succ_diag_r. }
  destruct (Hlong Hlen) as (_ & Hsize & Hflag).
  split; [exact Hflag|].
  exists opts. split; [exact Hreceived | exact Hsize].
Defined.

Lemma describeFile_second_call_cached_witness :
  misses checksum (lit "big.ts") (lit "let x = 1") fresh
  /\ (let '(first, w1) := call answering (lit "let x = 1") fresh in
      let '(second, w2) := call answering (lit "let x = 1") w1 in
      length (AiProse.received w2) = 1
      /\ AiProse.text second = Some (lit "A small module.")).
Proof.
  assert (Hmiss : misses checksum (lit "big.ts") (lit "let x = 1") fresh)
    by reflexivity.
  split; [exact Hmiss|].
  assert (Htext : lit "A small module." <> []) by discriminate.
  pose proof (describeFile_second_call_cached checksum unit answering
                (lit "big.ts") (lit "let x = 1") [] [] [] [] fresh
                (lit "A small module.") Hmiss eq_refl Htext) as H.
  destruct (AiProse.describeFile _ _ _ _ _ _ _ fresh) as [first w1].
  destruct (AiProse.describeFile _ _ _ _ _ _ _ w1) as [second w2].
  destruct H as (H1 & H2 & _ & _ & H5).
  split; [|exact H5]. by rewrite H2, H1.
Defined.

(** Where two calls with the same filename and content do not invoke the
    service exactly once.  Two calls that overlap, the second starting
    before the answer to the first has arrived, both miss the cache and both
    reach the service.  When the service answers the first call with an
    error, or with an empty text, nothing is cached and the second call,
    made after the first has resolved, reaches the service again.  When the
    text is in the cache before the first call, the service is not invoked
    at all. *)
Lemma describeFile_twice_not_once :
  (let '(first, w1) := asks answering (lit "let x = 1") fresh in
   let '(second, w2) := asks answering (lit "let x = 1") w1 in
   exists waiting1 waiting2,
     first = inr waiting1 /\ second = inr waiting2
     /\ let '(result1, w3) := settles waiting1 w2 in
        let '(result2, w4) := settles waiting2 w3 in
        length (AiProse.received w4) = 2
        /\ AiProse.text result1 = Some (lit "A small module.")
        /\ AiProse.text result2 = Some (lit "A small module."))
  /\ (let '(first, w1) := call failing (lit "let x = 1") fresh in
      let '(second, w2) := call failing (lit "let x = 1") w1 in
      length (AiProse.received w2) = 2 /\ AiProse.text second = None)
  /\ (let '(first, w1) := call silent (lit "let x = 1") fresh in
      let '(second, w2) := call silent (lit "let x = 1") w1 in
      length (AiProse.received w2) = 2)
  /\ (let '(earlier, w0) := call answering (lit "let x = 1") fresh in
      let '(first, w1) := call answering (lit "let x = 1") w0 in
      let '(second, w2) := call answering (lit "let x = 1") w1 in
      AiProse.received w2 = AiProse.received w0).
Proof.
  split; [|by vm_compute].
  vm_compute. eexists; eexists. split; [reflexivity|]. split; [reflexivity|].
  done.
Qed.

Lemma describeFile_error_not_cached_witness :
  misses checksum (lit "big.ts") (lit "let x = 1") fresh
  /\ (let '(first, w1) := call failing (lit "let x = 1") fresh in
      let '(second, w2) := call failing (lit "let x = 1") w1 in
      AiProse.cache w1 = AiProse.cache fresh
      /\ length (AiProse.received w2) = 2).
Proof.
  assert (Hmiss : misses checksum (lit "big.ts") (lit "let x = 1") fresh)
    by reflexivity.
  split; [exact Hmiss|].
  generalize (describeFile_error_not_cached checksum unit failing
                (lit "big.ts") (lit "let x = 1") [] [] [] [] fresh Hmiss).
  vm_compute. intros [H _]. destruct (H eq_refl) as [Hcache _].
  split; [exact Hcache | reflexivity].
Defined.

(* ------------------------------------------------------------------ *)
(** ** buildOutline: ids in pre-order *)
(* ------------------------------------------------------------------ *)

(** Induction on declarations, with the hypothesis for every child. *)
Lemma FileNode_forall_ind (P : FileNode -> Prop) :
  (forall node, Forall P (Types.children node) -> P node) ->
  forall node, P node.
Proof.
  intros step. fix IH 1. intros node. apply step.
  destruct node as [k n ps r a e kw f t kids cs]. cbn [Types.children].
  induction kids as [|kid kids IHkids]; constructor; [apply IH | exact IHkids].
Qed.

Lemma Numbered_set w seen node code depth :
  Numbered w seen ->
  forall lines,
  Numbered {| Outline.nextId := S (Outline.nextId w);
              Outline.nodeMap :=
                <[Outline.nextId w :=
                    {| Outline.fileNode := node; Outline.code := code;
                       Outline.depth := depth |}]> (Outline.nodeMap w);
              Outline.lines := lines |}
           (seen ++ [node]).
Proof.
  intros [Hnext Hzero Hids] lines. split; cbn [Outline.nextId Outline.nodeMap].
  - rewrite Hnext, length_app. simpl. lia.
  - rewrite Hnext, lookup_insert_ne by lia. exact Hzero.
  - intros i. rewrite Hnext.
    destruct (decide (i = length seen)) as [->|Hne].
    + rewrite lookup_insert_eq. cbn.
      by rewrite lookup_app_r, Nat.sub_diag by lia.
    + rewrite lookup_insert_ne by lia. rewrite Hids.
      destruct (decide (i < length seen)).
      * by rewrite lookup_app_l.
      * rewrite !lookup_ge_None_2; [done | rewrite length_app; simpl; lia | lia].
Qed.

Lemma Numbered_children source depth kids :
  Forall (fun kid => forall depth w seen,
            Numbered w seen ->
            Numbered (Outline.walkNode source kid depth w)
                     (seen ++ preorder kid)) kids ->
  forall w seen,
    Numbered w seen ->
    Numbered (fold_left (fun w child => Outline.walkNode source child depth w)
                        kids w)
             (seen ++ flat_map preorder kids).
Proof.
  induction 1 as [|kid kids Hkid _ IH]; intros w seen Hw; simpl.
  - by rewrite app_nil_r.
  - rewrite app_assoc. apply IH, Hkid, Hw.
Qed.

Lemma walkNode_eq source node depth w :
  Outline.walkNode source node depth w =
  fold_left (fun w child => Outline.walkNode source child (depth + 1) w)
    (Types.children node)
    {| Outline.nextId := S (Outline.nextId w);
       Outline.nodeMap :=
         <[Outline.nextId w :=
             {| Outline.fileNode := node;
                Outline.code := slice source (Types.from node) (Types.to node);
                Outline.depth := depth |}]> (Outline.nodeMap w);
       Outline.lines :=
         Outline.lines w
         ++ [Outline.indentOf depth ++ Outline.labelOf node
               ++ Outline.linesRange source (Types.from node) (Types.to node);
             Outline.indentOf depth ++ lit "  "
               ++ Outline.previewOf
                    (slice source (Types.from node) (Types.to node))] |}.
Proof. destruct node. reflexivity. Qed.

Lemma preorder_eq node :
  preorder node = node :: flat_map preorder (Types.children node).
Proof. destruct node. reflexivity. Qed.

Lemma Numbered_walkNode source node :
  forall depth w seen,
    Numbered w seen ->
    Numbered (Outline.walkNode source node depth w) (seen ++ preorder node).
Proof.
  induction node as [node IH] using FileNode_forall_ind.
  intros depth w seen Hw.
  rewrite walkNode_eq, preorder_eq.
  change (node :: ?l) with ([node] ++ l). rewrite (app_assoc seen [node]).
  apply Numbered_children; [exact IH|].
  by apply Numbered_set.
Qed.

Lemma Numbered_buildWalk structure doc :
  Numbered (Outline.buildWalk structure doc) (visitOrder structure).
Proof.
  unfold Outline.buildWalk, visitOrder.
  apply Numbered_children.
  - apply Forall_forall. intros kid _. apply Numbered_walkNode.
  - unfold Outline.groupImports.
    assert (H0 : Numbered {| Outline.nextId := 1; Outline.lines := [];
                             Outline.nodeMap := ∅ |} []).
    { split; [done | done |]. intros i. cbn. by rewrite lookup_empty. }
    destruct (Types.imports structure) as [|imp imps] eqn:E; [exact H0|].
    apply (Numbered_set _ [] _ _ _ H0).
Qed.

(** C5: the ids [buildOutline] assigns are 1, 2, 3, ... in the order of the
    visits: no entry has id 0, and the entry with id [i + 1] holds the
    [i]-th node of the pre-order walk (each declaration before its children,
    children and top-level declarations from left to right), with no entry
    beyond the last node.  When there are imports, the synthesized imports
    node is visited first and so has id 1. *)
Theorem buildOutline_ids_preorder (structure : FileStructure) (doc : jsstring) :
  let index := Outline.index (Outline.buildOutline structure doc) in
  index !! 0 = None
  /\ (forall i, Outline.fileNode <$> index !! S i = visitOrder structure !! i)
  /\ match Types.imports structure with
     | [] => True
     | _ :: _ =>
         Outline.fileNode <$> index !! 1
         = Some (Outline.syntheticNode (Types.imports structure))
     end.
Proof.
  destruct (Numbered_buildWalk structure doc) as [_ Hzero Hids].
  cbn [Outline.index Outline.buildOutline].
  split; [exact Hzero|]. split; [exact Hids|].
  rewrite Hids. unfold visitOrder.
  by destruct (Types.imports structure).
Qed.

(* ------------------------------------------------------------------ *)
(** ** The child summary stops at nested functions *)
(* ------------------------------------------------------------------ *)

(** Induction on parse trees, with the hypothesis for every child. *)
Lemma SyntaxNode_forall_ind (P : SyntaxNode -> Prop) :
  (forall name from to kids, Forall P kids -> P (Node name from to kids)) ->
  forall node, P node.
Proof.
  intros step. fix IH 1. intros [name from to kids]. apply step.
  induction kids as [|kid kids IHkids]; constructor; [apply IH | exact IHkids].
Qed.

Lemma hideNested_name node : Tree.name (hideNested node) = Tree.name node.
Proof. by destruct node. Qed.

Lemma hideNested_text doc node :
  Extractor.textOf doc (hideNested node) = Extractor.textOf doc node.
Proof. by destruct node. Qed.

Lemma includes_In (l : list jsstring) x : includes l x = true <-> In x l.
Proof.
  unfold includes. rewrite existsb_exists. split.
  - intros (y & Hy & E). apply bool_decide_eq_true in E. by subst.
  - intros H. exists x. split; [done|]. by apply bool_decide_eq_true.
Qed.

(** A tag at which the walk stops is not the tag of a call. *)
Lemma skip_not_call tag :
  includes Extractor.skip tag = true -> Extractor.isCall tag = false.
Proof.
  intros H. apply includes_In in H. cbn in H.
  repeat (destruct H as [<-|H]; [reflexivity|]). done.
Qed.

Lemma countNode_hideNested doc node summary :
  Extractor.countNode doc (hideNested node) summary
  = Extractor.countNode doc node summary.
Proof.
  unfold Extractor.countNode. rewrite hideNested_name. f_equal. f_equal.
  destruct (Extractor.isCall (Tree.name node)) eqn:E; [|done].
  destruct node as [name from to kids]. cbn [Tree.name] in E.
  cbn [hideNested].
  destruct (includes Extractor.skip name) eqn:S.
  - apply skip_not_call in S. congruence.
  - unfold Tree.firstChild. cbn [Tree.children].
    destruct kids as [|kid kids]; [done|]. cbn [map head].
    by rewrite hideNested_text.
Qed.

Lemma walkForSummary_eq doc node summary :
  Extractor.walkForSummary doc node summary =
  if includes Extractor.skip (Tree.name node)
  then Extractor.countNode doc node summary
  else fold_left (fun s child => Extractor.walkForSummary doc child s)
                 (Tree.children node) (Extractor.countNode doc node summary).
Proof. by destruct node. Qed.

Lemma fold_walk_hideNested doc kids :
  Forall (fun kid => forall summary,
            Extractor.walkForSummary doc (hideNested kid) summary
            = Extractor.walkForSummary doc kid summary) kids ->
  forall summary,
    fold_left (fun s child => Extractor.walkForSummary doc child s)
              (map hideNested kids) summary
    = fold_left (fun s child => Extractor.walkForSummary doc child s)
                kids summary.
Proof.
  induction 1 as [|kid kids Hkid _ IH]; intros summary; [done|].
  cbn [map fold_left]. by rewrite Hkid, IH.
Qed.

Lemma walkForSummary_hideNested doc node :
  forall summary,
    Extractor.walkForSummary doc (hideNested node) summary
    = Extractor.walkForSummary doc node summary.
Proof.
  induction node as [name from to kids IH] using SyntaxNode_forall_ind.
  intros summary. rewrite !walkForSummary_eq.
  rewrite hideNested_name, countNode_hideNested.
  cbn [Tree.name Tree.children hideNested].
  destruct (includes Extractor.skip name); [done|].
  by apply fold_walk_hideNested.
Qed.

(** The summary of a node reads nothing below a nested function-like node. *)
Lemma buildChildSummary_hideNested doc name from to kids :
  Extractor.buildChildSummary doc (Node name from to kids)
  = Extractor.buildChildSummary doc (Node name from to (map hideNested kids)).
Proof.
  unfold Extractor.buildChildSummary. cbn [Tree.children].
  rewrite fold_walk_hideNested; [done|].
  apply Forall_forall. intros kid _. apply walkForSummary_hideNested.
Qed.

Lemma buildFileNode_childSummary doc lang at_ node decl :
  Extractor.buildFileNode doc lang at_ node = Some decl ->
  Extractor.classifyNode node lang = Some (Types.kind decl)
  /\ Types.childSummary decl =
     if Extractor.isBodied (Types.kind decl)
     then Extractor.buildChildSummary doc node else Extractor.emptySummary.
Proof.
  destruct node as [name from to kids]. cbn [Extractor.buildFileNode].
  destruct (Extractor.classifyNode _ lang) as [kind|]; [|done].
  intros [= <-]. done.
Qed.

(** C4: the child summary of a function or class declaration is the summary
    of its node with the inside of every nested function-like node removed:
    the walk visits a nested function-like node but nothing below it, so the
    calls, conditions, loops and returns of an inner function are not
    counted.  The tags at which the walk stops are the function tags of the
    classifier.  For [function outer() { function inner() { bar(); } foo(); }]
    the summary of [outer] has one call, to [foo] (and [inner], its child,
    has one call, to [bar]). *)
Theorem childSummary_scope_boundary :
  (forall doc lang at_ node decl,
      Extractor.buildFileNode doc lang at_ node = Some decl ->
      Extractor.isBodied (Types.kind decl) = true ->
      Types.childSummary decl =
      Extractor.buildChildSummary doc
        (Node (Tree.name node) (Tree.from node) (Tree.to node)
              (map hideNested (Tree.children node))))
  /\ (forall tag,
        includes Extractor.skip tag
        = existsb (fun row => includes row.2 tag) Extractor.funcNodes)
  /\ (Types.childSummary <$> Types.declarations ScopeExample.structure
      = [ScopeExample.summaryOf 1 [lit "foo"]]
      /\ (fun outer => Types.childSummary <$> Types.children outer)
           <$> Types.declarations ScopeExample.structure
         = [[ScopeExample.summaryOf 1 [lit "bar"]]]).
Proof.
  split; [|split].
  - intros doc lang at_ node decl Hbuilt Hbodied.
    apply buildFileNode_childSummary in Hbuilt as [_ ->]. rewrite Hbodied.
    destruct node as [name from to kids]. apply buildChildSummary_hideNested.
  - intros tag. unfold includes. cbn [existsb Extractor.skip Extractor.funcNodes
      Extractor.table lits map snd].
    repeat match goal with |- context [eqb tag ?x] => destruct (eqb tag x) end;
      reflexivity.
  - split; vm_compute; reflexivity.
Qed.

Lemma childSummary_scope_boundary_witness :
  Extractor.buildFileNode (Tree.document ScopeExample.source) (lit "js")
    {| Tree.parent := Some (lit "Script"); Tree.prevSibling := None |}
    ScopeExample.outer <> None
  /\ Types.childSummary <$>
       Extractor.buildFileNode (Tree.document ScopeExample.source) (lit "js")
         {| Tree.parent := Some (lit "Script"); Tree.prevSibling := None |}
         ScopeExample.outer
     = Some (ScopeExample.summaryOf 1 [lit "foo"]).
Proof.
  destruct (Extractor.buildFileNode _ _ _ ScopeExample.outer) as [decl|] eqn:E;
    [|vm_compute in E; discriminate].
  split; [discriminate|]. cbn [fmap option_fmap option_map]. f_equal.
  assert (Hkind : Extractor.isBodied (Types.kind decl) = true).
  { vm_compute in E. by injection E as <-. }
  rewrite (proj1 childSummary_scope_boundary _ _ _ _ decl E Hkind).
  vm_compute. reflexivity.
Defined.

(* ------------------------------------------------------------------ *)
(** ** Concept instances do not overlap *)
(* ------------------------------------------------------------------ *)

Lemma lined_bounds lo hi l : lined lo hi l -> lo <= hi.
Proof.
  revert lo. induction l as [|a l IH]; intros lo; simpl; [done|].
  intros (H1 & H2 & H3). apply IH in H3. lia.
Qed.

Lemma lined_app lo mid hi l1 l2 :
  lined lo mid l1 -> lined mid hi l2 -> lined lo hi (l1 ++ l2).
Proof.
  revert lo. induction l1 as [|a l1 IH]; intros lo; simpl.
  - intros H1 H2. destruct l2 as [|b l2]; simpl in *.
    + lia.
    + destruct H2 as (? & ? & ?). repeat split; [lia | done | done].
  - intros (H1 & H2 & H3) H4. repeat split; [done | done |]. by apply IH.
Qed.

Lemma lined_widen lo lo' hi hi' l :
  lined lo hi l -> lo' <= lo -> hi <= hi' -> lined lo' hi' l.
Proof.
  revert lo lo'. induction l as [|a l IH]; intros lo lo'; simpl.
  - lia.
  - intros (H1 & H2 & H3) Hlo Hhi. repeat split; [lia | done |].
    by apply (IH (Concepts.to a)).
Qed.

(** In a line of records, a record ends before any later one begins. *)
Lemma lined_before lo hi l i j a b :
  lined lo hi l -> i < j -> l !! i = Some a -> l !! j = Some b ->
  Concepts.to a <= Concepts.from b.
Proof.
  revert lo i j. induction l as [|c l IH]; intros lo i j; [done|].
  simpl. intros (H1 & H2 & H3) Hij Hi Hj.
  destruct j as [|j]; [lia|]. cbn in Hj.
  destruct i as [|i].
  - injection Hi as ->.
    clear IH. revert H3 Hj. generalize (Concepts.to a). clear.
    revert j. induction l as [|c l IH]; intros j lo; [done|].
    simpl. intros (H1 & H2 & H3). destruct j as [|j]; cbn.
    + intros [= ->]. done.
    + intros Hj. specialize (IH j _ H3 Hj). lia.
  - cbn in Hi. apply (IH (Concepts.to c) i j); [done | lia | done | done].
Qed.

Lemma iterate_eq doc node :
  Concepts.iterate doc node =
  match Concepts.conceptMap (Tree.name node) with
  | Some category =>
      if truthy category then
        [{| Concepts.category := category;
            Concepts.nodeName := Tree.name node;
            Concepts.from := Tree.from node; Concepts.to := Tree.to node;
            Concepts.text :=
              Tree.sliceString doc (Tree.from node) (Tree.to node);
            Concepts.line := Tree.lineNumberAt doc (Tree.from node) |}]
      else flat_map (Concepts.iterate doc) (Tree.children node)
  | None => flat_map (Concepts.iterate doc) (Tree.children node)
  end.
Proof. by destruct node. Qed.

Lemma wellFormed_eq node :
  wellFormed node =
  inOrder (Tree.from node) (Tree.to node) (Tree.children node)
  && forallb wellFormed (Tree.children node).
Proof. by destruct node. Qed.

Lemma lined_children doc kids :
  Forall (fun kid => wellFormed kid = true ->
            lined (Tree.from kid) (Tree.to kid) (Concepts.iterate doc kid)) kids ->
  forall lo hi,
    inOrder lo hi kids = true -> forallb wellFormed kids = true ->
    lined lo hi (flat_map (Concepts.iterate doc) kids).
Proof.
  induction 1 as [|kid kids Hkid _ IH]; intros lo hi Horder Hwf.
  - simpl in *. by apply Nat.leb_le.
  - cbn [inOrder forallb] in *.
    apply andb_prop in Horder as [Horder Hrest].
    apply andb_prop in Horder as [Hlo Hspan].
    apply andb_prop in Hwf as [Hwf Hwfs].
    apply Nat.leb_le in Hlo. cbn [flat_map].
    apply lined_app with (Tree.to kid).
    + apply lined_widen with (Tree.from kid) (Tree.to kid); [by apply Hkid | done | done].
    + by apply IH.
Qed.

Lemma lined_iterate doc node :
  wellFormed node = true ->
  lined (Tree.from node) (Tree.to node) (Concepts.iterate doc node).
Proof.
  induction node as [name from to kids IH] using SyntaxNode_forall_ind.
  rewrite wellFormed_eq, iterate_eq. cbn [Tree.from Tree.to Tree.children Tree.name].
  intros Hwf. apply andb_prop in Hwf as [Horder Hwf].
  assert (Hkids : lined from to (flat_map (Concepts.iterate doc) kids))
    by by apply lined_children.
  destruct (Concepts.conceptMap name) as [category|]; [|done].
  destruct (truthy category); [|done].
  apply lined_bounds in Hkids. simpl. lia.
Qed.

(** C7: in a well-formed parse tree any two concept instances have disjoint
    spans, so they are disjoint or strictly nested and never partially
    overlap; the traversal records a node that has a category and does not
    enter it: such a node yields one record, whatever lies below it. *)
Theorem concept_instances_do_not_overlap
  (doc : Text) (topNode : SyntaxNode) (Hwf : wellFormed topNode = true) :
  (forall i j a b,
      i <> j ->
      Concepts.extractConcepts doc topNode !! i = Some a ->
      Concepts.extractConcepts doc topNode !! j = Some b ->
      (disjoint a b \/ strictlyInside a b \/ strictlyInside b a)
      /\ ~ partiallyOverlap a b)
  /\ (forall name from to kids category,
        Concepts.conceptMap name = Some category ->
        Concepts.iterate doc (Node name from to kids)
        = Concepts.iterate doc (Node name from to [])).
Proof.
  split.
  - intros i j a b Hij Ha Hb.
    pose proof (lined_iterate doc topNode Hwf) as Hline.
    unfold Concepts.extractConcepts in *.
    assert (Hd : disjoint a b).
    { destruct (decide (i < j)).
      - left. by eapply lined_before.
      - right. eapply lined_before; [exact Hline | | exact Hb | exact Ha]. lia. }
    split; [by left|].
    unfold disjoint, partiallyOverlap in *. lia.
  - intros name from to kids category Hcat. cbn [Concepts.iterate].
    rewrite Hcat.
    assert (Ht : truthy category = true); [|by rewrite Ht].
    revert Hcat. unfold Concepts.conceptMap. cbn [fold_left Concepts.categories].
    repeat match goal with
           | |- context [includes ?l name] => destruct (includes l name)
           end; intros [= <-]; reflexivity.
Qed.

Lemma concept_instances_do_not_overlap_witness :
  wellFormed ConceptExample.script = true
  /\ (Concepts.nodeName
        <$> Concepts.extractConcepts (Tree.document ConceptExample.source)
                                     ConceptExample.script
      = [lit "CallExpression"; lit "CallExpression"])
  /\ forall a b,
       Concepts.extractConcepts (Tree.document ConceptExample.source)
                                ConceptExample.script !! 0 = Some a ->
       Concepts.extractConcepts (Tree.document ConceptExample.source)
                                ConceptExample.script !! 1 = Some b ->
       ~ partiallyOverlap a b.
Proof.
  split; [reflexivity|]. split; [reflexivity|].
  intros a b Ha Hb.
  exact (proj2 (proj1 (concept_instances_do_not_overlap
                         (Tree.document ConceptExample.source)
                         ConceptExample.script eq_refl)
                      0 1 a b (O_S 0) Ha Hb)).
Defined.

(* ------------------------------------------------------------------ *)
(** ** Export wrappers *)
(* ------------------------------------------------------------------ *)

(** Only the [isExported] flag of a built node depends on where the node
    sits. *)
Lemma buildFileNode_place doc lang at1 at2 node :
  Types.withExported true <$> Extractor.buildFileNode doc lang at1 node
  = Types.withExported true <$> Extractor.buildFileNode doc lang at2 node.
Proof.
  destruct node as [name from to kids]. cbn [Extractor.buildFileNode].
  destruct (Extractor.classifyNode _ lang); reflexivity.
Qed.

Lemma buildFileNode_classified doc lang at_ node :
  Types.kind <$> Extractor.buildFileNode doc lang at_ node
  = Extractor.classifyNode node lang.
Proof.
  destruct node as [name from to kids]. cbn [Extractor.buildFileNode].
  destruct (Extractor.classifyNode _ lang); reflexivity.
Qed.

Lemma addExported_spec fileNode structure :
  let node := Types.withExported true fileNode in
  let structure' := Extractor.addExported fileNode structure in
  Types.imports structure' = Types.imports structure ++ filter isImport [node]
  /\ Types.declarations structure'
     = Types.declarations structure ++ filter (fun n => ~ isImport n) [node]
  /\ Types.exports structure'
     = Types.exports structure ++ [Types.withKind Kexport node]
  /\ Types.language structure' = Types.language structure.
Proof.
  cbv zeta. unfold Extractor.addExported.
  rewrite !filter_cons, !filter_nil. unfold isImport.
  change (Types.kind (Types.withExported true fileNode))
    with (Types.kind fileNode).
  destruct (decide (Types.kind fileNode = Kimport)) as [Hk|Hk].
  - rewrite decide_False by tauto. cbn. by rewrite ?app_nil_r.
  - rewrite decide_True by tauto. cbn. by rewrite ?app_nil_r.
Qed.

Lemma omap_cons {A B} (f : A -> option B) x l :
  omap f (x :: l) = option_list (f x) ++ omap f l.
Proof. cbn. by destruct (f x). Qed.

Lemma walkExported_spec doc lang wrapper inners :
  forall prev structure,
    let inner := omap (exported doc lang) inners in
    let structure' :=
      Extractor.walkExported doc lang wrapper prev inners structure in
    Types.imports structure'
      = Types.imports structure ++ filter isImport inner
    /\ Types.declarations structure'
       = Types.declarations structure ++ filter (fun n => ~ isImport n) inner
    /\ Types.exports structure'
       = Types.exports structure ++ map (Types.withKind Kexport) inner
    /\ Types.language structure' = Types.language structure.
Proof.
  induction inners as [|child rest IH]; intros prev structure.
  - cbn. by rewrite !app_nil_r.
  - cbv zeta. rewrite omap_cons. cbn [Extractor.walkExported].
    assert (Hex : exported doc lang child
                  = Types.withExported true
                      <$> Extractor.buildFileNode doc lang
                            {| Tree.parent := Some wrapper;
                               Tree.prevSibling := prev |} child)
      by apply buildFileNode_place.
    rewrite Hex. clear Hex.
    destruct (Extractor.buildFileNode doc lang _ child) as [fileNode|];
      cbn [fmap option_fmap option_map option_list]; [|apply IH].
    match goal with
    | |- context [Extractor.walkExported _ _ _ ?p rest ?s] =>
        destruct (IH p s) as (Hi & Hd & He & Hl)
    end.
    rewrite Hi, Hd, He, Hl.
    destruct (addExported_spec fileNode structure) as (Hi' & Hd' & He' & Hl').
    rewrite Hi', Hd', He', Hl'.
    rewrite !filter_app, map_app, <- !app_assoc. done.
Qed.

Lemma exportedInner_nil doc lang wrapper :
  exportedInner doc lang wrapper = [] <->
  Forall (fun inner => Extractor.classifyNode inner lang = None)
         (Tree.children wrapper).
Proof.
  unfold exportedInner.
  induction (Tree.children wrapper) as [|child rest IH]; [done|].
  cbn [omap list_omap]. unfold exported at 1.
  pose proof (buildFileNode_classified doc lang
                {| Tree.parent := Some (lit "ExportDeclaration");
                   Tree.prevSibling := None |} child) as Hk.
  destruct (Extractor.buildFileNode _ _ _ child) as [fileNode|];
    cbn [fmap option_fmap option_map] in *.
  - split; [done|]. intros H. inversion H; congruence.
  - rewrite IH. split; [by constructor | by inversion 1].
Qed.

Lemma exported_kinds doc lang (kids : list SyntaxNode) :
  Types.kind <$> omap (exported doc lang) kids
  = omap (fun child => Extractor.classifyNode child lang) kids.
Proof.
  induction kids as [|child rest IH]; [done|].
  rewrite !omap_cons, fmap_app, IH. f_equal.
  unfold exported.
  rewrite <- (buildFileNode_classified doc lang
                {| Tree.parent := Some (lit "ExportDeclaration");
                   Tree.prevSibling := None |} child).
  by destruct (Extractor.buildFileNode _ _ _ child).
Qed.

Lemma exported_flags doc lang (kids : list SyntaxNode) :
  Forall (fun n => Types.isExported n = true) (omap (exported doc lang) kids).
Proof.
  induction kids as [|child rest IH]; [constructor|].
  rewrite omap_cons. apply Forall_app. split; [|exact IH].
  unfold exported.
  destruct (Extractor.buildFileNode _ _ _ child); repeat constructor.
Qed.

(** What processing one top-level export wrapper adds to the structure.
    Every classifiable child of the wrapper is built, marked
    [isExported = true], and appended to [imports] if its kind is import and
    to [declarations] otherwise; for each of them one copy with kind [export]
    is appended to [exports].  The node of the wrapper itself follows them in
    [exports] when the wrapper is classifiable and its first child is
    missing or not classifiable, whatever the other children are. *)
Lemma walkJsNode_export_wrapper
  (doc : Text) (lang : jsstring) (at_ : Place) (wrapper : SyntaxNode)
  (structure : FileStructure)
  (Hwrapper : Tree.name wrapper = lit "ExportDeclaration") :
  let inner := exportedInner doc lang wrapper in
  let structure' := Extractor.walkJsNode doc lang at_ wrapper structure in
  Types.kind <$> inner
    = omap (fun child => Extractor.classifyNode child lang)
           (Tree.children wrapper)
  /\ Forall (fun n => Types.isExported n = true) inner
  /\ Types.imports structure'
     = Types.imports structure ++ filter isImport inner
  /\ Types.declarations structure'
     = Types.declarations structure ++ filter (fun n => ~ isImport n) inner
  /\ Types.exports structure'
     = Types.exports structure ++ map (Types.withKind Kexport) inner
       ++ (if match Tree.firstChild wrapper with
              | Some first =>
                  bool_decide (Extractor.classifyNode first lang = None)
              | None => true
              end
           then option_list (Extractor.buildFileNode doc lang at_ wrapper)
           else []).
Proof.
  cbv zeta. unfold Extractor.walkJsNode.
  rewrite Hwrapper. rewrite (bool_decide_eq_true_2 _ eq_refl : eqb _ _ = true).
  destruct (walkExported_spec doc lang (lit "ExportDeclaration")
              (Tree.children wrapper) None structure) as (Hi & Hd & He & Hl).
  fold (exportedInner doc lang wrapper) in Hi, Hd, He.
  set (walked := Extractor.walkExported _ _ _ _ _ _) in *.
  split; [apply exported_kinds|]. split; [apply exported_flags|].
  destruct (match Tree.firstChild wrapper with
            | Some first => bool_decide (Extractor.classifyNode first lang = None)
            | None => true
            end).
  - destruct (Extractor.buildFileNode doc lang at_ wrapper);
      cbn [Types.pushExport Types.imports Types.declarations Types.exports
           option_list];
      rewrite Hi, Hd, He, ?app_nil_r, <- ?app_assoc; done.
  - by rewrite Hi, Hd, He, app_nil_r.
Qed.

(** C1: the wrapper is appended although it has a classifiable inner child.
    In the file [export function foo() {}] the children of the export
    wrapper are the [export] keyword and the function; the function is
    classifiable, it is declared once, exported, and [exports] gets its copy.
    The first child, the keyword, is not classifiable, and that is all the
    extractor looks at before it appends the node of the wrapper as well:
    [exports] ends with a second node, the one built for the wrapper. *)
Theorem export_wrapper_appended_after_inner :
  let doc := Tree.document ExportExample.functionSource in
  let wrapper := ExportExample.exportedFunction in
  let structure :=
    Extractor.extractFileStructure doc (lit "js") ExportExample.script in
  omap (fun child => Extractor.classifyNode child (lit "js"))
       (Tree.children wrapper) = [Kfunction]
  /\ (fun first => Extractor.classifyNode first (lit "js"))
       <$> Tree.firstChild wrapper = Some None
  /\ ExportExample.brief (Types.declarations structure)
     = [(Kfunction, lit "foo", true, 7)]
  /\ ExportExample.brief (Types.exports structure)
     = [(Kexport, lit "foo", true, 7); (Kexport, lit "foo", false, 0)]
  /\ last (Types.exports structure)
     = Extractor.buildFileNode doc (lit "js") ExportExample.place wrapper.
Proof. vm_compute. done. Qed.

(* ------------------------------------------------------------------ *)
(** ** buildFileNode as the source writes it, and what it builds *)
(* ------------------------------------------------------------------ *)

Lemma firstNamed_map {A} (f : SyntaxNode -> A) key kids :
  Extractor.firstNamed key (map (fun c => (Tree.name c, f c)) kids)
  = f <$> Tree.getChild key (Node [] 0 0 kids).
Proof.
  unfold Extractor.firstNamed, Tree.getChild. cbn [Tree.children].
  induction kids as [|kid kids IH]; [done|].
  cbn [map find fst]. destruct (eqb (Tree.name kid) key); [done | exact IH].
Qed.

Lemma getChild_kids key name from to kids :
  Tree.getChild key (Node name from to kids) = Tree.getChild key (Node [] 0 0 kids).
Proof. reflexivity. Qed.

Lemma buildChildren_fix doc lang body cs :
  forall prev,
    (fix each (prev : option jsstring) (cs : list SyntaxNode) {struct cs}
       : list FileNode :=
       match cs with
       | [] => []
       | child :: rest =>
           match Extractor.buildFileNode doc lang
                   {| Tree.parent := Some body; Tree.prevSibling := prev |}
                   child with
           | Some childNode => childNode :: each (Some (Tree.name child)) rest
           | None => each (Some (Tree.name child)) rest
           end
       end) prev cs
    = buildChildren doc lang body prev cs.
Proof.
  induction cs as [|child rest IH]; intros prev; [done|].
  cbn [buildChildren]. rewrite <- IH. reflexivity.
Qed.

(** The model of [buildFileNode] is the source's: classify, read the
    fields, then loop over the children of the body. *)
Lemma buildFileNode_unfold doc lang at_ node :
  Extractor.buildFileNode doc lang at_ node =
  match Extractor.classifyNode node lang with
  | None => None
  | Some kind =>
      Some (mkFileNode kind (Extractor.extractName doc lang node)
              (if decide (kind = Kfunction)
               then Extractor.extractParams doc node else [])
              (if decide (kind = Kfunction)
               then Extractor.extractReturnType doc node else None)
              (Extractor.isAsync doc node) (Extractor.isExported at_)
              (Extractor.extractKeyword doc node)
              (Tree.from node) (Tree.to node)
              (if Extractor.isBodied kind then
                 match bodyOf node with
                 | Some body =>
                     buildChildren doc lang (Tree.name body) None
                                   (Tree.children body)
                 | None => []
                 end
               else [])
              (if Extractor.isBodied kind
               then Extractor.buildChildSummary doc node
               else Extractor.emptySummary))
  end.
Proof.
  destruct node as [name from to kids]. cbn [Extractor.buildFileNode].
  destruct (Extractor.classifyNode _ lang) as [kind|]; [|done].
  f_equal. f_equal.
  destruct (Extractor.isBodied kind); [|done].
  rewrite !firstNamed_map.
  unfold bodyOf, Extractor.getChildOf. cbn [fold_left].
  rewrite !(getChild_kids _ name from to kids).
  destruct (Tree.getChild (lit "Block") _) as [body|];
    [apply buildChildren_fix|].
  destruct (Tree.getChild (lit "Body") _) as [body|];
    [apply buildChildren_fix|].
  destruct (Tree.getChild (lit "ClassBody") _) as [body|];
    [apply buildChildren_fix|].
  destruct (Tree.getChild (lit "DeclarationList") _) as [body|];
    [apply buildChildren_fix | done].
Qed.

Lemma getChild_elem key node child :
  Tree.getChild key node = Some child ->
  child ∈ Tree.children node /\ Tree.name child = key.
Proof.
  unfold Tree.getChild. intros H. apply find_some in H as [Hin Heq].
  split; [by apply list_elem_of_In | by apply bool_decide_eq_true in Heq].
Qed.

Lemma getChildOf_elem types node child :
  Extractor.getChildOf types node = Some child ->
  child ∈ Tree.children node.
Proof.
  unfold Extractor.getChildOf.
  assert (H : forall found : option SyntaxNode,
             (forall c, found = Some c -> c ∈ Tree.children node) ->
             fold_left (fun found ty => found <|> Tree.getChild (lit ty) node)
                       types found = Some child ->
             child ∈ Tree.children node).
  { induction types as [|ty types IH]; intros found Hfound; cbn [fold_left].
    - apply Hfound.
    - apply IH. intros c. destruct found as [f|]; cbn [orElse].
      + apply Hfound.
      + intros Hc. by apply getChild_elem in Hc as [Hc _]. }
  apply H. done.
Qed.

Lemma buildChildren_sources doc lang body cs :
  forall prev,
    Forall (fun childNode =>
              exists child at_,
                child ∈ cs
                /\ Extractor.buildFileNode doc lang at_ child = Some childNode)
           (buildChildren doc lang body prev cs).
Proof.
  induction cs as [|child rest IH]; intros prev; cbn [buildChildren];
    [constructor|].
  assert (Hrest : Forall (fun childNode =>
                    exists c at_, c ∈ child :: rest
                      /\ Extractor.buildFileNode doc lang at_ c = Some childNode)
                    (buildChildren doc lang body (Some (Tree.name child)) rest)).
  { eapply Forall_impl; [apply IH|]. intros x (c & a & Hc & Hb).
    exists c, a. split; [by right | done]. }
  destruct (Extractor.buildFileNode doc lang _ child) as [childNode|] eqn:E;
    [|exact Hrest].
  constructor; [|exact Hrest]. eexists child, _. split; [by left | exact E].
Qed.

(** Induction on what [buildFileNode] builds: a property of a built
    declaration follows from the same property of its children, each built
    from a child of the body of the node. *)
Lemma buildFileNode_children_ind (doc : Text) (lang : jsstring)
  (Good : SyntaxNode -> FileNode -> Prop) :
  (forall at_ node decl,
      Extractor.buildFileNode doc lang at_ node = Some decl ->
      Forall (fun childNode =>
                exists body child at',
                  bodyOf node = Some body /\ child ∈ Tree.children body
                  /\ Extractor.buildFileNode doc lang at' child = Some childNode
                  /\ Good child childNode)
             (Types.children decl) ->
      Good node decl) ->
  forall node at_ decl,
    Extractor.buildFileNode doc lang at_ node = Some decl -> Good node decl.
Proof.
  intros step.
  set (Q := fun node => forall at_ decl,
             Extractor.buildFileNode doc lang at_ node = Some decl ->
             Good node decl).
  assert (H : forall node, Q node /\ Forall Q (Tree.children node)).
  { induction node as [name from to kids IH] using SyntaxNode_forall_ind.
    assert (Hkids : Forall Q kids).
    { eapply Forall_impl; [exact IH|]. by intros kid [Hk _]. }
    split; [|exact Hkids].
    intros at_ decl Hbuilt. apply (step at_ _ _ Hbuilt).
    rewrite buildFileNode_unfold in Hbuilt.
    destruct (Extractor.classifyNode _ lang) as [kind|]; [|done].
    injection Hbuilt as <-. cbn [Types.children].
    destruct (Extractor.isBodied kind); [|constructor].
    destruct (bodyOf (Node name from to kids)) as [body|] eqn:Hbody;
      [|constructor].
    pose proof (getChildOf_elem _ _ _ Hbody) as Hin. cbn [Tree.children] in Hin.
    assert (Hgrand : Forall Q (Tree.children body)).
    { rewrite Forall_forall in IH. by destruct (IH body Hin). }
    eapply Forall_impl; [apply buildChildren_sources|].
    intros childNode (child & a & Hchild & Hb). exists body, child, a.
    split; [done|]. split; [done|]. split; [done|].
    rewrite Forall_forall in Hgrand. by apply (Hgrand child Hchild a). }
  intros node. apply H.
Qed.

Lemma buildFileNode_span doc lang at_ node decl :
  Extractor.buildFileNode doc lang at_ node = Some decl ->
  Types.from decl = Tree.from node /\ Types.to decl = Tree.to node.
Proof.
  rewrite buildFileNode_unfold.
  destruct (Extractor.classifyNode _ lang); [|done]. by intros [= <-].
Qed.

Lemma inOrder_within lo hi kids :
  inOrder lo hi kids = true ->
  lo <= hi
  /\ Forall (fun kid => lo <= Tree.from kid /\ Tree.from kid <= Tree.to kid
                        /\ Tree.to kid <= hi) kids.
Proof.
  revert lo. induction kids as [|kid kids IH]; intros lo; cbn [inOrder].
  - intros H. apply Nat.leb_le in H. split; [done | constructor].
  - intros H. apply andb_prop in H as [H Hrest].
    apply andb_prop in H as [Hlo Hspan].
    apply Nat.leb_le in Hlo. apply Nat.leb_le in Hspan.
    destruct (IH _ Hrest) as [Hhi Hkids].
    split; [lia|]. constructor; [lia|].
    eapply Forall_impl; [exact Hkids|]. intros k (? & ? & ?). lia.
Qed.

Lemma wellFormed_children node :
  wellFormed node = true ->
  Tree.from node <= Tree.to node
  /\ Forall (fun kid => Tree.from node <= Tree.from kid
                        /\ Tree.to kid <= Tree.to node
                        /\ wellFormed kid = true) (Tree.children node).
Proof.
  rewrite wellFormed_eq. intros H. apply andb_prop in H as [Horder Hwf].
  apply inOrder_within in Horder as [Hspan Hkids]. split; [done|].
  rewrite forallb_forall in Hwf. rewrite Forall_forall in Hkids.
  apply Forall_forall. intros kid Hkid.
  destruct (Hkids kid Hkid) as (? & ? & ?).
  repeat split; [lia | lia |]. apply Hwf. by apply list_elem_of_In.
Qed.

Lemma buildFileNode_nested doc lang at_ node decl :
  wellFormed node = true ->
  Extractor.buildFileNode doc lang at_ node = Some decl ->
  spansNested decl = true.
Proof.
  intros Hwf Hbuilt. revert Hwf.
  apply (buildFileNode_children_ind doc lang
           (fun node decl => wellFormed node = true -> spansNested decl = true))
    with (at_ := at_); [|exact Hbuilt].
  clear. intros at_ node decl Hbuilt Hchildren Hwf.
  destruct (buildFileNode_span _ _ _ _ _ Hbuilt) as [Hfrom Hto].
  destruct (wellFormed_children node Hwf) as [Hspan Hkids].
  destruct decl as [k n ps r a e kw f t kids cs]. cbn [spansNested].
  cbn [Types.from Types.to Types.children] in *. subst f t.
  apply andb_true_intro. split; [by apply Nat.leb_le|].
  apply forallb_forall. intros c Hc. apply list_elem_of_In in Hc.
  rewrite Forall_forall in Hchildren.
  destruct (Hchildren c Hc) as (body & child & a' & Hbody & Hchild & Hc' & Hgood).
  apply getChildOf_elem in Hbody as Hbin.
  rewrite Forall_forall in Hkids.
  destruct (Hkids body Hbin) as (Hb1 & Hb2 & Hbwf).
  destruct (wellFormed_children body Hbwf) as [_ Hgrand].
  rewrite Forall_forall in Hgrand.
  destruct (Hgrand child Hchild) as (Hc1 & Hc2 & Hcwf).
  destruct (buildFileNode_span _ _ _ _ _ Hc') as [-> ->].
  rewrite (Hgood Hcwf), andb_true_r.
  apply andb_true_intro. split; apply Nat.leb_le; lia.
Qed.

(** X1: in a well-formed parse tree, a built declaration has the span of its
    node, and at every depth the span of a child declaration lies inside the
    span of its parent. *)
Theorem buildFileNode_spans_nested
  (doc : Text) (lang : jsstring) (at_ : Place) (node : SyntaxNode)
  (decl : FileNode)
  (Hwf : wellFormed node = true)
  (Hbuilt : Extractor.buildFileNode doc lang at_ node = Some decl) :
  Types.from decl = Tree.from node /\ Types.to decl = Tree.to node
  /\ spansNested decl = true.
Proof.
  destruct (buildFileNode_span _ _ _ _ _ Hbuilt) as [Hfrom Hto].
  split; [done|]. split; [done|]. by eapply buildFileNode_nested.
Qed.

(** X2: a built declaration has the kind its node classifies to, and at
    every depth only functions carry parameters and a return type, and only
    functions and classes carry children and a child summary. *)
Theorem buildFileNode_fields_fit_kind
  (doc : Text) (lang : jsstring) (at_ : Place) (node : SyntaxNode)
  (decl : FileNode)
  (Hbuilt : Extractor.buildFileNode doc lang at_ node = Some decl) :
  Extractor.classifyNode node lang = Some (Types.kind decl)
  /\ Forall fieldsFitKind (declarationsOf decl).
Proof.
  split.
  { rewrite <- (buildFileNode_classified doc lang at_ node). by rewrite Hbuilt. }
  revert Hbuilt. unfold declarationsOf.
  apply (buildFileNode_children_ind doc lang
           (fun _ decl => Forall fieldsFitKind (preorder decl))).
  clear. intros at_ node decl Hbuilt Hchildren.
  rewrite preorder_eq. constructor.
  - rewrite buildFileNode_unfold in Hbuilt.
    destruct (Extractor.classifyNode _ lang) as [kind|]; [|done].
    injection Hbuilt as <-. split; cbn.
    + intros Hk. by rewrite !decide_False.
    + by intros ->.
  - apply Forall_flat_map. eapply Forall_impl; [exact Hchildren|].
    by intros c (_ & _ & _ & _ & _ & _ & H).
Qed.

(* ------------------------------------------------------------------ *)
(** ** The child summary counts what the walk visits *)
(* ------------------------------------------------------------------ *)

Lemma walked_eq node :
  walked node =
  node :: (if includes Extractor.skip (Tree.name node) then []
           else flat_map walked (Tree.children node)).
Proof. by destruct node. Qed.

Lemma fold_walk_walked doc kids :
  Forall (fun kid => forall summary,
            Extractor.walkForSummary doc kid summary
            = fold_left (fun s n => Extractor.countNode doc n s)
                        (walked kid) summary) kids ->
  forall summary,
    fold_left (fun s child => Extractor.walkForSummary doc child s) kids summary
    = fold_left (fun s n => Extractor.countNode doc n s)
                (flat_map walked kids) summary.
Proof.
  induction 1 as [|kid kids Hkid _ IH]; intros summary; [done|].
  cbn [fold_left flat_map]. by rewrite fold_left_app, Hkid, IH.
Qed.

Lemma walkForSummary_walked doc node :
  forall summary,
    Extractor.walkForSummary doc node summary
    = fold_left (fun s n => Extractor.countNode doc n s) (walked node) summary.
Proof.
  induction node as [name from to kids IH] using SyntaxNode_forall_ind.
  intros summary. rewrite walkForSummary_eq, walked_eq.
  cbn [Tree.name Tree.children fold_left].
  destruct (includes Extractor.skip name); [done|].
  by apply fold_walk_walked.
Qed.

Lemma countNode_fields doc n summary :
  let result := Extractor.countNode doc n summary in
  Types.callCount result
    = Types.callCount summary + tagged callTags [n]
  /\ Types.conditionCount result
     = Types.conditionCount summary + tagged Extractor.conditionNodes [n]
  /\ Types.loopCount result
     = Types.loopCount summary + tagged Extractor.loopNodes [n]
  /\ Types.returnCount result
     = Types.returnCount summary + tagged returnTags [n]
  /\ Types.calledFunctions result
     = Types.calledFunctions summary ++ calledBy doc n.
Proof.
  cbv zeta. unfold tagged, calledBy, Extractor.countNode. cbn [List.filter].
  cbn [Types.callCount Types.conditionCount Types.loopCount
       Types.returnCount Types.calledFunctions Extractor.emptySummary app].
  change (Extractor.isCall (Tree.name n)) with (includes callTags (Tree.name n)).
  change (Extractor.isReturn (Tree.name n))
    with (includes returnTags (Tree.name n)).
  destruct (includes callTags (Tree.name n)),
           (includes Extractor.conditionNodes (Tree.name n)),
           (includes Extractor.loopNodes (Tree.name n)),
           (includes returnTags (Tree.name n)); done.
Qed.

Lemma tagged_cons tags n nodes :
  tagged tags (n :: nodes) = tagged tags [n] + tagged tags nodes.
Proof. unfold tagged. cbn [List.filter]. by destruct (includes tags _). Qed.

Lemma count_fold doc nodes :
  forall summary,
    let result :=
      fold_left (fun s n => Extractor.countNode doc n s) nodes summary in
    Types.callCount result = Types.callCount summary + tagged callTags nodes
    /\ Types.conditionCount result
       = Types.conditionCount summary + tagged Extractor.conditionNodes nodes
    /\ Types.loopCount result
       = Types.loopCount summary + tagged Extractor.loopNodes nodes
    /\ Types.returnCount result
       = Types.returnCount summary + tagged returnTags nodes
    /\ Types.calledFunctions result
       = Types.calledFunctions summary ++ flat_map (calledBy doc) nodes.
Proof.
  induction nodes as [|n nodes IH]; intros summary; cbv zeta.
  - cbn. rewrite app_nil_r. unfold tagged. cbn. repeat split; lia || done.
  - cbn [fold_left flat_map].
    destruct (IH (Extractor.countNode doc n summary))
      as (H1 & H2 & H3 & H4 & H5).
    destruct (countNode_fields doc n summary) as (G1 & G2 & G3 & G4 & G5).
    rewrite H1, H2, H3, H4, H5, G1, G2, G3, G4, G5.
    rewrite !(tagged_cons _ n nodes), <- app_assoc.
    repeat split; lia || done.
Qed.

(** A control tag is a condition tag or a loop tag, and never both. *)
Lemma control_partition tag :
  (if includes Extractor.controlNodes tag then 1 else 0)
  = (if includes Extractor.conditionNodes tag then 1 else 0)
    + (if includes Extractor.loopNodes tag then 1 else 0).
Proof.
  destruct (includes Extractor.controlNodes tag) eqn:E.
  - apply includes_In in E. cbn in E.
    repeat (destruct E as [<-|E]; [reflexivity|]). done.
  - assert (Hn : forall tags, (forall x, In x tags -> In x Extractor.controlNodes) ->
                              includes tags tag = false).
    { intros tags Hsub. destruct (includes tags tag) eqn:E'; [|done].
      apply includes_In in E'. apply Hsub in E'.
      apply includes_In in E'. congruence. }
    rewrite !Hn; [done | |];
      intros x Hx; cbn in Hx |- *;
      repeat (destruct Hx as [<-|Hx]; [tauto|]); done.
Qed.

Lemma tagged_control nodes :
  tagged Extractor.controlNodes nodes
  = tagged Extractor.conditionNodes nodes + tagged Extractor.loopNodes nodes.
Proof.
  unfold tagged. induction nodes as [|n nodes IH]; [done|].
  cbn [List.filter]. pose proof (control_partition (Tree.name n)) as H.
  destruct (includes Extractor.controlNodes (Tree.name n)),
           (includes Extractor.conditionNodes (Tree.name n)),
           (includes Extractor.loopNodes (Tree.name n));
    cbn [length] in *; lia.
Qed.

(** X3: the counters of a child summary count the nodes the walk visits:
    calls, conditions, loops and returns among the descendants that do not
    lie below a nested function-like node; conditions and loops together are
    the visited control nodes; and the called functions are the names of the
    visited calls without repetition, in the order of their first
    occurrence. *)
Theorem buildChildSummary_counts_visited (doc : Text) (node : SyntaxNode) :
  let summary := Extractor.buildChildSummary doc node in
  let visited := visitedFrom node in
  Types.callCount summary = tagged callTags visited
  /\ Types.conditionCount summary = tagged Extractor.conditionNodes visited
  /\ Types.loopCount summary = tagged Extractor.loopNodes visited
  /\ Types.returnCount summary = tagged returnTags visited
  /\ Types.conditionCount summary + Types.loopCount summary
     = tagged Extractor.controlNodes visited
  /\ Types.calledFunctions summary
     = Extractor.uniqueFrom [] (flat_map (calledBy doc) visited).
Proof.
  cbv zeta. unfold Extractor.buildChildSummary, visitedFrom.
  cbn [Types.callCount Types.conditionCount Types.loopCount Types.returnCount
       Types.calledFunctions].
  rewrite fold_walk_walked
    by (apply Forall_forall; intros kid _; apply walkForSummary_walked).
  destruct (count_fold doc (flat_map walked (Tree.children node))
              Extractor.emptySummary) as (H1 & H2 & H3 & H4 & H5).
  cbv zeta in *. rewrite H1, H2, H3, H4, H5, tagged_control. cbn. done.
Qed.

Lemma includes_elem (l : list jsstring) x : includes l x = true <-> x ∈ l.
Proof. rewrite includes_In. symmetry. apply list_elem_of_In. Qed.

Lemma uniqueFrom_elem names :
  forall seen x,
    x ∈ Extractor.uniqueFrom seen names <-> x ∈ names /\ x ∉ seen.
Proof.
  induction names as [|y names IH]; intros seen x; cbn [Extractor.uniqueFrom].
  - split; [by intros ?%elem_of_nil | by intros [?%elem_of_nil _]].
  - destruct (includes seen y) eqn:E.
    + apply includes_elem in E. rewrite IH, elem_of_cons.
      split; [tauto|]. intros [[->|H] Hx]; [done | tauto].
    + assert (Hy : y ∉ seen).
      { intros H. apply includes_elem in H. congruence. }
      rewrite !elem_of_cons, IH, elem_of_cons. split.
      * intros [->|(H & Hn)]; [tauto|]. tauto.
      * intros [[->|H] Hx]; [tauto|].
        destruct (decide (x = y)); tauto.
Qed.

Lemma uniqueFrom_NoDup names :
  forall seen, NoDup (Extractor.uniqueFrom seen names).
Proof.
  induction names as [|y names IH]; intros seen; cbn [Extractor.uniqueFrom].
  - constructor.
  - destruct (includes seen y); [apply IH|].
    constructor; [|apply IH].
    rewrite uniqueFrom_elem, elem_of_cons. tauto.
Qed.

Lemma uniqueFrom_length names :
  forall seen, length (Extractor.uniqueFrom seen names) <= length names.
Proof.
  induction names as [|y names IH]; intros seen; cbn [Extractor.uniqueFrom];
    [done|].
  destruct (includes seen y); cbn [length].
  - specialize (IH seen). lia.
  - specialize (IH (y :: seen)). lia.
Qed.

Lemma calledBy_names doc node :
  length (calledBy doc node) <= tagged callTags [node]
  /\ Forall (fun name => name <> [] /\ length name < 40 /\ trim name = name)
            (calledBy doc node).
Proof.
  unfold calledBy, tagged, Extractor.countNode.
  cbn [Types.calledFunctions Extractor.emptySummary app List.filter].
  change (Extractor.isCall (Tree.name node))
    with (includes callTags (Tree.name node)).
  destruct (includes callTags (Tree.name node)); [|split; [done | constructor]].
  destruct (Tree.firstChild node) as [callee|]; [|split; [cbn; lia | constructor]].
  destruct (truthy _ && _) eqn:E; [|split; [cbn; lia | constructor]].
  split; [done|]. apply andb_prop in E as [Ht Hl].
  constructor; [|constructor]. split; [|split].
  - intros H. by rewrite H in Ht.
  - by apply Nat.ltb_lt.
  - unfold Extractor.calleeName. apply trim_idem.
Qed.

(** X4: the called functions of a child summary are pairwise distinct, each
    is a non-empty trimmed name shorter than 40 characters, and there are at
    most as many of them as calls were counted. *)
Theorem calledFunctions_distinct_names (doc : Text) (node : SyntaxNode) :
  let summary := Extractor.buildChildSummary doc node in
  NoDup (Types.calledFunctions summary)
  /\ Forall (fun name => name <> [] /\ length name < 40 /\ trim name = name)
            (Types.calledFunctions summary)
  /\ length (Types.calledFunctions summary) <= Types.callCount summary.
Proof.
  destruct (buildChildSummary_counts_visited doc node)
    as (Hcalls & _ & _ & _ & _ & Hnames).
  cbv zeta in *. rewrite Hnames, Hcalls. clear.
  generalize (visitedFrom node). intros visited.
  split; [apply uniqueFrom_NoDup|]. split.
  - apply Forall_forall. intros name Hname.
    apply uniqueFrom_elem in Hname as [Hname _].
    apply list_elem_of_In, in_flat_map in Hname as (n & _ & Hn).
    destruct (calledBy_names doc n) as [_ H]. rewrite Forall_forall in H.
    apply H. by apply list_elem_of_In.
  - etrans; [apply uniqueFrom_length|].
    induction visited as [|n visited IH]; [done|].
    cbn [flat_map]. rewrite length_app, tagged_cons.
    destruct (calledBy_names doc n) as [H _]. lia.
Qed.

(* ------------------------------------------------------------------ *)
(** ** The keyword of a declaration *)
(* ------------------------------------------------------------------ *)

Lemma orElse_Some {A} (a b : option A) x :
  a <|> b = Some x -> a = Some x \/ b = Some x.
Proof. destruct a; cbn; auto. Qed.

Lemma keywordAt_keyword s k :
  Extractor.keywordAt s = Some k -> In k Extractor.keywords.
Proof. unfold Extractor.keywordAt. intros H. by apply find_some in H as [H _]. Qed.

Lemma optionally_keyword word (rest : jsstring -> option jsstring) s k :
  (forall s k, rest s = Some k -> In k Extractor.keywords) ->
  Extractor.optionally word rest s = Some k -> In k Extractor.keywords.
Proof.
  intros Hrest. unfold Extractor.optionally.
  destruct (Extractor.afterWord word s) as [r|]; [|apply Hrest].
  intros H. apply orElse_Some in H as [H|H]; eapply Hrest, H.
Qed.

Lemma keywordMatch_keyword s k :
  Extractor.keywordMatch s = Some k -> In k Extractor.keywords.
Proof.
  unfold Extractor.keywordMatch.
  apply optionally_keyword. intros s' k'. apply optionally_keyword.
  apply keywordAt_keyword.
Qed.

(** X5: the keyword of a declaration is one of the seventeen keywords of the
    pattern, or else the grammar tag of the node. *)
Theorem extractKeyword_keyword_or_tag (doc : Text) (node : SyntaxNode) :
  In (Extractor.extractKeyword doc node) Extractor.keywords
  \/ Extractor.extractKeyword doc node = Tree.name node.
Proof.
  unfold Extractor.extractKeyword.
  destruct (Extractor.keywordMatch _) as [k|] eqn:E; [left | by right].
  by apply keywordMatch_keyword in E.
Qed.

Lemma startsWith_app p t : startsWith (p ++ t) p = true.
Proof.
  induction p as [|x p IH]; [by destruct t|].
  cbn. by rewrite N.eqb_refl, IH.
Qed.

Lemma dropWhile_blank space tail :
  Forall (fun c => is_ws c = true) space ->
  dropWhile is_ws (space ++ tail) = dropWhile is_ws tail.
Proof. induction 1 as [|c space Hc _ IH]; [done|]. cbn. by rewrite Hc. Qed.

Lemma afterWord_blank word space tail :
  blank space -> startsClean is_ws tail ->
  Extractor.afterWord word (lit word ++ space ++ tail) = Some tail.
Proof.
  intros [Hne Hws] Htail. unfold Extractor.afterWord.
  rewrite startsWith_app, drop_app_length.
  destruct space as [|c space]; [done|]. inversion Hws as [|? ? Hc Hrest]; subst.
  cbn [app]. rewrite Hc, dropWhile_blank by done.
  by rewrite dropWhile_fixed.
Qed.

Ltac each_keyword H :=
  cbn in H; repeat (destruct H as [<-|H]; [|]); [..|done].

Lemma keywordAt_found kw rest :
  In kw Extractor.keywords -> startsClean is_word rest ->
  Extractor.keywordAt (kw ++ rest) = Some kw
  /\ Extractor.afterWord "export" (kw ++ rest) = None
  /\ Extractor.afterWord "async" (kw ++ rest) = None
  /\ startsClean is_ws (kw ++ rest).
Proof.
  intros Hin Hrest.
  each_keyword Hin;
    (split; [|split; [reflexivity | split; reflexivity]]);
    (destruct rest as [|c rest];
       [reflexivity | cbv -[is_word]; cbn in Hrest; by rewrite Hrest]).
Qed.

(** X6: a text that starts with an optional [export], an optional [async]
    and then one of the keywords, ending at a word boundary, gives that
    keyword. *)
Theorem extractKeyword_reads_keyword
  (doc : Text) (node : SyntaxNode) (exported async : bool)
  (space1 space2 kw rest : jsstring)
  (Hkw : In kw Extractor.keywords)
  (Hspace1 : blank space1) (Hspace2 : blank space2)
  (Hrest : startsClean is_word rest)
  (Htext : Extractor.headText doc 30 node
           = optionalWord exported "export" space1
             ++ optionalWord async "async" space2 ++ kw ++ rest) :
  Extractor.extractKeyword doc node = kw.
Proof.
  unfold Extractor.extractKeyword. rewrite Htext. clear Htext.
  destruct (keywordAt_found kw rest Hkw Hrest) as (Hat & Hex & Has & Hclean).
  assert (Hasync : forall (present : bool),
             Extractor.optionally "async" Extractor.keywordAt
               (optionalWord present "async" space2 ++ kw ++ rest) = Some kw).
  { intros [|]; unfold Extractor.optionally, optionalWord.
    - rewrite <- app_assoc, afterWord_blank by done. by rewrite Hat.
    - cbn [app]. by rewrite Has. }
  unfold Extractor.keywordMatch, Extractor.optionally at 1.
  destruct exported;
    [change (optionalWord true "export" space1) with (lit "export" ++ space1)
    |change (optionalWord false "export" space1) with (@nil N)].
  - rewrite <- app_assoc, afterWord_blank; [by rewrite Hasync | done |].
    destruct async; [reflexivity | exact Hclean].
  - cbn [app].
    assert (Hnone : Extractor.afterWord "export"
                      (optionalWord async "async" space2 ++ kw ++ rest) = None).
    { destruct async; [reflexivity | exact Hex]. }
    by rewrite Hnone, Hasync.
Qed.

(* ------------------------------------------------------------------ *)
(** ** The classifier and its tables *)
(* ------------------------------------------------------------------ *)

Lemma rowOf_table lang :
  (forall js py rs, Extractor.rowOf (Extractor.table js py rs) lang = lits js)
  \/ (forall js py rs, Extractor.rowOf (Extractor.table js py rs) lang = lits py)
  \/ (forall js py rs, Extractor.rowOf (Extractor.table js py rs) lang = lits rs).
Proof.
  destruct (decide (lit "js" = lang)) as [<-|Hjs]; [by left|].
  destruct (decide (lit "py" = lang)) as [<-|Hpy]; [by right; left|].
  destruct (decide (lit "rs" = lang)) as [<-|Hrs]; [by right; right|].
  left. intros js py rs.
  unfold Extractor.rowOf, Extractor.lookup at 1, Extractor.table.
  cbn [find fst]. unfold eqb at 1 2 3.
  by rewrite !bool_decide_eq_false_2 by done.
Qed.

Ltac each_tag H :=
  cbn in H; repeat (destruct H as [<-|H]; [|]); [..|done].

Lemma classifyNode_rows (js1 js2 js3 js4 js5 js6 : list jsstring) name kind :
  (if includes js1 name then Some Kfunction
   else if includes js2 name then Some Kclass
   else if includes js3 name then Some Kimport
   else if includes js4 name then Some Kexport
   else if includes js5 name then Some Ktype
   else if includes js6 name then Some Kvariable
   else if includes Extractor.controlNodes name then Some Kcontrol
   else None) = Some kind ->
  In name match kind with
          | Kfunction => js1 | Kclass => js2 | Kimport => js3
          | Kexport => js4 | Ktype => js5 | Kvariable => js6
          | Kcontrol => Extractor.controlNodes
          end.
Proof.
  destruct (includes js1 name) eqn:E1; [intros [= <-]; by apply includes_In|].
  destruct (includes js2 name) eqn:E2; [intros [= <-]; by apply includes_In|].
  destruct (includes js3 name) eqn:E3; [intros [= <-]; by apply includes_In|].
  destruct (includes js4 name) eqn:E4; [intros [= <-]; by apply includes_In|].
  destruct (includes js5 name) eqn:E5; [intros [= <-]; by apply includes_In|].
  destruct (includes js6 name) eqn:E6; [intros [= <-]; by apply includes_In|].
  destruct (includes Extractor.controlNodes name) eqn:E7; [intros [= <-]; by apply includes_In|].
  done.
Qed.

Lemma classifyNode_listed node lang kind :
  Extractor.classifyNode node lang = Some kind ->
  In (Tree.name node) (tagsOf kind lang).
Proof.
  unfold Extractor.classifyNode. cbv zeta.
  intros H. apply classifyNode_rows in H. by destruct kind.
Qed.

(** X7: for each of the languages js, py and rs, the classifier follows its
    tables, and the order of its tests never decides: a node is given a kind
    exactly when its tag is listed for that kind in the row of the language,
    so no tag is listed for two kinds. *)
Theorem classifyNode_follows_tables
  (node : SyntaxNode) (lang : jsstring) (kind : FileNodeKind)
  (Hlang : In lang tableLanguages) :
  Extractor.classifyNode node lang = Some kind
  <-> In (Tree.name node) (tagsOf kind lang).
Proof.
  split; [apply classifyNode_listed|].
  unfold Extractor.classifyNode. cbv zeta.
  generalize (Tree.name node) as name. intros name.
  unfold tagsOf, Extractor.funcNodes, Extractor.classNodes,
    Extractor.importNodes, Extractor.exportNodes, Extractor.typeNodes,
    Extractor.varNodes.
  destruct (rowOf_table lang) as [H|[H|H]]; rewrite !H;
    destruct kind; intros Hin; each_tag Hin; reflexivity.
Qed.

Lemma classifyNode_export node lang kind :
  Tree.name node = lit "ExportDeclaration" ->
  Extractor.classifyNode node lang = Some kind -> kind = Kexport.
Proof.
  intros Hname. unfold Extractor.classifyNode. cbv zeta. rewrite Hname.
  unfold Extractor.funcNodes, Extractor.classNodes,
    Extractor.importNodes, Extractor.exportNodes, Extractor.typeNodes,
    Extractor.varNodes.
  destruct (rowOf_table lang) as [H|[H|H]]; rewrite !H; vm_compute; congruence.
Qed.

(* ------------------------------------------------------------------ *)
(** ** The parameters of a function *)
(* ------------------------------------------------------------------ *)

(** X8: every parameter has a name that is neither empty nor a parenthesis,
    and there are at most as many parameters as the parameter list has
    children that are not punctuation; without a parameter list there is
    none. *)
Theorem extractParams_named (doc : Text) (node : SyntaxNode) :
  Forall (fun p => Types.pname p <> [] /\ Types.pname p <> lit "("
                   /\ Types.pname p <> lit ")")
         (Extractor.extractParams doc node)
  /\ length (Extractor.extractParams doc node) <= length (parameterNodes node).
Proof.
  unfold Extractor.extractParams, parameterNodes.
  destruct (Extractor.getChildOf _ node) as [paramList|]; [|by split].
  generalize (Tree.children paramList) as kids. intros kids.
  set (good := fun p => _).
  set (step := fun params child => _).
  set (keep := fun child => _).
  enough (Hgen : forall params,
             Forall good params ->
             Forall good (fold_left step kids params)
             /\ length (fold_left step kids params)
                <= length params + length (List.filter keep kids)).
  { destruct (Hgen [] (Forall_nil_2 _)). by split. }
  induction kids as [|child kids IH]; intros params Hparams.
  { cbn. split; [done | lia]. }
  cbn [fold_left List.filter].
  assert (Hstep : Forall good (step params child)
                  /\ length (step params child)
                     <= length params + (if keep child then 1 else 0)).
  { subst step keep. cbv beta.
    destruct (includes _ (Tree.name child)); cbn [negb]; [split; [done | lia]|].
    set (name := match Extractor.getChildOf _ child with
                 | Some nameChild => _ | None => _ end).
    cbv zeta.
    destruct (truthy name) eqn:Htruthy; cbn [andb]; [|split; [done | lia]].
    unfold eqb.
    destruct (decide (name = lit "(")) as [Ho|Ho];
      [rewrite bool_decide_eq_true_2 by done; cbn; split; [done | lia]|].
    rewrite (bool_decide_eq_false_2 _ Ho). cbn [negb andb].
    destruct (decide (name = lit ")")) as [Hc|Hc];
      [rewrite bool_decide_eq_true_2 by done; cbn; split; [done | lia]|].
    rewrite (bool_decide_eq_false_2 _ Hc). cbn [negb].
    split; [|rewrite length_app; cbn; lia].
    apply Forall_app. split; [done|]. constructor; [|done].
    subst good. cbn. split; [|done]. intros E. by rewrite E in Htruthy. }
  destruct Hstep as [Hgood Hlen].
  destruct (IH _ Hgood) as [IH1 IH2]. split; [done|].
  destruct (keep child); cbn [length] in *; lia.
Qed.

(* ------------------------------------------------------------------ *)
(** ** The three lists of a file structure *)
(* ------------------------------------------------------------------ *)

Lemma routed_addExported fileNode structure :
  routed structure -> routed (Extractor.addExported fileNode structure).
Proof.
  intros (Hi & He & Hd). unfold Extractor.addExported, routed.
  change (Types.kind (Types.withExported true fileNode))
    with (Types.kind fileNode).
  destruct (decide (Types.kind fileNode = Kimport)) as [Hk|Hk]; cbn;
    repeat split; try done; apply Forall_app; split; try done;
    by constructor.
Qed.

Lemma routed_walkExported doc lang wrapper prev inners structure :
  routed structure ->
  routed (Extractor.walkExported doc lang wrapper prev inners structure).
Proof.
  revert prev structure.
  induction inners as [|inner inners IH]; intros prev structure H; [done|].
  cbn [Extractor.walkExported]. apply IH.
  destruct (Extractor.buildFileNode _ _ _ inner); [|done].
  by apply routed_addExported.
Qed.

Lemma routed_route fileNode structure :
  routed structure -> routed (Extractor.route fileNode structure).
Proof.
  intros (Hi & He & Hd). unfold Extractor.route, routed.
  destruct (Types.kind fileNode) eqn:Hk; cbn;
    repeat split; try done; apply Forall_app; split; try done;
    constructor; try done; by rewrite Hk.
Qed.

Lemma routed_walkJsNode doc lang at_ node structure :
  routed structure ->
  routed (Extractor.walkJsNode doc lang at_ node structure).
Proof.
  intros H. unfold Extractor.walkJsNode. unfold eqb at 1.
  destruct (bool_decide_reflect (Tree.name node = lit "ExportDeclaration"))
    as [Hname|_].
  - pose proof (routed_walkExported doc lang (Tree.name node) None
                  (Tree.children node) structure H) as H'.
    destruct (match Tree.firstChild node with
              | Some first => _ | None => true end); [|done].
    destruct (Extractor.buildFileNode _ _ _ node) as [exportNode|] eqn:E;
      [|done].
    pose proof (buildFileNode_classified doc lang at_ node) as Hkind.
    rewrite E in Hkind. cbn in Hkind. symmetry in Hkind.
    apply (classifyNode_export _ _ _ Hname) in Hkind.
    destruct H' as (Hi & He & Hd). unfold routed. cbn.
    repeat split; try done. apply Forall_app. split; [done|]. by constructor.
  - destruct (Extractor.buildFileNode _ _ _ node); [|done].
    by apply routed_route.
Qed.

Lemma routed_walkJsNodes doc lang parent prev nodes structure :
  routed structure ->
  routed (Extractor.walkJsNodes doc lang parent prev nodes structure).
Proof.
  revert prev structure.
  induction nodes as [|node nodes IH]; intros prev structure H; [done|].
  cbn [Extractor.walkJsNodes]. by apply IH, routed_walkJsNode.
Qed.

Lemma language_walkExported doc lang wrapper prev inners structure :
  Types.language (Extractor.walkExported doc lang wrapper prev inners structure)
  = Types.language structure.
Proof.
  revert prev structure.
  induction inners as [|inner inners IH]; intros prev structure; [done|].
  cbn [Extractor.walkExported]. rewrite IH.
  destruct (Extractor.buildFileNode _ _ _ inner); [|done].
  unfold Extractor.addExported. by destruct (decide _).
Qed.

Lemma language_walkJsNodes doc lang parent prev nodes structure :
  Types.language (Extractor.walkJsNodes doc lang parent prev nodes structure)
  = Types.language structure.
Proof.
  revert prev structure.
  induction nodes as [|node nodes IH]; intros prev structure; [done|].
  cbn [Extractor.walkJsNodes]. rewrite IH. unfold Extractor.walkJsNode.
  destruct (eqb _ _).
  - destruct (match Tree.firstChild node with
              | Some first => _ | None => true end);
      [destruct (Extractor.buildFileNode _ _ _ node)|];
      cbn; apply language_walkExported.
  - destruct (Extractor.buildFileNode _ _ _ node) as [f|]; [|done].
    unfold Extractor.route. by destruct (Types.kind f).
Qed.

Lemma detectLanguage_not_svelte filename :
  detectLanguage filename <> lit "svelte" ->
  forall doc topNode,
    Svelte.extractFileStructure doc filename topNode
    = Extractor.extractFileStructure doc (detectLanguage filename) topNode.
Proof.
  intros H doc topNode. unfold Svelte.extractFileStructure, eqb. cbv zeta.
  by rewrite bool_decide_eq_false_2.
Qed.

(** X9: for every file that is not a Svelte file, whatever its tree, the list
    of imports holds only nodes of kind import, the list of exports only
    nodes of kind export, the list of declarations no node of kind import,
    and the structure carries the language of the file. *)
Theorem extractFileStructure_routed
  (doc : Text) (filename : jsstring) (topNode : SyntaxNode)
  (Hlang : detectLanguage filename <> lit "svelte") :
  routed (Svelte.extractFileStructure doc filename topNode)
  /\ Types.language (Svelte.extractFileStructure doc filename topNode)
     = detectLanguage filename.
Proof.
  rewrite (detectLanguage_not_svelte _ Hlang).
  unfold Extractor.extractFileStructure. split.
  - apply routed_walkJsNodes. by repeat split.
  - by rewrite language_walkJsNodes.
Qed.

Section Every.
Context (P : FileNode -> Prop).
Hypothesis exported_stable : forall n, P n -> P (Types.withExported true n).
Hypothesis kind_stable : forall n, P n -> P (Types.withKind Kexport n).
Context (doc : Text) (lang : jsstring).

Lemma every_addExported fileNode structure :
  P fileNode -> every P structure ->
  every P (Extractor.addExported fileNode structure).
Proof using exported_stable kind_stable.
  intros Hp (Hi & He & Hd). unfold Extractor.addExported, every.
  destruct (decide _); cbn;
    repeat split; try done; apply Forall_app; split; try done;
    constructor; auto.
Qed.

Lemma every_walkExported wrapper prev inners structure :
  Forall (fun inner => forall at_ fileNode,
            Extractor.buildFileNode doc lang at_ inner = Some fileNode ->
            P fileNode) inners ->
  every P structure ->
  every P (Extractor.walkExported doc lang wrapper prev inners structure).
Proof using exported_stable kind_stable.
  intros Hin. revert prev structure.
  induction Hin as [|inner inners Hinner _ IH]; intros prev structure H;
    [done|].
  cbn [Extractor.walkExported]. apply IH.
  destruct (Extractor.buildFileNode _ _ _ inner) as [f|] eqn:E; [|done].
  apply every_addExported; [|done]. by eapply Hinner.
Qed.

Lemma every_walkJsNodes parent prev nodes structure :
  Forall (fun node =>
            Forall (fun n => forall at_ fileNode,
                      Extractor.buildFileNode doc lang at_ n = Some fileNode ->
                      P fileNode) (node :: Tree.children node)) nodes ->
  every P structure ->
  every P (Extractor.walkJsNodes doc lang parent prev nodes structure).
Proof using exported_stable kind_stable.
  intros Hin. revert prev structure.
  induction Hin as [|node nodes Hnode _ IH]; intros prev structure H; [done|].
  cbn [Extractor.walkJsNodes]. apply IH.
  inversion Hnode as [|? ? Hself Hkids]; subst.
  unfold Extractor.walkJsNode. destruct (eqb _ _).
  - pose proof (every_walkExported (Tree.name node) None _ structure Hkids H)
      as H'.
    destruct (match Tree.firstChild node with
              | Some first => _ | None => true end); [|done].
    destruct (Extractor.buildFileNode _ _ _ node) as [f|] eqn:E; [|done].
    destruct H' as (Hi & He & Hd). unfold every. cbn.
    repeat split; try done. apply Forall_app. split; [done|].
    constructor; [|done]. by eapply Hself.
  - destruct (Extractor.buildFileNode _ _ _ node) as [f|] eqn:E; [|done].
    destruct H as (Hi & He & Hd). unfold Extractor.route, every.
    destruct (Types.kind f); cbn;
      repeat split; try done; apply Forall_app; split; try done;
      constructor; try done; by eapply Hself.
Qed.

End Every.

Lemma spansNested_withExported b n :
  spansNested (Types.withExported b n) = spansNested n.
Proof. by destruct n. Qed.

Lemma spansNested_withKind k n :
  spansNested (Types.withKind k n) = spansNested n.
Proof. by destruct n. Qed.

(** X10: for every file that is not a Svelte file and has a well-formed parse
    tree, every node of the three lists of the structure lies inside the
    span of the tree, and its child declarations lie inside its own span at
    every depth. *)
Theorem extractFileStructure_spans
  (doc : Text) (filename : jsstring) (topNode : SyntaxNode)
  (Hlang : detectLanguage filename <> lit "svelte")
  (Hwf : wellFormed topNode = true) :
  every (fun decl => within topNode decl /\ spansNested decl = true)
        (Svelte.extractFileStructure doc filename topNode).
Proof.
  rewrite (detectLanguage_not_svelte _ Hlang).
  unfold Extractor.extractFileStructure.
  apply every_walkJsNodes.
  - intros n [Hin Hn]. split; [by destruct n|].
    by rewrite spansNested_withExported.
  - intros n [Hin Hn]. split; [by destruct n|].
    by rewrite spansNested_withKind.
  - destruct (wellFormed_children topNode Hwf) as [_ Hkids].
    eapply Forall_impl; [exact Hkids|].
    intros node (Hfrom & Hto & Hnode). cbv beta.
    destruct (wellFormed_children node Hnode) as [_ Hinner].
    constructor.
    + intros at_ f Hf.
      destruct (buildFileNode_span _ _ _ _ _ Hf) as [Hf1 Hf2].
      split; [unfold within; lia|]. by eapply buildFileNode_nested.
    + eapply Forall_impl; [exact Hinner|].
      intros inner (Hfrom' & Hto' & Hwf') at_ f Hf.
      destruct (buildFileNode_span _ _ _ _ _ Hf) as [Hf1 Hf2].
      split; [unfold within; lia|]. by eapply buildFileNode_nested.
  - by repeat split.
Qed.

(* ------------------------------------------------------------------ *)
(** ** Line numbers, previews and the entries of the outline *)
(* ------------------------------------------------------------------ *)

Lemma lineNum_count doc offset :
  Outline.lineNum doc offset = S (lineFeeds (take offset doc)).
Proof.
  unfold Outline.lineNum, lineFeeds.
  enough (H : forall l n,
             fold_left (fun line c => if (c =? 10)%N then S line else line) l n
             = n + length (List.filter (fun c => (c =? 10)%N) l))
    by (by rewrite H).
  induction l as [|c l IH]; intros n; cbn; [lia|].
  destruct (c =? 10)%N; cbn; rewrite IH; lia.
Qed.

Lemma lineFeeds_app a b : lineFeeds (a ++ b) = lineFeeds a + lineFeeds b.
Proof. unfold lineFeeds. by rewrite List.filter_app, length_app. Qed.

Lemma lineFeeds_length s : lineFeeds s <= length s.
Proof. apply List.filter_length_le. Qed.

(** X11: line numbers start at 1, never decrease with the offset, grow by at
    most one per character, and stay the same past the end of the
    document. *)
Theorem lineNum_monotone (doc : jsstring) (a b : nat) (Hab : a <= b) :
  1 <= Outline.lineNum doc a
  /\ Outline.lineNum doc a <= Outline.lineNum doc b
  /\ Outline.lineNum doc b <= Outline.lineNum doc a + (b - a)
  /\ Outline.lineNum doc b <= S (length doc)
  /\ (length doc <= a -> Outline.lineNum doc b = Outline.lineNum doc a).
Proof.
  rewrite !lineNum_count.
  assert (Hsplit : take b doc = take a doc ++ take (b - a) (drop a doc)).
  { rewrite <- (take_drop a (take b doc)) at 1.
    rewrite take_take, Nat.min_l by done. by rewrite skipn_firstn_comm. }
  rewrite Hsplit, lineFeeds_app.
  pose proof (lineFeeds_length (take (b - a) (drop a doc))) as Hlen.
  rewrite length_take in Hlen.
  pose proof (lineFeeds_length (take a doc ++ take (b - a) (drop a doc))) as H2.
  rewrite lineFeeds_app, <- Hsplit, length_take in H2.
  repeat split; try lia.
  intros Hend. rewrite drop_ge by done. rewrite take_nil. cbn. lia.
Qed.

Lemma join_cons sep p q rest :
  join sep (p :: q :: rest) = p ++ sep ++ join sep (q :: rest).
Proof. reflexivity. Qed.

Lemma split_cons sep s : exists piece rest, split sep s = piece :: rest.
Proof.
  destruct s as [|c s]; cbn; [by eexists _, _|].
  destruct (c =? sep)%N; [by eexists _, _|].
  destruct (split sep s); by eexists _, _.
Qed.

Lemma join_split sep s : join [sep] (split sep s) = s.
Proof.
  induction s as [|c s IH]; [done|]. cbn [split].
  destruct (split_cons sep s) as (p & r & E). rewrite E in *.
  destruct (N.eqb_spec c sep) as [->|Hne].
  - rewrite join_cons. cbn [app]. by rewrite IH.
  - destruct r as [|q r]; [cbn in *; by rewrite IH|].
    rewrite join_cons in *. cbn [app] in *. by rewrite IH.
Qed.

Lemma split_pieces sep s :
  Forall (Forall (fun c => c <> sep)) (split sep s).
Proof.
  induction s as [|c s IH]; cbn [split]; [by repeat constructor|].
  destruct (N.eqb_spec c sep) as [->|Hne]; [by constructor|].
  destruct (split sep s) as [|p r]; [by repeat constructor|].
  inversion IH; subst. constructor; [by constructor | done].
Qed.

Lemma lineFeeds_piece s : Forall (fun c => c <> 10%N) s -> lineFeeds s = 0.
Proof.
  unfold lineFeeds. induction 1 as [|c s Hc _ IH]; [done|]. cbn.
  by destruct (N.eqb_spec c 10).
Qed.

(** X12: the preview of a piece of code is its first two lines: a prefix of
    the code with at most one line feed, followed in the code by nothing or
    by a line feed; code with at most one line feed is its own preview. *)
Theorem previewOf_first_two_lines (code : jsstring) :
  exists rest,
    code = Outline.previewOf code ++ rest
    /\ lineFeeds (Outline.previewOf code) <= 1
    /\ (rest = [] \/ head rest = Some 10%N)
    /\ (rest = [] <-> lineFeeds code <= 1).
Proof.
  unfold Outline.previewOf.
  pose proof (join_split 10 code) as Hjoin.
  pose proof (split_pieces 10 code) as Hpieces.
  destruct (split_cons 10 code) as (p & r & E). rewrite E in *.
  apply Forall_cons in Hpieces as [Hp Hr].
  apply lineFeeds_piece in Hp.
  destruct r as [|q r].
  { exists []. cbn [join take] in *. subst code. rewrite app_nil_r.
    split; [done|]. split; [lia|]. split; [by left|]. split; [lia | done]. }
  apply Forall_cons in Hr as [Hq Hr].
  apply lineFeeds_piece in Hq.
  assert (Hpreview : lineFeeds (join [10%N] [p; q]) = 1).
  { rewrite join_cons, !lineFeeds_app. cbn [join]. rewrite Hp, Hq.
    reflexivity. }
  change (take 2 (p :: q :: r)) with [p; q].
  destruct r as [|q' r].
  { exists []. rewrite app_nil_r, Hpreview, <- Hjoin, Hpreview.
    split; [done|]. split; [lia|]. split; [by left|]. split; [lia | done]. }
  exists (10%N :: join [10%N] (q' :: r)).
  rewrite Hpreview. split.
  { rewrite <- Hjoin. rewrite !join_cons. cbn [join app].
    by rewrite <- !app_assoc. }
  split; [lia|]. split; [by right|]. split; [done|].
  rewrite <- Hjoin, !join_cons, !lineFeeds_app, Hp, Hq.
  change (lineFeeds [10%N]) with 1. lia.
Qed.

Lemma Recorded_set w entries lines entry more :
  Recorded w entries lines ->
  Recorded {| Outline.nextId := S (Outline.nextId w);
              Outline.nodeMap := <[Outline.nextId w := entry]> (Outline.nodeMap w);
              Outline.lines := Outline.lines w ++ more |}
           (entries ++ [entry]) (lines ++ more).
Proof.
  intros [Hnext Hzero Hids Hlines].
  split; cbn [Outline.nextId Outline.nodeMap Outline.lines].
  - rewrite Hnext, length_app. simpl. lia.
  - rewrite Hnext, lookup_insert_ne by lia. exact Hzero.
  - intros i. rewrite Hnext.
    destruct (decide (i = length entries)) as [->|Hne].
    + rewrite lookup_insert_eq.
      by rewrite lookup_app_r, Nat.sub_diag by lia.
    + rewrite lookup_insert_ne by lia. rewrite Hids.
      destruct (decide (i < length entries)).
      * by rewrite lookup_app_l.
      * rewrite !lookup_ge_None_2; [done | rewrite length_app; simpl; lia | lia].
  - by rewrite Hlines.
Qed.

Lemma entriesAt_eq doc depth node :
  entriesAt doc depth node
  = {| Outline.fileNode := node;
       Outline.code := slice doc (Types.from node) (Types.to node);
       Outline.depth := depth |}
    :: flat_map (entriesAt doc (depth + 1)) (Types.children node).
Proof. by destruct node. Qed.

Lemma Recorded_children source depth kids :
  Forall (fun kid => forall depth w entries lines,
            Recorded w entries lines ->
            Recorded (Outline.walkNode source kid depth w)
                     (entries ++ entriesAt source depth kid)
                     (lines ++ flat_map (linesOf source)
                                        (entriesAt source depth kid))) kids ->
  forall w entries lines,
    Recorded w entries lines ->
    Recorded (fold_left (fun w child => Outline.walkNode source child depth w)
                        kids w)
             (entries ++ flat_map (entriesAt source depth) kids)
             (lines ++ flat_map (linesOf source)
                                (flat_map (entriesAt source depth) kids)).
Proof.
  induction 1 as [|kid kids Hkid _ IH]; intros w entries lines Hw; simpl.
  - by rewrite !app_nil_r.
  - rewrite flat_map_app, !app_assoc. apply IH, Hkid, Hw.
Qed.

Lemma Recorded_walkNode source node :
  forall depth w entries lines,
    Recorded w entries lines ->
    Recorded (Outline.walkNode source node depth w)
             (entries ++ entriesAt source depth node)
             (lines ++ flat_map (linesOf source) (entriesAt source depth node)).
Proof.
  induction node as [node IH] using FileNode_forall_ind.
  intros depth w entries lines Hw.
  rewrite walkNode_eq, entriesAt_eq.
  change (?e :: flat_map ?f ?l) with ([e] ++ flat_map f l).
  rewrite flat_map_app, (app_assoc entries), (app_assoc lines).
  apply Recorded_children; [exact IH|].
  by apply Recorded_set.
Qed.

Lemma entriesAt_code doc depth node :
  Forall (fun e => Outline.code e
                   = slice doc (Types.from (Outline.fileNode e))
                           (Types.to (Outline.fileNode e)))
         (entriesAt doc depth node).
Proof.
  revert depth. induction node as [node IH] using FileNode_forall_ind.
  intros depth. rewrite entriesAt_eq. constructor; [done|].
  apply Forall_flat_map. eapply Forall_impl; [exact IH|]. auto.
Qed.


(** What the walk of [buildOutline] has recorded at its end. *)
Lemma Recorded_buildWalk structure doc :
  exists entries head,
    Recorded (Outline.buildWalk structure doc)
             (entries ++ flat_map (entriesAt doc 0)
                                  (Types.declarations structure))
             (head ++ flat_map (linesOf doc)
                        (flat_map (entriesAt doc 0)
                                  (Types.declarations structure)))
    /\ length entries = importEntries structure
    /\ length head = 2 * importEntries structure
    /\ Forall (fun e => Outline.code e
                = slice doc (Types.from (Outline.fileNode e))
                        (Types.to (Outline.fileNode e))) entries
    /\ Forall (fun e => Types.kind (Outline.fileNode e) = Kimport
                        /\ Types.children (Outline.fileNode e) = []) entries.
Proof.
  unfold Outline.buildWalk.
  set (w0 := {| Outline.nextId := 1; Outline.lines := [];
                Outline.nodeMap := ∅ |}).
  assert (H0 : Recorded w0 [] []).
  { split; [done | done | | done]. intros i. cbn. by rewrite lookup_empty. }
  assert (Himports : exists entries head,
             Recorded (Outline.groupImports (Types.imports structure) doc w0)
                      entries head
             /\ length entries = importEntries structure
             /\ length head = 2 * importEntries structure
             /\ Forall (fun e => Outline.code e
                          = slice doc (Types.from (Outline.fileNode e))
                                  (Types.to (Outline.fileNode e))) entries
             /\ Forall (fun e => Types.kind (Outline.fileNode e) = Kimport
                        /\ Types.children (Outline.fileNode e) = []) entries).
  { unfold Outline.groupImports, importEntries.
    destruct (Types.imports structure) as [|imp imps] eqn:E.
    - exists [], []. by repeat split.
    - eexists [_], [_; _]. split; [apply (Recorded_set _ [] [] _ _ H0)|].
      repeat split; by repeat constructor. }
  destruct Himports as (entries & head & Hrec & Hlen & Hhead & Hcode & Hkind).
  exists entries, head. split; [|done].
  apply Recorded_children; [|done].
  apply Forall_forall. intros kid _. apply Recorded_walkNode.
Qed.

(** X13: the index and the text of the outline list the declarations in the
    order of the visits, after the entry for the imports if there is one:
    each entry holds the document's text at the span of its node and the
    node's nesting depth, and stands in the text as two lines indented by
    that depth. *)
Theorem buildOutline_entries (structure : FileStructure) (doc : jsstring) :
  let built := Outline.buildOutline structure doc in
  let declared :=
    flat_map (entriesAt doc 0) (Types.declarations structure) in
  (forall i, Outline.index built !! S (importEntries structure + i)
             = declared !! i)
  /\ (exists head,
        length head = 2 * importEntries structure
        /\ Outline.outline built
           = join [10%N] (head ++ flat_map (linesOf doc) declared))
  /\ (forall id entry,
        Outline.index built !! id = Some entry ->
        Outline.code entry
        = slice doc (Types.from (Outline.fileNode entry))
                (Types.to (Outline.fileNode entry))).
Proof.
  cbv zeta. unfold Outline.buildOutline.
  cbn [Outline.index Outline.outline].
  destruct (Recorded_buildWalk structure doc)
    as (entries & head & [_ Hzero Hids Hlines] & Hlen & Hhead & Hcode & _).
  split; [|split].
  - intros i. rewrite Hids, <- Hlen.
    by rewrite lookup_app_r, Nat.add_comm, Nat.add_sub by lia.
  - exists head. split; [done|]. by rewrite Hlines.
  - intros [|id] entry Hentry; [by rewrite Hzero in Hentry|].
    rewrite Hids in Hentry. apply list_elem_of_lookup_2 in Hentry.
    apply elem_of_app in Hentry as [Hentry|Hentry].
    + rewrite Forall_forall in Hcode. by apply Hcode.
    + apply list_elem_of_In, in_flat_map in Hentry as (decl & _ & Hentry).
      pose proof (entriesAt_code doc 0 decl) as Hall.
      rewrite Forall_forall in Hall. by apply Hall, list_elem_of_In.
Qed.

Lemma fold_min_le xs x :
  fold_left Nat.min xs x <= x
  /\ Forall (fun y => fold_left Nat.min xs x <= y) xs
  /\ In (fold_left Nat.min xs x) (x :: xs).
Proof.
  revert x. induction xs as [|y xs IH]; intros x; cbn [fold_left].
  { split; [done|]. split; [done | by left]. }
  destruct (IH (Nat.min x y)) as (H1 & H2 & H3).
  split; [lia|]. split; [constructor; [lia | done]|].
  destruct H3 as [H3|H3]; [|by right; right].
  rewrite <- H3. destruct (Nat.min_dec x y) as [->| ->]; [by left|].
  right. by left.
Qed.

Lemma fold_max_ge xs x :
  x <= fold_left Nat.max xs x
  /\ Forall (fun y => y <= fold_left Nat.max xs x) xs
  /\ In (fold_left Nat.max xs x) (x :: xs).
Proof.
  revert x. induction xs as [|y xs IH]; intros x; cbn [fold_left].
  { split; [done|]. split; [done | by left]. }
  destruct (IH (Nat.max x y)) as (H1 & H2 & H3).
  split; [lia|]. split; [constructor; [lia | done]|].
  destruct H3 as [H3|H3]; [|by right; right].
  rewrite <- H3. destruct (Nat.max_dec x y) as [->| ->]; [by left|].
  right. by left.
Qed.

Lemma ellipsis_length n s : 3 <= n -> length (ellipsis n s) <= n.
Proof.
  intros Hn. unfold ellipsis.
  destruct (Nat.ltb_spec n (length s)) as [Hlong|Hshort]; [|done].
  unfold slice. rewrite length_app, length_take, length_drop. cbn. lia.
Qed.

(** X14: the node that stands for the imports in the outline spans from the
    smallest start to the largest end of the imports: its span covers every
    import, both ends are ends of imports, and its name has at most sixty
    characters. *)
Theorem syntheticNode_covers (imports : list FileNode)
  (Hne : imports <> []) :
  let node := Outline.syntheticNode imports in
  Forall (fun imp => Types.from node <= Types.from imp
                     /\ Types.to imp <= Types.to node) imports
  /\ In (Types.from node) (map Types.from imports)
  /\ In (Types.to node) (map Types.to imports)
  /\ length (Types.name node) <= 60.
Proof.
  destruct imports as [|imp imps]; [done|].
  cbn [Outline.syntheticNode Types.from Types.to Types.name map
       Outline.minOf Outline.maxOf]. cbv zeta.
  destruct (fold_min_le (map Types.from imps) (Types.from imp))
    as (Hmin & Hmins & Hminin).
  destruct (fold_max_ge (map Types.to imps) (Types.to imp))
    as (Hmax & Hmaxs & Hmaxin).
  split; [|split; [done | split; [done | apply ellipsis_length; lia]]].
  constructor; [done|].
  rewrite Forall_map in Hmins, Hmaxs.
  apply Forall_forall. intros n Hn. rewrite Forall_forall in Hmins, Hmaxs.
  split; [by apply Hmins | by apply Hmaxs].
Qed.

(* ------------------------------------------------------------------ *)
(** ** Captions: the groups of a file *)
(* ------------------------------------------------------------------ *)

Lemma addToGroup_keys node groups :
  map fst (Prose.addToGroup node groups)
  = if decide (Types.kind node ∈ map fst groups) then map fst groups
    else map fst groups ++ [Types.kind node].
Proof.
  induction groups as [|[k l] groups IH]; cbn [Prose.addToGroup map fst].
  { rewrite decide_False; [done | by apply not_elem_of_nil]. }
  destruct (decide (k = Types.kind node)) as [->|Hne]; cbn [map fst].
  { rewrite decide_True; [done | by left]. }
  rewrite IH. destruct (decide (Types.kind node ∈ map fst groups)) as [Hin|Hin].
  - rewrite decide_True; [done | by right].
  - rewrite decide_False; [done|].
    intros H. apply elem_of_cons in H as [H|H]; [by subst | done].
Qed.


Lemma ofKind_snoc kind nodes node :
  ofKind kind (nodes ++ [node])
  = ofKind kind nodes ++ (if decide (Types.kind node = kind) then [node] else []).
Proof.
  unfold ofKind. rewrite filter_app, filter_cons, filter_nil.
  by destruct (decide (Types.kind node = kind)).
Qed.

Lemma ofKind_none kind nodes :
  Forall (fun n => Types.kind n <> kind) nodes -> ofKind kind nodes = [].
Proof.
  unfold ofKind. induction 1 as [|n nodes Hn _ IH]; [done|].
  by rewrite filter_cons, decide_False.
Qed.

Lemma addToGroup_groups node groups nodes :
  NoDup (map fst groups) ->
  (Types.kind node ∉ map fst groups -> ofKind (Types.kind node) nodes = []) ->
  Forall (fun group => snd group <> []
                       /\ snd group = ofKind (fst group) nodes) groups ->
  Forall (fun group => snd group <> []
                       /\ snd group = ofKind (fst group) (nodes ++ [node]))
         (Prose.addToGroup node groups).
Proof.
  induction groups as [|[k l] groups IH]; intros Hdup Hnew Hall;
    cbn [Prose.addToGroup].
  { constructor; [|done]. cbn. split; [done|].
    rewrite ofKind_snoc, decide_True by done.
    rewrite Hnew; [done | apply not_elem_of_nil]. }
  cbn [map fst] in Hdup. apply NoDup_cons in Hdup as [Hk Hdup].
  apply Forall_cons in Hall as [[Hl1 Hl2] Hall]. cbn [fst snd] in *.
  destruct (decide (k = Types.kind node)) as [->|Hne].
  - constructor; cbn [fst snd].
    + split; [by destruct l|].
      by rewrite ofKind_snoc, decide_True, <- Hl2 by done.
    + rewrite Forall_forall in Hall. apply Forall_forall.
      intros [k' l'] Hin. destruct (Hall _ Hin) as [H1 H2].
      split; [done|]. cbn [fst snd] in *.
      rewrite ofKind_snoc, decide_False, app_nil_r; [done|].
      intros <-. apply Hk. apply list_elem_of_In, in_map_iff.
      exists (Types.kind node, l'). split; [done | by apply list_elem_of_In].
  - constructor; cbn [fst snd].
    + split; [done|]. by rewrite ofKind_snoc, decide_False, app_nil_r.
    + apply IH; [done | | done].
      intros Hnot. apply Hnew. intros H.
      apply elem_of_cons in H as [H|H]; [by subst | done].
Qed.

Lemma addToGroup_Grouped node groups nodes :
  Grouped groups nodes ->
  Grouped (Prose.addToGroup node groups) (nodes ++ [node]).
Proof.
  intros (Hdup & Hall & Hcover). unfold Grouped.
  rewrite addToGroup_keys. split; [|split].
  - destruct (decide _) as [Hin|Hin]; [done|].
    apply NoDup_app. split; [done|]. split; [|apply NoDup_singleton].
    intros k Hk Hk'. apply list_elem_of_singleton in Hk'. by subst.
  - apply addToGroup_groups; [done | | done].
    intros Hnot. apply ofKind_none.
    eapply Forall_impl; [exact Hcover|]. intros n Hn E. cbv beta in Hn.
    by rewrite E in Hn.
  - apply Forall_app. split.
    + eapply Forall_impl; [exact Hcover|]. intros n Hn. cbv beta in *.
      destruct (decide _); [done|]. apply elem_of_app. by left.
    + constructor; [|done].
      destruct (decide _) as [Hin|Hin]; [done|].
      apply elem_of_app. right. by left.
Qed.

Lemma groupByKind_Grouped nodes : Grouped (Prose.groupByKind nodes) nodes.
Proof.
  unfold Prose.groupByKind.
  enough (H : forall groups seen,
             Grouped groups seen ->
             Grouped (fold_left (fun groups node =>
                                   Prose.addToGroup node groups) nodes groups)
                     (seen ++ nodes))
    by (apply (H [] []); repeat split; constructor).
  induction nodes as [|node nodes IH]; intros groups seen H; cbn [fold_left].
  - by rewrite app_nil_r.
  - change (node :: nodes) with ([node] ++ nodes). rewrite app_assoc.
    by apply IH, addToGroup_Grouped.
Qed.

(** X15: grouping by kind is a partition that keeps the order of the file:
    no kind has two groups, no group is empty, the group of a kind holds
    exactly the declarations of that kind in their order, and every
    declaration's kind has a group. *)
Theorem groupByKind_partition (nodes : list FileNode) :
  let groups := Prose.groupByKind nodes in
  NoDup (map fst groups)
  /\ Forall (fun group => snd group <> []
                          /\ snd group = ofKind (fst group) nodes) groups
  /\ Forall (fun n => Types.kind n ∈ map fst groups) nodes
  /\ length (concat (map snd groups)) = length nodes.
Proof.
  cbv zeta. destruct (groupByKind_Grouped nodes) as (Hdup & Hall & Hcover).
  split; [done|]. split; [done|]. split; [done|].
  unfold Prose.groupByKind.
  enough (H : forall groups,
             length (concat (map snd (fold_left
                       (fun groups node => Prose.addToGroup node groups)
                       nodes groups)))
             = length (concat (map snd groups)) + length nodes)
    by (by rewrite H).
  clear. induction nodes as [|node nodes IH]; intros groups; cbn [fold_left].
  { cbn. lia. }
  rewrite IH. cbn [length].
  enough (length (concat (map snd (Prose.addToGroup node groups)))
          = S (length (concat (map snd groups)))) by lia.
  induction groups as [|[k l] groups IHg]; cbn [Prose.addToGroup]; [done|].
  destruct (decide _); cbn [map snd concat]; rewrite !length_app.
  - cbn. lia.
  - rewrite IHg. lia.
Qed.

Lemma get_Grouped kind groups nodes :
  Grouped groups nodes ->
  TemplateProse.get kind groups
  = match ofKind kind nodes with [] => None | _ :: _ => Some (ofKind kind nodes) end.
Proof.
  intros (Hdup & Hall & Hcover). unfold TemplateProse.get.
  destruct (find _ groups) as [[k l]|] eqn:E; cbn [fmap option_fmap option_map].
  - apply find_some in E as [Hin Hk]. apply bool_decide_eq_true in Hk.
    cbn in Hk. subst k. rewrite Forall_forall in Hall.
    apply list_elem_of_In in Hin. destruct (Hall _ Hin) as [Hne Heq].
    cbn [fst snd] in *. rewrite <- Heq. by destruct l.
  - rewrite ofKind_none; [done|].
    eapply Forall_impl; [exact Hcover|]. intros n Hn Hkind. cbv beta in Hn.
    apply list_elem_of_In, in_map_iff in Hn as ([k l] & Hk & Hin).
    apply (find_none _ _ E) in Hin. apply bool_decide_eq_false in Hin.
    cbn in *. congruence.
Qed.

Lemma outline_fold groups nodes kinds start :
  Grouped groups nodes ->
  fold_left (fun lines kind =>
               match TemplateProse.get kind groups with
               | None => lines
               | Some nodes =>
                   lines ++ TemplateProse.heading kind nodes
                         :: map TemplateProse.itemLine nodes
               end) kinds start
  = start ++ flat_map (fun kind => sectionOf kind (ofKind kind nodes)) kinds.
Proof.
  intros Hg. revert start.
  induction kinds as [|kind kinds IH]; intros start; cbn [fold_left flat_map].
  { by rewrite app_nil_r. }
  rewrite IH, (get_Grouped _ _ _ Hg). unfold sectionOf at 2.
  destruct (ofKind kind nodes); [done|]. by rewrite <- app_assoc.
Qed.

Lemma outline_sections structure :
  TemplateProse.outline structure
  = match Types.imports structure with
    | [] => []
    | _ :: _ =>
        (lit "Imports (" ++ ofNat (length (Types.imports structure))
                         ++ lit ")")
        :: map importLine (Types.imports structure)
    end
    ++ flat_map (fun kind =>
                   sectionOf kind (ofKind kind (Types.declarations structure)))
                TemplateProse.kindOrder.
Proof.
  unfold TemplateProse.outline. cbv zeta.
  rewrite (outline_fold _ _ _ _ (groupByKind_Grouped _)).
  by destruct (Types.imports structure).
Qed.

Lemma isItem_itemLine node : isItem (TemplateProse.itemLine node) = true.
Proof.
  unfold TemplateProse.itemLine, isItem. cbv zeta.
  destruct (_ && _); apply startsWith_app.
Qed.

Lemma heading_upper kind nodes :
  exists c rest, TemplateProse.heading kind nodes = c :: rest
                 /\ is_upper c = true /\ isItem (c :: rest) = false.
Proof.
  unfold TemplateProse.heading. cbv zeta.
  generalize (ofNat (length nodes)) as n. intros n.
  destruct kind; vm_compute; eexists _, _;
    (split; [reflexivity | split; reflexivity]).
Qed.

Lemma filter_items {A} (line : A -> jsstring) (nodes : list A) :
  (forall n, isItem (line n) = true) ->
  List.filter isItem (map line nodes) = map line nodes
  /\ List.filter (fun l => negb (isItem l)) (map line nodes) = [].
Proof.
  intros Hline. induction nodes as [|n nodes [IH1 IH2]]; [done|].
  cbn [map List.filter]. by rewrite Hline, IH1, IH2.
Qed.

Lemma filter_section kind nodes :
  List.filter isItem (sectionOf kind nodes) = map TemplateProse.itemLine nodes
  /\ Forall (fun line => exists c rest, line = c :: rest /\ is_upper c = true)
            (List.filter (fun l => negb (isItem l)) (sectionOf kind nodes)).
Proof.
  unfold sectionOf. destruct nodes as [|n l]; [by split|].
  destruct (heading_upper kind (n :: l)) as (c & rest & Hc & Hupper & Hhead).
  rewrite Hc. cbn [List.filter]. rewrite Hhead. cbn [negb].
  destruct (filter_items TemplateProse.itemLine (n :: l) isItem_itemLine)
    as [-> ->].
  split; [done|]. constructor; [by eexists _, _ | done].
Qed.

(** X16: the outline of the captions lists every import and then the
    declarations by kind, in the order function, class, type, variable,
    control structure, and in the order of the file within a kind.  The
    lines of declarations and imports start with two spaces, and every
    other line, a heading, starts with a capital letter, which is how the
    panel tells them apart. *)
Theorem outline_items_and_headings (structure : FileStructure) :
  let lines := TemplateProse.outline structure in
  List.filter isItem lines
  = map importLine (Types.imports structure)
    ++ flat_map (fun kind =>
                   map TemplateProse.itemLine
                       (ofKind kind (Types.declarations structure)))
                TemplateProse.kindOrder
  /\ Forall (fun line => exists c rest, line = c :: rest /\ is_upper c = true)
            (List.filter (fun line => negb (isItem line)) lines).
Proof.
  cbv zeta. rewrite outline_sections, !List.filter_app.
  assert (Hsections :
    forall kinds,
      List.filter isItem
        (flat_map (fun kind =>
                     sectionOf kind
                       (ofKind kind (Types.declarations structure))) kinds)
      = flat_map (fun kind =>
                    map TemplateProse.itemLine
                        (ofKind kind (Types.declarations structure))) kinds
      /\ Forall (fun line => exists c rest, line = c :: rest
                                            /\ is_upper c = true)
           (List.filter (fun line => negb (isItem line))
              (flat_map (fun kind =>
                     sectionOf kind
                       (ofKind kind (Types.declarations structure))) kinds))).
  { induction kinds as [|kind kinds [IH1 IH2]]; [by split|].
    cbn [flat_map]. rewrite !List.filter_app, IH1.
    destruct (filter_section kind
                (ofKind kind (Types.declarations structure))) as [-> Hheads].
    split; [done|]. by apply Forall_app. }
  destruct (Hsections TemplateProse.kindOrder) as [-> Hheads].
  destruct (Types.imports structure) as [|imp imps]; [by split|].
  destruct (filter_items importLine (imp :: imps)
              (fun n => startsWith_app (lit "  ") (Types.name n)))
    as [Ha Hb].
  cbn [List.filter].
  change (isItem (lit "Imports (" ++ _)) with false. cbn [negb].
  rewrite Ha, Hb. split; [done|].
  constructor; [|done]. by eexists _, _.
Qed.

(* ------------------------------------------------------------------ *)
(** ** Captions: the sentences *)
(* ------------------------------------------------------------------ *)

Lemma endsWithStop_app a b : endsWithStop b -> endsWithStop (a ++ b).
Proof. intros [body ->]. exists (a ++ body). by rewrite app_assoc. Qed.

Lemma endsWithStop_stop a : endsWithStop (a ++ lit ".").
Proof. by exists a. Qed.

Lemma groupByKind_nil nodes : Prose.groupByKind nodes = [] <-> nodes = [].
Proof.
  destruct (groupByKind_Grouped nodes) as (_ & _ & Hcover). split.
  - intros E. rewrite E in Hcover. destruct nodes as [|n nodes]; [done|].
    apply Forall_cons in Hcover as [Hn _]. by apply elem_of_nil in Hn.
  - by intros ->.
Qed.

(** X17: the summary of a file always ends with a full stop; it is the
    canned sentence exactly when the file has neither declarations nor
    imports, starts with "This file defines " when there are declarations,
    and is the sentence about the imports alone when there are only
    imports. *)
Theorem fileSummary_sentence (structure : FileStructure) :
  let summary := Prose.fileSummary structure in
  let imports := Types.imports structure in
  endsWithStop summary
  /\ (summary = cannedSummary
      <-> Types.declarations structure = [] /\ imports = [])
  /\ (Types.declarations structure <> [] ->
      startsWith summary (lit "This file defines ") = true)
  /\ (Types.declarations structure = [] -> imports <> [] ->
      summary = lit "imports from "
                ++ Prose.plural (length imports) (lit "module") ++ lit ".").
Proof.
  cbv zeta. unfold Prose.fileSummary. cbv zeta.
  rewrite length_map.
  pose proof (groupByKind_nil (Types.declarations structure)) as Hnil.
  set (kindParts := map _ (Prose.groupByKind _)).
  destruct (Prose.groupByKind (Types.declarations structure)) as [|g gs] eqn:Eg;
    destruct (Types.imports structure) as [|imp imps] eqn:Ei;
    destruct (Types.declarations structure) as [|d ds] eqn:Ed;
    try (by apply proj1 in Hnil; specialize (Hnil eq_refl));
    try (by apply proj2 in Hnil; specialize (Hnil eq_refl));
    cbn [length Nat.ltb Nat.leb app Nat.eqb join].
  - split; [by exists (lit "This file is empty or contains no recognizable constructs")|].
    split; [done|]. split; [done | done].
  - split; [apply endsWithStop_stop|]. split; [|split; [done | done]].
    split; [|intros [_ [=]]]. intros E. by apply (f_equal head) in E.
  - split; [apply endsWithStop_stop|]. split; [|split; [|done]].
    + split; [|intros [[=] _]]. intros E.
      apply (f_equal (take 11)) in E. rewrite <- app_assoc in E.
      by vm_compute in E.
    + intros _. rewrite <- app_assoc. apply startsWith_app.
  - split; [apply endsWithStop_stop|]. split; [|split; [|done]].
    + split; [|intros [[=] _]]. intros E.
      apply (f_equal (take 11)) in E. rewrite <- !app_assoc in E.
      by vm_compute in E.
    + intros _. rewrite <- !app_assoc. apply startsWith_app.
Qed.

Lemma endsWithStop_last s : last s = Some 46%N -> endsWithStop s.
Proof. intros H. apply last_Some in H. exact H. Qed.

Ltac full_stop :=
  repeat apply endsWithStop_app; apply endsWithStop_last; reflexivity.

(** X18: the summary of a declaration always ends with a full stop, where
    the keyword of a template block is one of the four the extractor gives.
    Only a function has a detail: it is empty exactly when the function
    calls nothing by name and has no condition, loop or return, and
    otherwise starts with "Inside, it " and ends with a full stop. *)
Theorem blockExplanation_sentences (node : FileNode)
  (Hblock : Types.kind node = Kcontrol ->
            startsWith (Types.keyword node) (lit "{#") = true ->
            In (Types.keyword node) blockKeywords) :
  let explanation := Prose.blockExplanation node in
  let inside := Types.childSummary node in
  endsWithStop (Prose.summary explanation)
  /\ (Types.kind node <> Kfunction -> Prose.detail explanation = [])
  /\ (Types.kind node = Kfunction ->
      (Prose.detail explanation = []
       <-> Types.calledFunctions inside = []
           /\ Types.conditionCount inside = 0
           /\ Types.loopCount inside = 0
           /\ Types.returnCount inside = 0)
      /\ (Prose.detail explanation <> [] ->
          startsWith (Prose.detail explanation) (lit "Inside, it ") = true
          /\ endsWithStop (Prose.detail explanation))).
Proof.
  cbv zeta. unfold Prose.blockExplanation. cbv zeta.
  destruct (Types.kind node) eqn:Hkind.
  - (* function *)
    cbn [Prose.summary Prose.detail].
    split; [full_stop|]. split; [done|]. intros _.
    destruct (Types.childSummary node) as [calls conds loops rets called].
    cbn [Types.calledFunctions Types.conditionCount Types.loopCount
         Types.returnCount].
    set (p1 := if 0 <? length called then _ else _).
    set (p2 := if 0 <? conds then _ else _).
    set (p3 := if 0 <? loops then _ else _).
    set (p4 := if 0 <? rets then _ else _).
    assert (Hparts : p1 ++ p2 ++ p3 ++ p4 = []
                     <-> called = [] /\ conds = 0 /\ loops = 0 /\ rets = 0).
    { subst p1 p2 p3 p4.
      destruct called as [|c called], conds as [|conds], loops as [|loops],
               rets as [|rets]; cbn [length Nat.ltb Nat.leb app];
        split; try done; try (by intros (? & ? & ? & ?)). }
    destruct (p1 ++ p2 ++ p3 ++ p4) as [|part parts] eqn:E.
    + cbn [length Nat.ltb Nat.leb]. split; [|done].
      split; [intros _; by apply Hparts | done].
    + cbn [length Nat.ltb Nat.leb]. split.
      * split; [intros H; by apply (f_equal head) in H|].
        intros H. by apply Hparts in H.
      * intros _. split; [apply startsWith_app|].
        apply endsWithStop_app, endsWithStop_stop.
  - (* class *)
    cbn [Prose.summary Prose.detail]. split; [full_stop | by split].
  - (* variable *)
    destruct (eqb (Types.keyword node) (lit "component"));
      cbn [Prose.summary Prose.detail]; (split; [full_stop | by split]).
  - (* import *)
    cbn [Prose.summary Prose.detail]. split; [full_stop | by split].
  - (* export *)
    cbn [Prose.summary Prose.detail]. split; [full_stop | by split].
  - (* control *)
    destruct (startsWith (Types.keyword node) (lit "{#")) eqn:Hkw;
      cbn [Prose.summary Prose.detail]; (split; [|by split]);
      [|full_stop].
    specialize (Hblock eq_refl eq_refl). revert Hblock.
    generalize (Types.keyword node) as keyword. intros keyword Hblock.
    each_tag Hblock; full_stop.
  - (* type *)
    cbn [Prose.summary Prose.detail]. split; [full_stop | by split].
Qed.

(* ------------------------------------------------------------------ *)
(** ** Concepts: the table, the instances and the tooltip *)
(* ------------------------------------------------------------------ *)

Lemma conceptMap_listed_gen name (rows : list (jsstring * list jsstring))
  (found : option jsstring) category :
  fold_left (fun (found : option jsstring) '(c, nodeNames) =>
               if includes nodeNames name then Some c else found)
            rows found = Some category ->
  found = Some category
  \/ exists tags, In (category, tags) rows /\ In name tags.
Proof.
  revert found. induction rows as [|[c tags] rows IH]; intros found;
    cbn [fold_left]; [by left|].
  intros H. apply IH in H as [H|(tags' & Hin & Hname)].
  - destruct (includes tags name) eqn:E; [|by left].
    injection H as <-. right. exists tags. split; [by left|].
    by apply includes_In.
  - right. exists tags'. split; [by right | done].
Qed.

Ltac each_row H :=
  cbn in H; repeat (destruct H as [[= <- <-]|H]; [|]); [..|done].

(** X19: a tag, other than the names every object inherits, has a category
    exactly when one of the nine lists holds it: no tag stands in two
    lists, so the order in which the table is filled never decides; and
    every category has a description, which is not empty. *)
Theorem conceptMap_follows_categories (name category : jsstring)
  (Hown : ~ In name inherited) :
  (Concepts.conceptMap name = Some category
   <-> exists tags, In (category, tags) Concepts.categories /\ In name tags)
  /\ (Concepts.conceptMap name = Some category ->
      truthy category = true
      /\ exists text, ConceptHover.describe category = Some text
                      /\ truthy text = true).
Proof.
  assert (Hlisted : Concepts.conceptMap name = Some category ->
                    exists tags, In (category, tags) Concepts.categories
                                 /\ In name tags).
  { intros H. by apply conceptMap_listed_gen in H as [H|H]. }
  split; [split; [exact Hlisted|]|].
  - intros (tags & Hin & Hname).
    each_row Hin; each_tag Hname; reflexivity.
  - intros H. destruct (Hlisted H) as (tags & Hin & _).
    each_row Hin; (split; [reflexivity | eexists; split; reflexivity]).
Qed.

Lemma iterate_plain doc node :
  plain node ->
  Concepts.iterate doc node = flat_map (Concepts.iterate doc) (Tree.children node).
Proof. unfold plain. rewrite iterate_eq. by intros ->. Qed.

Lemma conceptMap_truthy name category :
  Concepts.conceptMap name = Some category -> truthy category = true.
Proof.
  intros H. apply conceptMap_listed_gen in H as [H|(tags & Hin & _)]; [done|].
  each_row Hin; reflexivity.
Qed.

Lemma iterate_classified doc node category :
  Concepts.conceptMap (Tree.name node) = Some category ->
  Concepts.iterate doc node = [instanceOf doc node category].
Proof.
  intros H. rewrite iterate_eq, H, (conceptMap_truthy _ _ H).
  by destruct node.
Qed.


(** X20: in a tree with none of the inherited names among its tags, the
    instances are the outermost nodes with a category: a record is produced
    exactly for a node that has a category and lies below no node that has
    one, and it carries the tag, the span, the text and the line of that
    node. *)
Theorem extractConcepts_outermost
  (doc : Text) (topNode : SyntaxNode) (instance : Concepts.ConceptInstance)
  (Htags : ownTags topNode = true) :
  In instance (Concepts.extractConcepts doc topNode)
  <-> exists path node category,
        descends topNode path
        /\ last (topNode :: path) = Some node
        /\ Forall plain (removelast (topNode :: path))
        /\ Concepts.conceptMap (Tree.name node) = Some category
        /\ instance = instanceOf doc node category.
Proof.
  clear Htags. unfold Concepts.extractConcepts. revert instance.
  induction topNode as [name from to kids IH] using SyntaxNode_forall_ind.
  intros instance.
  set (top := Node name from to kids).
  destruct (Concepts.conceptMap (Tree.name top)) as [category|] eqn:Hcat.
  - rewrite (iterate_classified _ _ _ Hcat). split.
    + intros [<-|[]]. exists [], top, category. by repeat split.
    + intros (path & node & cat & Hpath & Hlast & Hplain & Hnode & ->).
      destruct path as [|n path].
      * injection Hlast as <-. rewrite Hcat in Hnode. injection Hnode as <-.
        by left.
      * cbn [removelast] in Hplain. apply Forall_cons in Hplain as [Hplain _].
        unfold plain in Hplain. congruence.
  - rewrite (iterate_plain _ _ Hcat). cbn [Tree.children top].
    rewrite in_flat_map. split.
    + intros (kid & Hkid & Hin).
      rewrite Forall_forall in IH.
      apply (IH kid ltac:(by apply list_elem_of_In)) in Hin
        as (path & node & cat & Hpath & Hlast & Hplain & Hnode & ->).
      exists (kid :: path), node, cat. repeat split; try done.
      cbn [removelast]. destruct path; by constructor.
    + intros (path & node & cat & Hpath & Hlast & Hplain & Hnode & ->).
      destruct path as [|kid path].
      { injection Hlast as <-. congruence. }
      destruct Hpath as [Hkid Hpath]. exists kid. split; [done|].
      rewrite Forall_forall in IH.
      apply (IH kid ltac:(by apply list_elem_of_In)).
      exists path, node, cat. repeat split; try done.
      cbn [removelast] in Hplain. by apply Forall_cons in Hplain as [_ Hplain].
Qed.





(* ------------------------------------------------------------------ *)
(** ** The description cache over many calls *)
(* ------------------------------------------------------------------ *)

Section Calls.

Variable digest : jsstring -> list N.
Variable Service : Type.
Variable describe : AiProse.DescribeOpts -> Service -> AiProse.Answer * Service.

Lemma describeFile_step call (w : AiProse.World Service) :
  let '(result, w') :=
    AiProse.describeFile digest Service describe
      (callFilename call) (callContent call) (callProjectFiles call)
      (callOutline call) w in
  (AiProse.received w' = AiProse.received w
   \/ AiProse.received w' = AiProse.received w ++ [requestOf call])
  /\ (cacheClean (AiProse.cache w) ->
      cacheClean (AiProse.cache w') /\ AiProse.cache w ⊆ AiProse.cache w').
Proof.
  assert (Hcases : misses digest (callFilename call) (callContent call) w
                   \/ ~ misses digest (callFilename call) (callContent call) w).
  { unfold misses. destruct (otruthy _); [by right | by left]. }
  destruct Hcases as [Hmiss|Hhit].
  - rewrite describeFile_miss by done. cbv zeta.
    destruct (describe _ (AiProse.service w)) as [answer s].
    cbn [AiProse.received AiProse.cache AiProse.text].
    split; [by right|]. intros Hclean.
    assert (Habsent : AiProse.cache w
                        !! AiProse.hashKey digest (callFilename call)
                                           (callContent call) = None).
    { unfold misses in Hmiss.
      destruct (AiProse.cache w !! _) as [v|] eqn:E; [|done].
      specialize (Hclean _ _ E). by destruct v. }
    unfold remember.
    destruct (AiProse.answerText answer) as [t|];
      [destruct t as [|c t]; cbn [truthy]|].
    + done.
    + split; [|by apply insert_subseteq].
      intros key value. destruct (decide (key = AiProse.hashKey digest
                                  (callFilename call) (callContent call)))
        as [->|Hne].
      * rewrite lookup_insert_eq. by intros [= <-].
      * rewrite lookup_insert_ne by done. apply Hclean.
    + done.
  - rewrite describeFile_hit by done. split; [by left | done].
Qed.

(** X22: over any sequence of calls, each made after the one before has
    resolved, the service receives at most one request per call, in the
    order of the calls: each is the request of its call, with the file name,
    the project files and the outline as given and at most 30,000 characters
    of content. *)
Theorem describeFile_requests_follow_calls
  (calls : list Call) (w : AiProse.World Service) :
  let '(results, w') := runAll digest describe calls w in
  length results = length calls
  /\ exists sent,
       AiProse.received w' = AiProse.received w ++ sent
       /\ subsequence sent (map requestOf calls)
       /\ Forall (fun opts => length (AiProse.fileContent opts)
                              <= AiProse.MAX_CONTENT_SIZE) sent.
Proof.
  revert w. induction calls as [|call calls IH]; intros w; cbn [runAll].
  { split; [done|]. exists []. by rewrite app_nil_r. }
  pose proof (describeFile_step call w) as Hstep.
  destruct (AiProse.describeFile _ _ _ _ _ _ _ w) as [result w1].
  specialize (IH w1). destruct (runAll _ _ calls w1) as [results w2].
  destruct IH as (Hlen & sent & Hsent & Hsub & Hsize).
  destruct Hstep as [Hreceived _].
  split; [cbn; by rewrite Hlen|].
  destruct Hreceived as [E|E]; rewrite Hsent, E.
  - exists sent. split; [done|]. split; [|done].
    cbn [map]. destruct sent; [done | by right].
  - exists (requestOf call :: sent). rewrite <- app_assoc.
    split; [done|]. split; [by left|]. constructor; [|done].
    unfold requestOf, request. cbn [AiProse.fileContent].
    unfold sentContent, slice.
    destruct (Nat.ltb_spec AiProse.MAX_CONTENT_SIZE
                           (length (callContent call))) as [Hlong|Hshort];
      [|done].
    rewrite length_take. lia.
Qed.

Lemma settle_cache waiting (w : AiProse.World Service) :
  cacheClean (AiProse.cache w) ->
  cacheClean (AiProse.cache (AiProse.settle Service waiting w).2)
  /\ dom (AiProse.cache w)
     ⊆ dom (AiProse.cache (AiProse.settle Service waiting w).2).
Proof.
  intros Hclean. rewrite settle_remember. cbn [snd AiProse.cache].
  unfold remember.
  destruct (AiProse.answerText _) as [t|]; [destruct t as [|c t]|];
    cbn [truthy]; [done| |done].
  split; [|rewrite dom_insert; apply union_subseteq_r].
  intros key value.
  destruct (decide (key = AiProse.waitingKey waiting)) as [->|Hne].
  - rewrite lookup_insert_eq. by intros [= <-].
  - rewrite lookup_insert_ne by done. apply Hclean.
Qed.

Lemma ask_cache call (w : AiProse.World Service) :
  AiProse.cache
    (AiProse.ask digest Service describe (callFilename call)
       (callContent call) (callProjectFiles call) (callOutline call) w).2
  = AiProse.cache w.
Proof.
  assert (Hcases : misses digest (callFilename call) (callContent call) w
                   \/ ~ misses digest (callFilename call) (callContent call) w).
  { unfold misses. destruct (otruthy _); [by right | by left]. }
  destruct Hcases as [Hmiss|Hhit].
  - rewrite ask_miss by done. cbv zeta.
    by destruct (describe _ (AiProse.service w)).
  - by rewrite ask_hit.
Qed.

Lemma turn_cache state t :
  cacheClean (AiProse.cache state.1) ->
  cacheClean (AiProse.cache (turn digest describe state t).1)
  /\ dom (AiProse.cache state.1)
     ⊆ dom (AiProse.cache (turn digest describe state t).1).
Proof.
  destruct state as [w waiting]. cbn [fst]. intros Hclean.
  destruct t as [call|i]; cbn [turn].
  - pose proof (ask_cache call w) as E.
    destruct (AiProse.ask _ _ _ _ _ _ _ w) as [step w1].
    cbn [fst snd] in *. by rewrite E.
  - destruct (waiting !! i) as [call|]; cbn [fst]; [|done].
    by apply settle_cache.
Qed.

Lemma interleave_cache turns state :
  cacheClean (AiProse.cache state.1) ->
  cacheClean (AiProse.cache (interleave digest describe turns state).1)
  /\ dom (AiProse.cache state.1)
     ⊆ dom (AiProse.cache (interleave digest describe turns state).1).
Proof.
  unfold interleave. revert state.
  induction turns as [|t turns IH]; intros state Hclean; cbn [fold_left];
    [done|].
  destruct (turn_cache state t Hclean) as [Hclean1 Hsub1].
  destruct (IH _ Hclean1) as [Hclean2 Hsub2].
  split; [done|]. by transitivity
    (dom (AiProse.cache (turn digest describe state t).1)).
Qed.

(** X23: when no cached text is empty, as in the empty cache, this stays so
    however the calls overlap, and no key leaves the cache.  Over calls made
    one after the other, each after the one before has resolved, the cache
    only grows: no entry is removed or replaced. *)
Theorem describeFile_cache_only_grows
  (w : AiProse.World Service)
  (Hclean : cacheClean (AiProse.cache w)) :
  (forall (turns : list Turn) (waiting : list AiProse.Waiting),
     let '(w', _) := interleave digest describe turns (w, waiting) in
     cacheClean (AiProse.cache w')
     /\ dom (AiProse.cache w) ⊆ dom (AiProse.cache w'))
  /\ (forall calls : list Call,
        let '(results, w') := runAll digest describe calls w in
        cacheClean (AiProse.cache w')
        /\ AiProse.cache w ⊆ AiProse.cache w').
Proof.
  split.
  - intros turns waiting.
    pose proof (interleave_cache turns (w, waiting) Hclean) as H.
    by destruct (interleave _ _ _ _).
  - intros calls. revert w Hclean.
    induction calls as [|call calls IH]; intros w Hclean;
      cbn [runAll]; [done|].
    pose proof (describeFile_step call w) as Hstep.
    destruct (AiProse.describeFile _ _ _ _ _ _ _ w) as [result w1].
    destruct Hstep as [_ Hcache].
    destruct (Hcache Hclean) as [Hclean1 Hsub1].
    specialize (IH w1 Hclean1). destruct (runAll _ _ calls w1) as [results w2].
    destruct IH as [Hclean2 Hsub2]. split; [done|].
    by transitivity (AiProse.cache w1).
Qed.

End Calls.

(** Overlapping calls can replace an entry.  Two calls for one file start
    before either is answered, by a service that numbers its answers: when
    the first returns the cache holds its text, and when the second returns
    that text is replaced. *)
Lemma overlapping_calls_replace_entry :
  let start := Starts {| callFilename := lit "a.ts";
                         callContent := lit "let a = 1";
                         callProjectFiles := []; callOutline := [] |} in
  let key := AiProse.hashKey checksum (lit "a.ts") (lit "let a = 1") in
  let w0 := {| AiProse.cache := ∅; AiProse.service := 0;
               AiProse.received := [] |} in
  let one := interleave checksum numbering [start; start; Finishes 0]
                        (w0, []) in
  let both := interleave checksum numbering [Finishes 0] one in
  AiProse.cache one.1 !! key = Some (lit "Answer 0")
  /\ AiProse.cache both.1 !! key = Some (lit "Answer 1")
  /\ length (AiProse.received both.1) = 2.
Proof. by vm_compute. Qed.

(* ------------------------------------------------------------------ *)
(** ** The cache key *)
(* ------------------------------------------------------------------ *)

Lemma hexDigit_range d :
  (d < 16)%N -> isHexDigit (AiProse.hexDigit d) = true.
Proof.
  intros H. unfold AiProse.hexDigit, isHexDigit.
  destruct (N.ltb_spec d 10).
  - replace (48 <=? 48 + d)%N with true by (symmetry; apply N.leb_le; lia).
    replace (48 + d <=? 57)%N with true by (symmetry; apply N.leb_le; lia).
    done.
  - replace (97 <=? 87 + d)%N with true by (symmetry; apply N.leb_le; lia).
    replace (87 + d <=? 102)%N with true by (symmetry; apply N.leb_le; lia).
    by rewrite orb_true_r.
Qed.

Lemma hexDigit_inj a b :
  (a < 16)%N -> (b < 16)%N -> AiProse.hexDigit a = AiProse.hexDigit b -> a = b.
Proof.
  unfold AiProse.hexDigit. intros Ha Hb.
  destruct (N.ltb_spec a 10), (N.ltb_spec b 10); lia.
Qed.

Lemma hexByte_inj a b :
  (a < 256)%N -> (b < 256)%N -> AiProse.hexByte a = AiProse.hexByte b -> a = b.
Proof.
  intros Ha Hb [= Hhi Hlo].
  apply hexDigit_inj in Hhi;
    [|apply N.Div0.div_lt_upper_bound; lia..].
  apply hexDigit_inj in Hlo; [|apply N.mod_lt; lia..].
  rewrite (N.div_mod a 16), (N.div_mod b 16) by lia. by rewrite Hhi, Hlo.
Qed.

Lemma hex_inj (a b : list N) :
  Forall (fun x => (x < 256)%N) a -> Forall (fun x => (x < 256)%N) b ->
  concat (map AiProse.hexByte a) = concat (map AiProse.hexByte b) -> a = b.
Proof.
  intros Ha. revert b. induction Ha as [|x a Hx _ IH]; intros b Hb;
    destruct Hb as [|y b Hy Hb]; try done.
  cbn [map concat]. unfold AiProse.hexByte at 1 3. cbn [app].
  intros [= H1 H2 Hrest]. f_equal; [|by apply IH].
  apply hexByte_inj; [done | done|]. unfold AiProse.hexByte. by rewrite H1, H2.
Qed.

Lemma framed_inj (version f1 c1 f2 c2 : jsstring) :
  Forall (fun c => c <> 0%N) f1 -> Forall (fun c => c <> 0%N) f2 ->
  version ++ [0%N] ++ f1 ++ [0%N] ++ c1 = version ++ [0%N] ++ f2 ++ [0%N] ++ c2 ->
  f1 = f2 /\ c1 = c2.
Proof.
  intros H1 H2 E. apply app_inv_head in E. cbn [app] in E.
  injection E as E. revert f2 H2 E.
  induction H1 as [|x f1 Hx _ IH]; intros f2 H2 E;
    destruct H2 as [|y f2 Hy H2]; cbn [app] in E.
  - by injection E as ->.
  - injection E as E _. by subst.
  - injection E as E _. by subst.
  - injection E as -> E. destruct (IH _ H2 E) as [-> ->]. done.
Qed.

Lemma utf8_not_nil x : utf8 x <> [].
Proof. unfold utf8. repeat destruct (_ <? _)%N; discriminate. Qed.

Ltac div_lia := Zify.zify; Z.to_euclidean_division_equations; Lia.lia.

Lemma utf8_bytes x : (x < 0x110000)%N -> Forall (fun b => (b < 256)%N) (utf8 x).
Proof.
  intros Hx. unfold utf8.
  destruct (N.ltb_spec x 0x80); [|destruct (N.ltb_spec x 0x800);
    [|destruct (N.ltb_spec x 0x10000)]];
    repeat first [apply List.Forall_nil | apply List.Forall_cons; [div_lia|]].
Qed.

(** The encodings of two code points do not overlap: each tells where it
    ends. *)
Lemma utf8_inj x y r r' :
  (x < 0x110000)%N -> (y < 0x110000)%N ->
  utf8 x ++ r = utf8 y ++ r' -> x = y /\ r = r'.
Proof.
  intros Hx Hy. unfold utf8.
  destruct (N.ltb_spec x 0x80); [|destruct (N.ltb_spec x 0x800);
    [|destruct (N.ltb_spec x 0x10000)]];
  (destruct (N.ltb_spec y 0x80); [|destruct (N.ltb_spec y 0x800);
    [|destruct (N.ltb_spec y 0x10000)]]);
  cbn [app]; intros E; injection E as E; subst;
  first [ split; [div_lia | congruence] | exfalso; div_lia ].
Qed.

Lemma surrogate_high c :
  isHighSurrogate c = true <-> (0xD800 <= c <= 0xDBFF)%N.
Proof.
  unfold isHighSurrogate. rewrite andb_true_iff, !N.leb_le. done.
Qed.

Lemma surrogate_low c :
  isLowSurrogate c = true <-> (0xDC00 <= c <= 0xDFFF)%N.
Proof.
  unfold isLowSurrogate. rewrite andb_true_iff, !N.leb_le. done.
Qed.

Lemma codePointOf_range c d :
  isHighSurrogate c = true -> isLowSurrogate d = true ->
  (0x10000 <= codePointOf c d < 0x110000)%N.
Proof.
  rewrite surrogate_high, surrogate_low. unfold codePointOf. lia.
Qed.

Lemma codePointOf_inj c d c' d' :
  isHighSurrogate c = true -> isLowSurrogate d = true ->
  isHighSurrogate c' = true -> isLowSurrogate d' = true ->
  codePointOf c d = codePointOf c' d' -> c = c' /\ d = d'.
Proof.
  rewrite !surrogate_high, !surrogate_low. unfold codePointOf. lia.
Qed.

(** How a well-formed string begins: with a pair, encoded as one code
    point, or with a code unit that is no surrogate. *)
Lemma encode_wellFormed c rest :
  isWellFormed (c :: rest) = true ->
  (exists d rest',
     rest = d :: rest' /\ isHighSurrogate c = true
     /\ isLowSurrogate d = true /\ isWellFormed rest' = true
     /\ encode (c :: rest) = utf8 (codePointOf c d) ++ encode rest')
  \/ (isHighSurrogate c = false /\ (c < 0x10000)%N
      /\ isWellFormed rest = true
      /\ encode (c :: rest) = utf8 c ++ encode rest).
Proof.
  cbn [isWellFormed encode].
  destruct (isHighSurrogate c) eqn:Hhigh.
  - destruct rest as [|d rest']; [done|].
    intros [Hlow Hrest]%andb_true_iff. left. exists d, rest'.
    by rewrite Hlow.
  - intros [[Hlow Hc]%andb_true_iff Hrest]%andb_true_iff. right.
    apply negb_true_iff in Hlow. rewrite Hlow.
    apply N.ltb_lt in Hc. done.
Qed.

(** Strings without a lone surrogate have different encodings. *)
Lemma encode_inj a b :
  isWellFormed a = true -> isWellFormed b = true ->
  encode a = encode b -> a = b.
Proof.
  remember (length a) as n eqn:Hn. revert a b Hn.
  induction n as [n IH] using lt_wf_ind. intros a b -> Ha Hb E.
  destruct a as [|c ra], b as [|c' rb]; [done| | |].
  - destruct (encode_wellFormed _ _ Hb) as [(d & r & _ & _ & _ & _ & E')|(_ & _ & _ & E')];
      rewrite E' in E; cbn [encode] in E; symmetry in E;
      apply app_eq_nil in E as [E _]; by apply utf8_not_nil in E.
  - destruct (encode_wellFormed _ _ Ha) as [(d & r & _ & _ & _ & _ & E')|(_ & _ & _ & E')];
      rewrite E' in E; cbn [encode] in E;
      apply app_eq_nil in E as [E _]; by apply utf8_not_nil in E.
  - destruct (encode_wellFormed _ _ Ha)
      as [(d & r & -> & Hc & Hd & Hr & Ea)|(Hc & Hlt & Hr & Ea)];
    destruct (encode_wellFormed _ _ Hb)
      as [(d' & r' & -> & Hc' & Hd' & Hr' & Eb)|(Hc' & Hlt' & Hr' & Eb)];
    rewrite Ea, Eb in E.
    + pose proof (codePointOf_range c d Hc Hd).
      pose proof (codePointOf_range c' d' Hc' Hd').
      apply utf8_inj in E as [Hcp E]; [|lia..].
      apply codePointOf_inj in Hcp as [-> ->]; [|done..].
      do 2 f_equal. eapply (IH (length r)); [cbn; lia|done..].
    + pose proof (codePointOf_range c d Hc Hd).
      apply utf8_inj in E as [Hcp E]; lia.
    + pose proof (codePointOf_range c' d' Hc' Hd').
      apply utf8_inj in E as [Hcp E]; lia.
    + apply utf8_inj in E as [-> E]; [|lia..].
      f_equal. eapply (IH (length ra)); [cbn; lia|done..].
Qed.

Lemma isWellFormed_app a b :
  isWellFormed a = true -> isWellFormed b = true ->
  isWellFormed (a ++ b) = true.
Proof.
  remember (length a) as n eqn:Hn. revert a Hn.
  induction n as [n IH] using lt_wf_ind. intros a -> Ha Hb.
  destruct a as [|c ra]; [done|].
  destruct (encode_wellFormed _ _ Ha)
    as [(d & r & -> & Hc & Hd & Hr & _)|(Hc & Hlt & Hr & _)].
  - cbn [app isWellFormed]. rewrite Hc, Hd. cbn [andb].
    eapply (IH (length r)); [cbn; lia|done..].
  - cbn [app isWellFormed] in *. rewrite Hc in *.
    apply andb_true_iff in Ha as [Ha _]. rewrite Ha. cbn [andb].
    eapply (IH (length ra)); [cbn; lia|done..].
Qed.

Section Key.

Variable digest : jsstring -> list N.
Hypothesis digest_bytes : forall data, Forall (fun b => (b < 256)%N) (digest data).

(** X24: the cache key is written in lower-case hexadecimal, two digits for
    each byte of the digest. *)
Theorem hashKey_is_hexadecimal (filename content : jsstring) :
  exists bytes,
    bytes = digest (AiProse.CACHE_VERSION ++ [0%N] ++ filename ++ [0%N]
                                          ++ content)
    /\ length (AiProse.hashKey digest filename content) = 2 * length bytes
    /\ Forall (fun c => isHexDigit c = true)
              (AiProse.hashKey digest filename content).
Proof using digest_bytes.
  eexists. split; [reflexivity|]. unfold AiProse.hashKey. cbv zeta.
  generalize (digest_bytes (AiProse.CACHE_VERSION ++ [0%N] ++ filename
                                                  ++ [0%N] ++ content)).
  generalize (digest (AiProse.CACHE_VERSION ++ [0%N] ++ filename
                                            ++ [0%N] ++ content)).
  induction 1 as [|b bytes Hb _ [IH1 IH2]]; [by split|].
  cbn [map concat length]. rewrite length_app, IH1. split; [cbn; lia|].
  apply Forall_app. split; [|done].
  constructor; [|constructor; [|done]]; apply hexDigit_range.
  - apply N.Div0.div_lt_upper_bound. lia.
  - apply N.mod_lt. lia.
Qed.

End Key.

Section Identity.

(** SHA-256, from bytes to bytes; [hashKey] hashes the UTF-8 encoding of its
    data. *)
Variable sha256 : list N -> list N.
Hypothesis sha256_bytes :
  forall data, Forall (fun b => (b < 256)%N) (sha256 data).

(** A lone high surrogate and a lone low surrogate are encoded alike: two
    such file names have one key. *)
Lemma hashKey_lone_surrogates_collide :
  AiProse.hashKey (fun data => sha256 (encode data)) [0xD800%N] (lit "x")
  = AiProse.hashKey (fun data => sha256 (encode data)) [0xDC00%N] (lit "x").
Proof.
  unfold AiProse.hashKey. cbv zeta.
  assert (E : encode (AiProse.CACHE_VERSION ++ [0%N] ++ [0xD800%N] ++ [0%N]
                                            ++ lit "x")
              = encode (AiProse.CACHE_VERSION ++ [0%N] ++ [0xDC00%N] ++ [0%N]
                                              ++ lit "x"))
    by (vm_compute; reflexivity).
  by rewrite E.
Qed.

(** X25: the key tells files apart as well as SHA-256 does.  Take file
    names and contents in well-formed UTF-16, the file names without a NUL
    character, which is what separates the name from the content.  Two
    calls that differ in the file name or in the content hash different
    bytes, and their keys are equal exactly when SHA-256 gives these
    different bytes one digest. *)
Theorem hashKey_identifies_file (filename1 content1 filename2 content2 : jsstring)
  (Hname1 : Forall (fun c => c <> 0%N) filename1)
  (Hname2 : Forall (fun c => c <> 0%N) filename2)
  (Hfile1 : isWellFormed filename1 = true /\ isWellFormed content1 = true)
  (Hfile2 : isWellFormed filename2 = true /\ isWellFormed content2 = true)
  (Hdifferent : filename1 <> filename2 \/ content1 <> content2) :
  let digest := fun data => sha256 (encode data) in
  let bytes1 := encode (keyData filename1 content1) in
  let bytes2 := encode (keyData filename2 content2) in
  bytes1 <> bytes2
  /\ (AiProse.hashKey digest filename1 content1
      = AiProse.hashKey digest filename2 content2
      <-> sha256 bytes1 = sha256 bytes2).
Proof using sha256_bytes.
  cbv zeta. destruct Hfile1 as [Hf1 Hc1], Hfile2 as [Hf2 Hc2]. split.
  - intros E. apply encode_inj in E.
    + apply framed_inj in E; [|done..]. destruct E. tauto.
    + repeat apply isWellFormed_app; done.
    + repeat apply isWellFormed_app; done.
  - unfold AiProse.hashKey, keyData. cbv zeta. split.
    + intros E. apply hex_inj in E; [done|apply sha256_bytes..].
    + by intros ->.
Qed.

End Identity.

(* ------------------------------------------------------------------ *)
(** ** The panel: escaping, stale answers and the symbol map *)
(* ------------------------------------------------------------------ *)

Lemma replaceEach_flat_map c by_ (f : N -> jsstring) s :
  BookPanel.replaceEach c by_ (flat_map f s)
  = flat_map (fun x => BookPanel.replaceEach c by_ (f x)) s.
Proof.
  unfold BookPanel.replaceEach. induction s as [|x s IH]; [done|].
  cbn [flat_map]. by rewrite flat_map_app, IH.
Qed.

Lemma replaceEach_one c by_ x :
  BookPanel.replaceEach c by_ [x] = if (x =? c)%N then by_ else [x].
Proof. unfold BookPanel.replaceEach. cbn. by rewrite app_nil_r. Qed.

Lemma escapeHtml_escaped s : BookPanel.escapeHtml s = flat_map escaped s.
Proof.
  unfold BookPanel.escapeHtml.
  unfold BookPanel.replaceEach at 3. rewrite !replaceEach_flat_map.
  apply flat_map_ext. intros x. unfold escaped.
  destruct (N.eqb_spec x 38) as [->|H38]; [reflexivity|].
  rewrite replaceEach_one.
  destruct (N.eqb_spec x 60) as [->|H60]; [reflexivity|].
  rewrite replaceEach_one.
  by destruct (N.eqb_spec x 62) as [->|H62].
Qed.

Lemma escaped_head x y (a b : jsstring) :
  escaped x ++ a = escaped y ++ b -> x = y /\ a = b.
Proof.
  unfold escaped.
  destruct (N.eqb_spec x 38) as [->|Hx1];
    [|destruct (N.eqb_spec x 60) as [->|Hx2];
      [|destruct (N.eqb_spec x 62) as [->|Hx3]]];
  (destruct (N.eqb_spec y 38) as [->|Hy1];
    [|destruct (N.eqb_spec y 60) as [->|Hy2];
      [|destruct (N.eqb_spec y 62) as [->|Hy3]]]);
  cbn; intros E; try (by injection E as ->); try congruence;
  injection E; intros; by subst.
Qed.

(** X26: escaped text holds no angle bracket, is the text with each of the
    characters [&], [<] and [>] replaced by its entity and nothing else
    changed, and can be read back: different texts stay different. *)
Theorem escapeHtml_safe_and_faithful (s t : jsstring) :
  Forall (fun c => c <> 60%N /\ c <> 62%N) (BookPanel.escapeHtml s)
  /\ BookPanel.escapeHtml (s ++ t)
     = BookPanel.escapeHtml s ++ BookPanel.escapeHtml t
  /\ (BookPanel.escapeHtml s = BookPanel.escapeHtml t <-> s = t)
  /\ length s <= length (BookPanel.escapeHtml s).
Proof.
  rewrite !escapeHtml_escaped. split; [|split; [|split]].
  - apply Forall_flat_map, Forall_forall. intros x _. unfold escaped.
    destruct (N.eqb_spec x 38); [by repeat constructor|].
    destruct (N.eqb_spec x 60); [by repeat constructor|].
    destruct (N.eqb_spec x 62); [by repeat constructor|].
    by repeat constructor.
  - apply flat_map_app.
  - split; [|by intros ->]. revert t.
    induction s as [|x s IH]; intros [|y t]; cbn [flat_map]; try done.
    + intros E. symmetry in E. apply app_eq_nil in E as [E _].
      unfold escaped in E. by repeat destruct (_ =? _)%N.
    + intros E. apply app_eq_nil in E as [E _].
      unfold escaped in E. by repeat destruct (_ =? _)%N.
    + intros E. apply escaped_head in E as [-> E]. f_equal. by apply IH.
  - induction s as [|x s IH]; [done|]. cbn [flat_map length].
    rewrite length_app.
    enough (1 <= length (escaped x)) by lia.
    unfold escaped. repeat destruct (_ =? _)%N; cbn; lia.
Qed.

Lemma resume_requestId id filename result panel :
  BookPanel.requestId
    (default panel (BookPanel.resume id filename result panel))
  = BookPanel.requestId panel.
Proof.
  unfold BookPanel.resume.
  destruct (negb _); [done|]. destruct (otruthy _); [done|].
  by destruct (AiProse.text result).
Qed.

Lemma run_requestId events panel :
  BookPanel.requestId panel <= BookPanel.requestId (run events panel).
Proof.
  unfold run. revert panel.
  induction events as [|event events IH]; intros panel; cbn [fold_left];
    [done|].
  etransitivity; [|apply IH].
  destruct event as [filename|id filename result]; cbn [step].
  - cbn. lia.
  - by rewrite resume_requestId.
Qed.

(** X27: an answer that arrives after a later update has begun is
    discarded: whatever else happened in between, the panel stays as it
    is.  An answer to the latest update is shown: the error, when the
    result has one, and otherwise the text.  When the result has neither,
    [update] throws and the panel goes on showing that it is loading. *)
Theorem stale_answer_is_discarded
  (panel : BookPanel.Panel) (filename later : jsstring)
  (between after : list Event) (result : AiProse.Described) :
  let '(id, started) := BookPanel.begin filename panel in
  let superseded := run (between ++ Begins later :: after) started in
  BookPanel.resume id filename result superseded = Some superseded
  /\ BookPanel.resume id filename result started
     = (if otruthy (AiProse.error result)
        then Some {| BookPanel.requestId := id;
                     BookPanel.container :=
                       BookPanel.Failed (default [] (AiProse.error result)) |}
        else match AiProse.text result with
             | Some text =>
                 Some {| BookPanel.requestId := id;
                         BookPanel.container :=
                           BookPanel.Prose filename text
                                           (AiProse.truncated result) |}
             | None => None
             end)
  /\ (otruthy (AiProse.error result) = false ->
      AiProse.text result = None ->
      run [Arrives id filename result] started = started
      /\ BookPanel.container started = BookPanel.Loading filename).
Proof.
  cbn [BookPanel.begin]. split; [|split].
  - set (started := {| BookPanel.requestId := S (BookPanel.requestId panel);
                       BookPanel.container := BookPanel.Loading filename |}).
    unfold run. rewrite fold_left_app. cbn [fold_left step BookPanel.begin snd].
    set (mid := fold_left step between started).
    pose proof (run_requestId between started) as H1.
    pose proof (run_requestId after
                  {| BookPanel.requestId := S (BookPanel.requestId mid);
                     BookPanel.container := BookPanel.Loading later |}) as H2.
    unfold run in H1, H2. fold mid in H1.
    cbn [BookPanel.requestId] in H1, H2.
    unfold BookPanel.resume.
    destruct (Nat.eqb_spec (S (BookPanel.requestId panel))
                (BookPanel.requestId (fold_left step after
                   {| BookPanel.requestId := S (BookPanel.requestId mid);
                      BookPanel.container := BookPanel.Loading later |})))
      as [E|E]; [|done].
    subst started. cbn [BookPanel.requestId] in H1. lia.
  - unfold BookPanel.resume. cbn [BookPanel.requestId].
    rewrite Nat.eqb_refl. cbn [negb]. by destruct (otruthy _).
  - intros Herror Htext. split; [|done].
    unfold run. cbn [fold_left step]. unfold BookPanel.resume.
    cbn [BookPanel.requestId]. rewrite Nat.eqb_refl. cbn [negb].
    by rewrite Herror, Htext.
Qed.














(* ------------------------------------------------------------------ *)
(** ** The language of a file *)
(* ------------------------------------------------------------------ *)

Lemma split_app sep a b :
  split sep (a ++ sep :: b) = split sep a ++ split sep b.
Proof.
  induction a as [|c a IH]; cbn [app split].
  { by rewrite N.eqb_refl. }
  rewrite IH. destruct (split_cons sep a) as (p & r & ->).
  by destruct (c =? sep)%N.
Qed.

Lemma split_whole sep s : Forall (fun c => c <> sep) s -> split sep s = [s].
Proof.
  induction 1 as [|c s Hc _ IH]; [done|]. cbn [split].
  apply N.eqb_neq in Hc. by rewrite Hc, IH.
Qed.

(** X29: the language of a file is read from what follows the last dot of
    its name and is one of svelte, js, py and rs; anything that is not a
    known extension counts as js. *)
Theorem detectLanguage_reads_extension (stem ext : jsstring)
  (Hext : Forall (fun c => c <> 46%N) ext) :
  detectLanguage (stem ++ [46%N] ++ ext) = detectLanguage ext
  /\ In (detectLanguage ext) (lits ["svelte"; "js"; "py"; "rs"]%string)
  /\ (detectLanguage ext = lit "svelte" <-> ext = lit "svelte")
  /\ (detectLanguage ext = lit "py" <-> ext = lit "py")
  /\ (detectLanguage ext = lit "rs" <-> ext = lit "rs").
Proof.
  assert (Hlast : forall name,
             last (split 46 name) = Some ext ->
             detectLanguage name = detectLanguage ext).
  { intros name H. unfold detectLanguage.
    by rewrite H, (split_whole _ _ Hext). }
  split.
  { apply Hlast. cbn [app]. rewrite split_app, (split_whole _ _ Hext).
    by rewrite last_snoc. }
  unfold detectLanguage. rewrite (split_whole _ _ Hext).
  change (default [] (last [ext])) with ext. cbv zeta.
  unfold eqb.
  destruct (decide (ext = lit "svelte")) as [->|H1];
    [by repeat split; try (by left)|].
  rewrite (bool_decide_eq_false_2 _ H1).
  destruct (includes _ ext) eqn:Hjs.
  { apply includes_In in Hjs. split; [right; by left|].
    repeat split; try done; intros ->; revert Hjs; clear;
      cbn; intros H; repeat (destruct H as [H|H]; [by vm_compute in H|]);
      done. }
  destruct (decide (ext = lit "py")) as [->|H2].
  { split; [do 2 right; by left|]. by repeat split. }
  rewrite (bool_decide_eq_false_2 _ H2).
  destruct (decide (ext = lit "rs")) as [->|H3].
  { split; [do 3 right; by left|]. by repeat split. }
  rewrite (bool_decide_eq_false_2 _ H3).
  split; [right; by left|]. by repeat split.
Qed.

(* ------------------------------------------------------------------ *)
(** ** Svelte files and their captions *)
(* ------------------------------------------------------------------ *)

Lemma programKeyword_captioned node :
  programKeyword (Types.keyword node) -> captioned node.
Proof.
  intros [Hblock Hcomponent]. unfold captioned. cbv zeta.
  split; [by rewrite Hblock | done].
Qed.

Lemma programKeyword_tag node lang kind :
  Extractor.classifyNode node lang = Some kind ->
  programKeyword (Tree.name node).
Proof.
  intros H. apply classifyNode_listed in H. revert H.
  generalize (Tree.name node) as name. intros name.
  unfold tagsOf, Extractor.funcNodes, Extractor.classNodes,
    Extractor.importNodes, Extractor.exportNodes, Extractor.typeNodes,
    Extractor.varNodes.
  destruct (rowOf_table lang) as [H|[H|H]]; rewrite !H;
    destruct kind; intros Hin; each_tag Hin; by split.
Qed.

Lemma programKeyword_built doc lang at_ node fileNode :
  Extractor.buildFileNode doc lang at_ node = Some fileNode ->
  programKeyword (Types.keyword fileNode).
Proof.
  intros Hbuilt.
  pose proof (buildFileNode_classified doc lang at_ node) as Hkind.
  rewrite Hbuilt in Hkind. cbn in Hkind. symmetry in Hkind.
  apply programKeyword_tag in Hkind.
  rewrite buildFileNode_unfold in Hbuilt.
  destruct (Extractor.classifyNode node lang); [|done].
  injection Hbuilt as <-. cbn [Types.keyword].
  unfold Extractor.extractKeyword.
  destruct (Extractor.keywordMatch _) as [k|] eqn:E; [|done].
  apply keywordMatch_keyword in E. cbn [default].
  each_keyword E; by split.
Qed.

Lemma captioned_block doc node :
  includes Svelte.svelteBlockNodes (Tree.name node) = true ->
  captioned (Svelte.blockNode doc node).
Proof.
  intros H. apply includes_In in H.
  unfold captioned, Svelte.blockNode, Prose.blockExplanation. cbv zeta.
  cbn [Types.kind Types.keyword Types.name].
  set (name := Prose.humanizeName _). clearbody name. revert H.
  generalize (Tree.name node) as tag. intros tag H.
  each_tag H;
    (split; [intros _; split; [vm_compute; tauto|]; split; [done|];
             eexists; split; reflexivity
            | by intros [=]]).
Qed.

Lemma captioned_component doc node :
  captioned (Svelte.componentNode doc node).
Proof.
  unfold captioned, Svelte.componentNode, Prose.blockExplanation. cbv zeta.
  cbn [Types.kind Types.keyword Types.name]. split; [by intros [=]|].
  intros _. by split.
Qed.

Lemma captioned_push node structure :
  captioned node ->
  Forall captioned (Types.declarations structure) ->
  Forall captioned (Types.declarations (Types.pushDeclaration node structure)).
Proof. intros Hn H. cbn. apply Forall_app. split; [done | by constructor]. Qed.

Lemma captioned_enter doc at_ node v :
  Forall captioned (Types.declarations (Svelte.structure v)) ->
  Forall captioned
    (Types.declarations (Svelte.structure (snd (Svelte.enter doc at_ node v)))).
Proof.
  intros H. unfold Svelte.enter.
  destruct (bool_decide _); [done|].
  destruct (includes _ _) eqn:Hblock.
  { cbn. apply Forall_app. split; [done|]. constructor; [|done].
    by apply captioned_block. }
  destruct (eqb _ _).
  { cbn. apply Forall_app. split; [done|]. constructor; [|done].
    apply captioned_component. }
  destruct (Extractor.classifyNode node (lit "js")); [|done].
  cbn [snd Svelte.record Svelte.structure].
  destruct (Extractor.buildFileNode _ _ at_ node) as [fileNode|] eqn:Hbuilt;
    [|done].
  apply programKeyword_built, programKeyword_captioned in Hbuilt.
  destruct (Types.kind fileNode) eqn:Hkind; try (by apply captioned_push);
    [done|].
  cbn [Types.pushExport Types.declarations].
  destruct (Tree.firstChild node) as [inner|]; [|done].
  destruct (Extractor.buildFileNode _ _ _ inner) as [innerNode|] eqn:Hinner;
    [|done].
  apply captioned_push; [|done].
  apply programKeyword_captioned.
  apply programKeyword_built in Hinner. by destruct innerNode.
Qed.

Lemma captioned_iterate doc node :
  forall at_ v,
    Forall captioned (Types.declarations (Svelte.structure v)) ->
    Forall captioned
      (Types.declarations (Svelte.structure (Svelte.iterate doc at_ node v))).
Proof.
  induction node as [name from to kids IH] using SyntaxNode_forall_ind.
  intros at_ v Hv. cbn [Svelte.iterate].
  pose proof (captioned_enter doc at_ (Node name from to kids) v Hv) as Henter.
  destruct (Svelte.enter doc at_ (Node name from to kids) v)
    as [descend v'].
  cbn [snd] in Henter. destruct descend; [|done].
  generalize (@None jsstring) as prev. revert v' Henter.
  induction IH as [|kid kids Hkid _ IHkids]; intros v' Hv' prev; [done|].
  apply IHkids, Hkid, Hv'.
Qed.

(** X30: in the structure of any file, a declaration with the keyword of a
    template block, one that starts with an opening brace and a hash, is a
    control structure of one of the four Svelte blocks, and its caption is
    one of the four canned descriptions; a declaration with the keyword
    [component] is a variable whose caption says that the component is
    used. *)
Theorem template_blocks_have_their_captions
  (doc : Text) (filename : jsstring) (topNode : SyntaxNode) :
  Forall captioned
    (Types.declarations (Svelte.extractFileStructure doc filename topNode)).
Proof.
  unfold Svelte.extractFileStructure. cbv zeta.
  destruct (eqb _ _).
  - unfold Svelte.extractSvelteNodes. by apply captioned_iterate.
  - eapply Forall_impl; [|intros d; apply programKeyword_captioned].
    unfold Extractor.extractFileStructure.
    apply (every_walkJsNodes
             (fun d => programKeyword (Types.keyword d))).
    + by intros [].
    + by intros [].
    + apply Forall_forall. intros node _. apply Forall_forall.
      intros n _ at_ f Hf. by apply programKeyword_built in Hf.
    + by repeat split.
Qed.

(* ================================================================== *)
(** ** The properties at the examples *)
(* ================================================================== *)

Lemma buildFileNode_spans_nested_witness :
  wellFormed ScopeExample.outer = true
  /\ exists decl,
       Extractor.buildFileNode (Tree.document ScopeExample.source) (lit "js")
         ExportExample.place ScopeExample.outer = Some decl
       /\ Types.from decl = 0 /\ Types.to decl = 55
       /\ spansNested decl = true.
Proof.
  split; [reflexivity|].
  destruct (Extractor.buildFileNode (Tree.document ScopeExample.source)
              (lit "js") ExportExample.place ScopeExample.outer)
    as [decl|] eqn:E; [|vm_compute in E; discriminate].
  exists decl. split; [reflexivity|].
  exact (buildFileNode_spans_nested _ _ _ ScopeExample.outer decl eq_refl E).
Defined.

Lemma buildFileNode_fields_fit_kind_witness :
  exists decl,
    Extractor.buildFileNode (Tree.document ScopeExample.source) (lit "js")
      ExportExample.place ScopeExample.outer = Some decl
    /\ Extractor.classifyNode ScopeExample.outer (lit "js")
       = Some (Types.kind decl)
    /\ Forall fieldsFitKind (declarationsOf decl).
Proof.
  destruct (Extractor.buildFileNode (Tree.document ScopeExample.source)
              (lit "js") ExportExample.place ScopeExample.outer)
    as [decl|] eqn:E; [|vm_compute in E; discriminate].
  exists decl. split; [reflexivity|].
  exact (buildFileNode_fields_fit_kind _ _ _ ScopeExample.outer decl E).
Defined.

Lemma extractKeyword_reads_keyword_witness :
  Extractor.headText (Tree.document KeywordExample.source) 30
                     KeywordExample.declaration
  = lit "export async function f() {}"
  /\ Extractor.extractKeyword (Tree.document KeywordExample.source)
                              KeywordExample.declaration
     = lit "function".
Proof.
  split; [reflexivity|].
  apply (extractKeyword_reads_keyword
           (Tree.document KeywordExample.source) KeywordExample.declaration
           true true [32%N] [32%N] (lit "function") (lit " f() {}")).
  - do 3 right. left. reflexivity.
  - split; [discriminate | repeat constructor].
  - split; [discriminate | repeat constructor].
  - reflexivity.
  - reflexivity.
Defined.

Lemma classifyNode_follows_tables_witness :
  In (lit "js") tableLanguages
  /\ (Extractor.classifyNode ScopeExample.outer (lit "js") = Some Kfunction
      <-> In (Tree.name ScopeExample.outer) (tagsOf Kfunction (lit "js"))).
Proof.
  assert (H : In (lit "js") tableLanguages) by (left; reflexivity).
  split; [exact H|].
  exact (classifyNode_follows_tables ScopeExample.outer (lit "js") Kfunction H).
Defined.

Lemma outer_is_not_svelte : detectLanguage (lit "outer.js") <> lit "svelte".
Proof. discriminate. Qed.

Lemma extractFileStructure_routed_witness :
  detectLanguage (lit "outer.js") <> lit "svelte"
  /\ routed (Svelte.extractFileStructure (Tree.document ScopeExample.source)
                                         (lit "outer.js") ScopeExample.script)
  /\ Types.language
       (Svelte.extractFileStructure (Tree.document ScopeExample.source)
                                    (lit "outer.js") ScopeExample.script)
     = detectLanguage (lit "outer.js").
Proof.
  split; [exact outer_is_not_svelte|].
  exact (extractFileStructure_routed (Tree.document ScopeExample.source)
           (lit "outer.js") ScopeExample.script outer_is_not_svelte).
Defined.

Lemma extractFileStructure_spans_witness :
  detectLanguage (lit "outer.js") <> lit "svelte"
  /\ wellFormed ScopeExample.script = true
  /\ every (fun decl => within ScopeExample.script decl
                        /\ spansNested decl = true)
           (Svelte.extractFileStructure (Tree.document ScopeExample.source)
                                        (lit "outer.js") ScopeExample.script).
Proof.
  split; [exact outer_is_not_svelte|]. split; [reflexivity|].
  exact (extractFileStructure_spans (Tree.document ScopeExample.source)
           (lit "outer.js") ScopeExample.script outer_is_not_svelte eq_refl).
Defined.

Lemma blockExplanation_sentences_witness :
  exists declaration,
    Types.declarations EndToEnd.structure = [declaration]
    /\ (Types.kind declaration = Kcontrol ->
        startsWith (Types.keyword declaration) (lit "{#") = true ->
        In (Types.keyword declaration) blockKeywords)
    /\ endsWithStop (Prose.summary (Prose.blockExplanation declaration))
    /\ Prose.detail (Prose.blockExplanation declaration) <> [].
Proof.
  eexists. split; [vm_compute; reflexivity|].
  match goal with
  | |- (?kind = _ -> _) /\ _ =>
      assert (H : kind = Kfunction) by (vm_compute; reflexivity)
  end.
  match goal with
  | |- ?P /\ _ =>
      assert (Hblock : P) by (intros Hkind; rewrite H in Hkind; discriminate Hkind)
  end.
  split; [exact Hblock|].
  split; [exact (proj1 (blockExplanation_sentences _ Hblock))
         | vm_compute; discriminate].
Defined.

Lemma conceptMap_follows_categories_witness :
  ~ In (lit "CallExpression") inherited
  /\ Concepts.conceptMap (lit "CallExpression") = Some (lit "invocation")
  /\ exists tags, In (lit "invocation", tags) Concepts.categories
                  /\ In (lit "CallExpression") tags.
Proof.
  assert (H : ~ In (lit "CallExpression") inherited).
  { intros Hin. apply (proj2 (includes_In _ _)) in Hin. discriminate Hin. }
  split; [exact H|]. split; [reflexivity|].
  exact (proj1 (proj1 (conceptMap_follows_categories
                         (lit "CallExpression") (lit "invocation") H))
               eq_refl).
Defined.

Lemma extractConcepts_outermost_witness :
  ownTags ConceptExample.script = true
  /\ forall instance,
       In instance (Concepts.extractConcepts
                      (Tree.document ConceptExample.source)
                      ConceptExample.script)
       <-> exists path node category,
             descends ConceptExample.script path
             /\ last (ConceptExample.script :: path) = Some node
             /\ Forall plain (removelast (ConceptExample.script :: path))
             /\ Concepts.conceptMap (Tree.name node) = Some category
             /\ instance = instanceOf (Tree.document ConceptExample.source)
                                      node category.
Proof.
  split; [reflexivity|]. intros instance.
  exact (extractConcepts_outermost (Tree.document ConceptExample.source)
           ConceptExample.script instance eq_refl).
Defined.

Lemma lineNum_monotone_witness :
  1 <= 4
  /\ 1 <= Outline.lineNum [97; 10; 98; 10; 99]%N 1
  /\ Outline.lineNum [97; 10; 98; 10; 99]%N 1
     <= Outline.lineNum [97; 10; 98; 10; 99]%N 4
  /\ Outline.lineNum [97; 10; 98; 10; 99]%N 4
     <= Outline.lineNum [97; 10; 98; 10; 99]%N 1 + (4 - 1)
  /\ Outline.lineNum [97; 10; 98; 10; 99]%N 4
     <= S (length [97; 10; 98; 10; 99]%N)
  /\ (length [97; 10; 98; 10; 99]%N <= 1 ->
      Outline.lineNum [97; 10; 98; 10; 99]%N 4
      = Outline.lineNum [97; 10; 98; 10; 99]%N 1).
Proof.
  split; [lia|].
  apply (lineNum_monotone [97; 10; 98; 10; 99]%N 1 4). lia.
Defined.

Lemma syntheticNode_covers_witness :
  ImportsExample.imports <> []
  /\ Forall (fun imp =>
               Types.from (Outline.syntheticNode ImportsExample.imports)
               <= Types.from imp
               /\ Types.to imp
                  <= Types.to (Outline.syntheticNode ImportsExample.imports))
            ImportsExample.imports
  /\ In (Types.from (Outline.syntheticNode ImportsExample.imports))
        (map Types.from ImportsExample.imports)
  /\ In (Types.to (Outline.syntheticNode ImportsExample.imports))
        (map Types.to ImportsExample.imports)
  /\ length (Types.name (Outline.syntheticNode ImportsExample.imports)) <= 60.
Proof.
  split; [discriminate|].
  apply (syntheticNode_covers ImportsExample.imports). discriminate.
Defined.


Lemma cacheClean_empty : cacheClean ∅.
Proof. intros key value H. by rewrite lookup_empty in H. Qed.

Lemma describeFile_cache_only_grows_witness :
  cacheClean (AiProse.cache fresh)
  /\ let '(results, w') := runAll checksum answering CallsExample.twice fresh in
     cacheClean (AiProse.cache w')
     /\ AiProse.cache fresh ⊆ AiProse.cache w'.
Proof.
  split; [exact cacheClean_empty|].
  exact (proj2 (describeFile_cache_only_grows checksum unit answering
                  fresh cacheClean_empty) CallsExample.twice).
Defined.

Lemma checksum_bytes data : Forall (fun b => (b < 256)%N) (checksum data).
Proof. unfold checksum. repeat constructor; by apply N.mod_lt. Qed.

Lemma hashKey_is_hexadecimal_witness :
  (forall data, Forall (fun b => (b < 256)%N) (checksum data))
  /\ exists bytes,
       bytes = checksum (AiProse.CACHE_VERSION ++ [0%N] ++ lit "a.ts"
                                               ++ [0%N] ++ lit "let a = 1")
       /\ length (AiProse.hashKey checksum (lit "a.ts") (lit "let a = 1"))
          = 2 * length bytes
       /\ Forall (fun c => isHexDigit c = true)
                 (AiProse.hashKey checksum (lit "a.ts") (lit "let a = 1")).
Proof.
  split; [exact checksum_bytes|].
  exact (hashKey_is_hexadecimal checksum checksum_bytes
           (lit "a.ts") (lit "let a = 1")).
Defined.

Lemma hashKey_identifies_file_witness :
  (forall data, Forall (fun b => (b < 256)%N) (checksum data))
  /\ Forall (fun c => c <> 0%N) (lit "a.ts")
  /\ Forall (fun c => c <> 0%N) (lit "b.ts")
  /\ isWellFormed (lit "a.ts") = true /\ isWellFormed (lit "b.ts") = true
  /\ isWellFormed (lit "x") = true
  /\ lit "a.ts" <> lit "b.ts"
  /\ encode (keyData (lit "a.ts") (lit "x"))
     <> encode (keyData (lit "b.ts") (lit "x")).
Proof.
  assert (Ha : Forall (fun c => c <> 0%N) (lit "a.ts"))
    by (repeat constructor; discriminate).
  assert (Hb : Forall (fun c => c <> 0%N) (lit "b.ts"))
    by (repeat constructor; discriminate).
  assert (Hdifferent : lit "a.ts" <> lit "b.ts") by discriminate.
  split; [exact checksum_bytes|]. split; [exact Ha|]. split; [exact Hb|].
  split; [reflexivity|]. split; [reflexivity|]. split; [reflexivity|].
  split; [exact Hdifferent|].
  exact (proj1 (hashKey_identifies_file checksum checksum_bytes
                  (lit "a.ts") (lit "x") (lit "b.ts") (lit "x") Ha Hb
                  (conj eq_refl eq_refl) (conj eq_refl eq_refl)
                  (or_introl Hdifferent))).
Defined.

Lemma detectLanguage_reads_extension_witness :
  Forall (fun c => c <> 46%N) (lit "ts")
  /\ detectLanguage (lit "src/app" ++ [46%N] ++ lit "ts")
     = detectLanguage (lit "ts")
  /\ In (detectLanguage (lit "ts")) (lits ["svelte"; "js"; "py"; "rs"]%string)
  /\ (detectLanguage (lit "ts") = lit "svelte" <-> lit "ts" = lit "svelte")
  /\ (detectLanguage (lit "ts") = lit "py" <-> lit "ts" = lit "py")
  /\ (detectLanguage (lit "ts") = lit "rs" <-> lit "ts" = lit "rs").
Proof.
  assert (Hext : Forall (fun c => c <> 46%N) (lit "ts")).
  { repeat constructor; discriminate. }
  split; [exact Hext|].
  exact (detectLanguage_reads_extension (lit "src/app") (lit "ts") Hext).
Defined.
